(** * One-dimensional cellular automata: the rule engine of [ca/ca.py]

    A shallow embedding of class [CA]: construction from a Wolfram number or
    an explicit rule list, single-step rule application over a sliding
    window, multi-step evolution and post-hoc padding of the history.

    Python integers are [Z]; Python lists of integers are [list Z]; [len]
    is [length] injected into [Z].  Exceptions are an error monad [res].
    The last part of the file refines [__call__] to a store of list
    objects, in order to speak about aliasing with the caller's list. *)

From stdpp Require Import base numbers list gmap.

Local Open Scope Z_scope.

(** ** Exceptions

    The source raises [ValueError] everywhere and tells the cases apart by
    message only.  Each raise site gets the name of its failure kind:
    - ['neighborhood sizes must be at least 0'], ['number of states must be
       at least 2']: [InvalidConfiguration];
    - ['rule number with ... must be between 0 and ...']:
       [RuleNumberOutOfRange];
    - ['rule list with ... must have length ...']: [RuleTableLengthMismatch];
    - ['rule list ... must specify state between ...'], ['input sequence
       must be integers between ...'], ['all states must be between ...']:
       [StateOutOfRange];
    - ['input sequences without padding must have length at least the size
       of the neighborhood']: [SequenceTooShort];
    - ['number of steps to process must be at least 1']: [InvalidStepCount].
    The remaining constructors are the exceptions of the Python primitives
    that the code calls: list subscription, [max]/[min] of an empty list,
    [divmod] by zero, the interpreter's recursion limit, and an operation on
    an object of the wrong kind. *)
Inductive exn : Set :=
  | InvalidConfiguration
  | RuleNumberOutOfRange
  | RuleTableLengthMismatch
  | StateOutOfRange
  | SequenceTooShort
  | InvalidStepCount
  | IndexError
  | EmptyArgument
  | ZeroDivisionError
  | RecursionError
  | TypeError.

Inductive res (A : Type) : Type :=
  | Ok (a : A)
  | Raise (e : exn).
Arguments Ok {A} a.
Arguments Raise {A} e.

#[global] Instance res_ret : MRet res := @Ok.
#[global] Instance res_bind : MBind res := λ A B f m,
  match m with
  | Ok a => f a
  | Raise e => Raise e
  end.

(** ** Python primitives used by the class *)

Definition len {A} (l : list A) : Z := Z.of_nat (length l).

(** [[0 for _ in range(n)]]: empty when [n <= 0]. *)
Definition zeros (n : Z) : list Z := replicate (Z.to_nat n) 0.

(** [range(n)]. *)
Definition py_range (n : Z) : list Z := seqZ 0 n.

(** [divmod(a, b)]: floor division, the remainder has the sign of [b]. *)
Definition divmod (a b : Z) : res (Z * Z) :=
  if b =? 0 then Raise ZeroDivisionError else Ok (a `div` b, a `mod` b).

(** [sum(l)]. *)
Definition py_sum (l : list Z) : Z := foldl Z.add 0 l.

(** [enumerate(l)]. *)
Definition enumerate {A} (l : list A) : list (Z * A) :=
  imap (λ p x, (Z.of_nat p, x)) l.

(** [l[i]]: a negative index counts from the end. *)
Definition py_getitem {A} (l : list A) (i : Z) : res A :=
  let j := if i <? 0 then len l + i else i in
  if j <? 0 then Raise IndexError
  else match l !! Z.to_nat j with
       | Some x => Ok x
       | None => Raise IndexError
       end.

(** [l[i] = x]. *)
Definition py_setitem {A} (l : list A) (i : Z) (x : A) : res (list A) :=
  let j := if i <? 0 then len l + i else i in
  if (j <? 0) || (len l <=? j) then Raise IndexError
  else Ok (<[Z.to_nat j := x]> l).

(** [l[a:b]]: bounds are clipped, negative bounds count from the end. *)
Definition slice_bound (n i : Z) : Z :=
  if i <? 0 then Z.max 0 (n + i) else Z.min i n.
Definition py_slice {A} (l : list A) (a b : Z) : list A :=
  let a' := slice_bound (len l) a in
  let b' := slice_bound (len l) b in
  take (Z.to_nat (b' - a')) (drop (Z.to_nat a') l).

(** [max(l)] and [min(l)]. *)
Definition py_max (l : list Z) : res Z :=
  match l with
  | [] => Raise EmptyArgument
  | x :: l' => Ok (foldl Z.max x l')
  end.
Definition py_min (l : list Z) : res Z :=
  match l with
  | [] => Raise EmptyArgument
  | x :: l' => Ok (foldl Z.min x l')
  end.

(** [for x in xs: s = body(s, x)], where the body may raise. *)
Fixpoint for_loop {A S} (body : S → A → res S) (xs : list A) (s : S) : res S :=
  match xs with
  | [] => Ok s
  | x :: xs' => s' ← body s x; for_loop body xs' s'
  end.

(** [0 <= x < n_states] *)
Definition in_bounds (n_states x : Z) : bool := (0 <=? x) && (x <? n_states).

(** ** The class *)

(** [rule: Union[List[int], int]], told apart by [isinstance(rule, int)]. *)
Inductive rule_arg : Type :=
  | RuleInt (k : Z)
  | RuleList (l : list Z).

Record CA : Type := mkCA {
  rule : list Z;
  nhd : Z * Z;
  n_states : Z;
  in_size : Z;
  _max_rule_ix : Z
}.

(** The inner function of [_int_to_states] (ca.py, lines 248-254).
    [acc.append(state)] extends the one list that is threaded through the
    calls.  The recursion is on [k] and is not structural: [depth] is the
    number of nested calls the interpreter still allows, and exceeding it
    raises [RecursionError]. *)
Fixpoint int_to_states_rcrs (depth : nat) (k n_states : Z) (acc : list Z)
  : res (list Z) :=
  match depth with
  | O => Raise RecursionError
  | S depth' =>
      if k =? 0 then Ok acc
      else
        '(next, state) ← divmod k n_states;
        int_to_states_rcrs depth' next n_states (acc ++ [state])
  end.

(** [_int_to_states] (lines 234-263) reads [self.n_states] and
    [self.in_size]; it is called from [__init__] before [self.rule] exists,
    so the two attributes are its parameters here. *)
Definition _int_to_states (depth : nat) (n_states in_size k : Z) : res (list Z) :=
  out ← int_to_states_rcrs depth k n_states [];
  let rem := n_states ^ in_size - len out in
  Ok (if 0 <? rem then out ++ zeros rem else out).

(** [__init__] (lines 28-88).  [depth] is passed on to the decoding. *)
Definition __init__ (depth : nat) (rule : rule_arg) (nhd : Z * Z) (n_states : Z)
  : res CA :=
  if (nhd.1 <? 0) || (nhd.2 <? 0) then Raise InvalidConfiguration
  else if n_states <? 2 then Raise InvalidConfiguration
  else
    let in_size := nhd.1 + nhd.2 + 1 in
    let max_rule_num := n_states ^ (n_states ^ in_size) - 1 in
    let rule_len := n_states ^ in_size in
    self_rule ←
      match rule with
      | RuleInt k =>
          if (k <? 0) || (max_rule_num <? k) then Raise RuleNumberOutOfRange
          else _int_to_states depth n_states in_size k
      | RuleList l =>
          if negb (len l =? rule_len) then Raise RuleTableLengthMismatch
          else if negb (forallb (in_bounds n_states) l) then Raise StateOutOfRange
          else Ok l
      end;
    Ok (mkCA self_rule nhd n_states in_size rule_len).

(** [_states_in_bounds] (lines 265-276): raises at the first state out of
    bounds. *)
Definition _states_in_bounds (self : CA) (states : list Z) : res unit :=
  for_loop (λ _ state,
      if (state <? 0) || (n_states self <=? state) then Raise StateOutOfRange
      else Ok ())
    states ().

(** [_neighborhood_to_index] (lines 222-232). *)
Definition _neighborhood_to_index (self : CA) (states : list Z) : res Z :=
  _ ← _states_in_bounds self states;
  Ok (py_sum (imap (λ p state,
                 state * n_states self ^ (len states - Z.of_nat p - 1))
              states)).

(** [_apply_rule] (lines 135-180). *)
Definition _apply_rule (self : CA) (seq : list Z) (pre_pad : bool)
  : res (list Z) :=
  (* check input length *)
  if negb pre_pad && (len seq <? in_size self) then Raise SequenceTooShort
  (* check for out of bounds states *)
  else if negb (forallb (in_bounds (n_states self)) seq) then Raise StateOutOfRange
  else
    let seq_ :=
      if pre_pad then zeros (nhd self).1 ++ seq ++ zeros (nhd self).2
      else seq in
    for_loop (λ out start_ix,
        let window := py_slice seq_ start_ix (start_ix + in_size self) in
        window_int ← _neighborhood_to_index self window;
        x ← py_getitem (rule self) window_int;
        Ok (out ++ [x]))
      (py_range (len seq_ - in_size self + 1)) [].

(** [_pad_output] (lines 182-220) assigns the padded rows into [seqs] and
    returns [seqs]; at the level of values that is the updated list. *)
Definition _pad_output (self : CA) (seqs : list (list Z))
  : res (list (list Z)) :=
  (* run checks on input sequences *)
  _ ← for_loop (λ _ seq, _states_in_bounds self seq) seqs ();
  if 1 <? in_size self then
    let seq_lens := len <$> seqs in
    max_len ← py_max seq_lens;
    min_len ← py_min seq_lens;
    if min_len <? max_len then
      for_loop (λ seqs '(ix, seq_len),
          let fill := max_len - seq_len in
          if 0 <? fill then
            '(nhd_reps, extra) ← divmod fill (in_size self - 1);
            '(extra_both, extra_l) ← divmod extra 2;
            let l_pad := zeros (nhd_reps * (nhd self).1 + extra_both + extra_l) in
            let r_pad := zeros (nhd_reps * (nhd self).2 + extra_both) in
            cur ← py_getitem seqs ix;
            py_setitem seqs ix (l_pad ++ cur ++ r_pad)
          else Ok seqs)
        (enumerate seq_lens) seqs
    else Ok seqs
  else Ok seqs.

(** The loop of [__call__] (lines 123-128): [iters] iterations are left,
    [break] returns the history built so far. *)
Fixpoint call_loop (self : CA) (pre_pad : bool) (iters : nat)
  (out : list (list Z)) : res (list (list Z)) :=
  match iters with
  | O => Ok out
  | S iters' =>
      cur ← py_getitem out (-1);
      states_next ← _apply_rule self cur pre_pad;
      if 0 <? len states_next
      then call_loop self pre_pad iters' (out ++ [states_next])
      else Ok out
  end.

(** [__call__] (lines 90-133), on values: [deepcopy(seq)] is [seq]. *)
Definition __call__ (self : CA) (seq : list Z) (steps : Z)
  (pre_pad post_pad : bool) : res (list (list Z)) :=
  if steps <? 1 then Raise InvalidStepCount
  else
    out ← call_loop self pre_pad (Z.to_nat steps) [seq];
    if post_pad then _pad_output self out else Ok out.

(** [_check_rule_ix] (lines 278-288) returns nothing or raises [ValueError]
    (['integer representation of states must be between 0 and ...']).  No
    method of the class calls it. *)
Inductive check_outcome : Set :=
  | Passes
  | RaisesValueError.

Definition _check_rule_ix (self : CA) (rule_ix : Z) : check_outcome :=
  if (rule_ix <? 0) || (_max_rule_ix self <? rule_ix) then RaisesValueError
  else Passes.

(** ** The class over a store of list objects

    The functions above compute with values.  Python lists are mutable
    objects reached through references, and [__call__] creates, extends and
    reassigns lists.  The definitions below repeat [_apply_rule],
    [_pad_output] and [__call__] over a store: every list display, list
    comprehension result kept in a variable, [deepcopy] and [+] allocates a
    new object; [append] and item assignment update an object in place.
    Windows, pads and [seq_lens] are temporaries that are only read, they
    stay values.  [self.rule] is only read as well and stays in [self]. *)

Definition loc : Set := positive.

Inductive obj : Type :=
  | Ints (l : list Z)      (* a list of states *)
  | Rows (l : list loc).   (* a list of references to lists of states *)

Definition hm (A : Type) : Type := gmap loc obj → res A * gmap loc obj.

#[global] Instance hm_ret : MRet hm := λ A a h, (Ok a, h).
#[global] Instance hm_bind : MBind hm := λ A B f m h,
  match m h with
  | (Ok a, h') => f a h'
  | (Raise e, h') => (Raise e, h')
  end.

Definition h_lift {A} (r : res A) : hm A := λ h, (r, h).

(** A new object at an unused location. *)
Definition h_new (o : obj) : hm loc := λ h,
  let l := fresh (dom h) in (Ok l, <[l := o]> h).

(** Reading through a reference to a list of the expected kind. *)
Definition h_ints (l : loc) : hm (list Z) := λ h,
  match h !! l with
  | Some (Ints s) => (Ok s, h)
  | _ => (Raise TypeError, h)
  end.
Definition h_rows (l : loc) : hm (list loc) := λ h,
  match h !! l with
  | Some (Rows rs) => (Ok rs, h)
  | _ => (Raise TypeError, h)
  end.

(** Updating an object in place. *)
Definition h_set (l : loc) (o : obj) : hm unit := λ h, (Ok (), <[l := o]> h).

(** [l.append(x)] *)
Definition h_append_int (l : loc) (x : Z) : hm unit :=
  s ← h_ints l; h_set l (Ints (s ++ [x])).
Definition h_append_row (l : loc) (r : loc) : hm unit :=
  rs ← h_rows l; h_set l (Rows (rs ++ [r])).

(** [for x in xs: body(x)] *)
Fixpoint h_for {A} (body : A → hm unit) (xs : list A) : hm unit :=
  match xs with
  | [] => mret ()
  | x :: xs' => _ ← body x; h_for body xs'
  end.

Definition h_apply_rule (self : CA) (seq : loc) (pre_pad : bool) : hm loc :=
  s ← h_ints seq;
  if negb pre_pad && (len s <? in_size self) then h_lift (Raise SequenceTooShort)
  else if negb (forallb (in_bounds (n_states self)) s)
  then h_lift (Raise StateOutOfRange)
  else
    out ← h_new (Ints []);
    seq_ ← (if pre_pad
            then h_new (Ints (zeros (nhd self).1 ++ s ++ zeros (nhd self).2))
            else mret seq);
    s_ ← h_ints seq_;
    _ ← h_for (λ start_ix,
           s_ ← h_ints seq_;
           let window := py_slice s_ start_ix (start_ix + in_size self) in
           window_int ← h_lift (_neighborhood_to_index self window);
           x ← h_lift (py_getitem (rule self) window_int);
           h_append_int out x)
         (py_range (len s_ - in_size self + 1));
    mret out.

Definition h_pad_output (self : CA) (seqs : loc) : hm loc :=
  rs ← h_rows seqs;
  _ ← h_for (λ r, seq ← h_ints r; h_lift (_states_in_bounds self seq)) rs;
  if 1 <? in_size self then
    seq_lens ← mapM (λ r, seq ← h_ints r; mret (len seq)) rs;
    max_len ← h_lift (py_max seq_lens);
    min_len ← h_lift (py_min seq_lens);
    if min_len <? max_len then
      _ ← h_for (λ '(ix, seq_len),
             let fill := max_len - seq_len in
             if 0 <? fill then
               '(nhd_reps, extra) ← h_lift (divmod fill (in_size self - 1));
               '(extra_both, extra_l) ← h_lift (divmod extra 2);
               let l_pad := zeros (nhd_reps * (nhd self).1 + extra_both + extra_l) in
               let r_pad := zeros (nhd_reps * (nhd self).2 + extra_both) in
               rs ← h_rows seqs;
               r ← h_lift (py_getitem rs ix);
               cur ← h_ints r;
               new ← h_new (Ints (l_pad ++ cur ++ r_pad));
               rs' ← h_lift (py_setitem rs ix new);
               h_set seqs (Rows rs')
             else mret ())
           (enumerate seq_lens);
      mret seqs
    else mret seqs
  else mret seqs.

Fixpoint h_call_loop (self : CA) (pre_pad : bool) (iters : nat) (out : loc)
  : hm unit :=
  match iters with
  | O => mret ()
  | S iters' =>
      rs ← h_rows out;
      cur ← h_lift (py_getitem rs (-1));
      states_next ← h_apply_rule self cur pre_pad;
      s ← h_ints states_next;
      if 0 <? len s
      then _ ← h_append_row out states_next; h_call_loop self pre_pad iters' out
      else mret ()
  end.

Definition h_call (self : CA) (seq : loc) (steps : Z)
  (pre_pad post_pad : bool) : hm loc :=
  if steps <? 1 then h_lift (Raise InvalidStepCount)
  else
    s ← h_ints seq;
    first ← h_new (Ints s);          (* deepcopy(seq) *)
    out ← h_new (Rows [first]);      (* [deepcopy(seq)] *)
    _ ← h_call_loop self pre_pad (Z.to_nat steps) out;
    if post_pad then h_pad_output self out else mret out.

(** The rows of the history at [l], read out of the store. *)
Definition read_history (h : gmap loc obj) (l : loc) : option (list (list Z)) :=
  match h !! l with
  | Some (Rows rs) =>
      mapM (λ r, match h !! r with Some (Ints s) => Some s | _ => None end) rs
  | _ => None
  end.

(** ** Vocabulary of the statements *)

Definition window_size (nhd : Z * Z) : Z := nhd.1 + nhd.2 + 1.
Definition table_length (state_count : Z) (nhd : Z * Z) : Z :=
  state_count ^ window_size nhd.

(** The base-[n] digit of [k] of weight [n ^ i]. *)
Definition digit (n k : Z) (i : nat) : Z := (k `div` n ^ Z.of_nat i) `mod` n.

(** The index of a window in the words of the specification: the sum over
    the positions [p] of [w[p] * state_count ^ (window_size - p - 1)].  It
    is compared below with the sum that [_neighborhood_to_index] computes. *)
Definition big_endian_index (state_count window_size : Z) (w : list Z) : Z :=
  foldr Z.add 0
    ((λ p, nth (Z.to_nat p) w 0 * state_count ^ (window_size - p - 1))
       <$> seqZ 0 window_size).

(** Each row but the first is the result of one step on the row before. *)
Definition chain (self : CA) (pre_pad : bool) (rows : list (list Z)) : Prop :=
  ∀ (i : nat) (a b : list Z),
    rows !! i = Some a → rows !! S i = Some b → _apply_rule self a pre_pad = Ok b.

(** [i] steps in a row, each on the result of the one before. *)
Fixpoint iter_apply (self : CA) (pre_pad : bool) (i : nat) (seq : list Z)
  : res (list Z) :=
  match i with
  | O => Ok seq
  | S i' => nxt ← _apply_rule self seq pre_pad; iter_apply self pre_pad i' nxt
  end.

(** What [__init__] establishes. *)
Record CA_wf (ca : CA) : Prop := mkCA_wf {
  wf_states : 2 ≤ n_states ca;
  wf_left : 0 ≤ (nhd ca).1;
  wf_right : 0 ≤ (nhd ca).2;
  wf_in_size : in_size ca = window_size (nhd ca);
  wf_rule_len : len (rule ca) = table_length (n_states ca) (nhd ca);
  wf_rule_bounds : Forall (λ x, 0 ≤ x < n_states ca) (rule ca)
}.

(** ** Auxiliary definitions of the proofs

    Parts of the bodies of the methods, named so that lemmas can speak
    about them, and the values the methods return where they return. *)

(** The sum of [_neighborhood_to_index], after its bounds check. *)
Definition encode (n : Z) (w : list Z) : Z :=
  py_sum (imap (λ p state, state * n ^ (len w - Z.of_nat p - 1)) w).

(** [seq_] in [_apply_rule]: the list that the window slides over. *)
Definition padded (self : CA) (seq : list Z) (pre_pad : bool) : list Z :=
  if pre_pad then zeros (nhd self).1 ++ seq ++ zeros (nhd self).2 else seq.

(** The body of the loop of [_apply_rule], without the append. *)
Definition cell (self : CA) (seq_ : list Z) (start_ix : Z) : res Z :=
  window_int ← _neighborhood_to_index self
                  (py_slice seq_ start_ix (start_ix + in_size self));
  py_getitem (rule self) window_int.

(** The value of [cell] and of [_apply_rule] where they return. *)
Definition next_state (self : CA) (seq_ : list Z) (start_ix : Z) : Z :=
  nth (Z.to_nat (encode (n_states self)
                   (take (Z.to_nat (in_size self)) (drop (Z.to_nat start_ix) seq_))))
      (rule self) 0.
Definition step (self : CA) (seq : list Z) (pre_pad : bool) : list Z :=
  next_state self (padded self seq pre_pad)
    <$> py_range (len (padded self seq pre_pad) - in_size self + 1).

(** The row that the loop of [_pad_output] leaves in place of [row]. *)
Definition pad_row (self : CA) (max_len : Z) (row : list Z) : list Z :=
  let fill := max_len - len row in
  if 0 <? fill then
    let nhd_reps := fill `div` (in_size self - 1) in
    let extra := fill `mod` (in_size self - 1) in
    let extra_both := extra `div` 2 in
    let extra_l := extra `mod` 2 in
    zeros (nhd_reps * (nhd self).1 + extra_both + extra_l)
      ++ row ++ zeros (nhd_reps * (nhd self).2 + extra_both)
  else row.

(** The run of [m] from the store [h] simulates the computation [p] on
    values: both raise the same exception or both return, with results
    related by [Q]; and in either case the objects of [h0] are still in the
    final store, unchanged. *)
Definition sim {A B} (h0 : gmap loc obj) (m : hm A) (h : gmap loc obj)
  (p : res B) (Q : A → B → gmap loc obj → Prop) : Prop :=
  h0 ⊆ (m h).2
  ∧ match p, (m h).1 with
    | Ok b, Ok a => Q a b (m h).2
    | Raise e, Raise e' => e = e'
    | _, _ => False
    end.

(** The history object [out] holds the references [rs] to the rows [rows];
    [out] and the rows are not objects of [h0], whose objects are all still
    there. *)
Record hist_inv (h0 h : gmap loc obj) (out : loc) (rs : list loc)
  (rows : list (list Z)) : Prop := mk_hist_inv {
  hi_frame : h0 ⊆ h;
  hi_out : h !! out = Some (Rows rs);
  hi_out_fresh : h0 !! out = None;
  hi_rows_fresh : Forall (λ r, h0 !! r = None) rs;
  hi_rows : Forall2 (λ r row, h !! r = Some (Ints row)) rs rows
}.

(** ** Runs of the model on small inputs *)

Definition ca90 : CA := mkCA [0;1;0;1;1;0;1;0] (1, 1) 2 3 8.

Example rule90 : __init__ 100 (RuleInt 90) (1, 1) 2 = Ok ca90.
Proof. reflexivity. Qed.

Example rule90_padded_step :
  __call__ ca90 [0;1;0;0;0] 1 true true = Ok [[0;1;0;0;0]; [1;0;1;0;0]].
Proof. reflexivity. Qed.

Example rule90_shrinking :
  __call__ ca90 [0;1;0;0;0] 2 false false = Ok [[0;1;0;0;0]; [0;1;0]; [0]].
Proof. reflexivity. Qed.

Example rule90_shrinking_padded :
  __call__ ca90 [0;1;0;0;0] 2 false true
  = Ok [[0;1;0;0;0]; [0;0;1;0;0]; [0;0;0;0;0]].
Proof. reflexivity. Qed.

Example rule90_too_short :
  __call__ ca90 [0;1;0;0;0] 3 false true = Raise SequenceTooShort.
Proof. reflexivity. Qed.

Example rule90_empty :
  __call__ ca90 [] 3 true true = Ok [[]].
Proof. reflexivity. Qed.

Example rule90_store :
  let h : gmap loc obj := {[ 1%positive := Ints [0;1;0;0;0] ]} in
  let '(r, h') := h_call ca90 1%positive 2 false true h in
  h' !! 1%positive = Some (Ints [0;1;0;0;0])
  ∧ ∃ l, r = Ok l
         ∧ read_history h' l = Some [[0;1;0;0;0]; [0;0;1;0;0]; [0;0;0;0;0]].
Proof. vm_compute. split; [done | eexists; split; reflexivity]. Qed.

(** ** General facts about the primitives *)

Lemma bind_Ok {A B} (m : res A) (f : A → res B) (b : B) :
  m ≫= f = Ok b ↔ ∃ a, m = Ok a ∧ f a = Ok b.
Proof.
  destruct m as [a|e]; simpl.
  - split; [eauto | intros (? & [= <-] & ?); done].
  - split; [done | intros (? & [= ] & _)].
Qed.

Lemma bind_Raise {A B} (m : res A) (f : A → res B) (e : exn) :
  m ≫= f = Raise e ↔ m = Raise e ∨ ∃ a, m = Ok a ∧ f a = Raise e.
Proof.
  destruct m as [a|e']; simpl.
  - split; [eauto | intros [[=] | (? & [= <-] & ?)]; done].
  - split; [intros [= <-]; eauto | intros [[= <-] | (? & [=] & _)]; done].
Qed.

Lemma len_nonneg {A} (l : list A) : 0 ≤ len l.
Proof. unfold len. lia. Qed.

Lemma len_app {A} (l k : list A) : len (l ++ k) = len l + len k.
Proof. unfold len. rewrite length_app. lia. Qed.

Lemma len_zeros (n : Z) : len (zeros n) = Z.max 0 n.
Proof. unfold len, zeros. rewrite length_replicate. lia. Qed.

Lemma nth_app_zeros (l : list Z) (r : Z) (i : nat) :
  nth i (l ++ zeros r) 0 = nth i l 0.
Proof.
  unfold zeros. destruct (decide (i < length l)%nat) as [Hi|Hi].
  - by rewrite app_nth1.
  - rewrite app_nth2 by lia. rewrite (nth_overflow l) by lia.
    generalize (i - length l)%nat. induction (Z.to_nat r) as [|? IH]; intros [|?]; simpl; auto.
Qed.

Lemma in_bounds_spec (n x : Z) : in_bounds n x = true ↔ 0 ≤ x < n.
Proof. unfold in_bounds. rewrite andb_true_iff, Z.leb_le, Z.ltb_lt. done. Qed.

Lemma forallb_in_bounds (n : Z) (l : list Z) :
  forallb (in_bounds n) l = true ↔ Forall (λ x, 0 ≤ x < n) l.
Proof.
  rewrite forallb_forall, Forall_forall.
  setoid_rewrite in_bounds_spec. by setoid_rewrite list_elem_of_In.
Qed.

(** ** Wolfram decoding *)

Section decode.
Variable n : Z.
Hypothesis Hn : 2 ≤ n.

Lemma digit_zero (i : nat) : digit n 0 i = 0.
Proof. unfold digit. rewrite Z.div_0_l by lia. apply Z.mod_0_l. lia. Qed.

Lemma digit_bounds (k : Z) (i : nat) : 0 ≤ digit n k i < n.
Proof. unfold digit. apply Z.mod_pos_bound. lia. Qed.

Lemma digit_O (k : Z) : digit n k 0 = k `mod` n.
Proof. unfold digit. by rewrite Z.pow_0_r, Z.div_1_r. Qed.

Lemma digit_S (k : Z) (i : nat) : 0 ≤ k → digit n k (S i) = digit n (k `div` n) i.
Proof.
  intros Hk. unfold digit.
  rewrite Nat2Z.inj_succ, Z.pow_succ_r by lia.
  rewrite Z.div_div; [done | lia | ]. apply Z.pow_pos_nonneg; lia.
Qed.

(** What a returning call of the inner recursion has appended. *)
Lemma int_to_states_rcrs_inv (depth : nat) :
  ∀ k acc out, 0 ≤ k →
    int_to_states_rcrs depth k n acc = Ok out →
    ∃ ds, out = acc ++ ds
          ∧ (∀ m : nat, k < n ^ Z.of_nat m → (length ds ≤ m)%nat)
          ∧ ∀ i, nth i ds 0 = digit n k i.
Proof.
  induction depth as [|depth IH]; intros k acc out Hk; simpl; [done|].
  destruct (Z.eqb_spec k 0) as [->|Hk0].
  - intros [= <-]. exists []. rewrite app_nil_r. split_and!; [done|simpl; lia|].
    intros i. rewrite digit_zero. by destruct i.
  - unfold divmod. destruct (Z.eqb_spec n 0) as [|_]; [lia|]. simpl.
    intros (ds & -> & Hlen & Hnth)%IH; [|apply Z.div_pos; lia].
    exists (k `mod` n :: ds). rewrite <- app_assoc. split_and!; [done| |].
    + intros [|m] Hm; [simpl in Hm; lia|]. simpl.
      apply le_n_S, Hlen.
      rewrite Nat2Z.inj_succ, Z.pow_succ_r in Hm by lia.
      apply Z.div_lt_upper_bound; lia.
    + intros [|i]; simpl; [by rewrite digit_O | by rewrite Hnth, digit_S by lia].
Qed.

(** The inner recursion returns when the interpreter allows one more
    nested call than [k] has digits. *)
Lemma int_to_states_rcrs_returns (m : nat) :
  ∀ depth k acc, 0 ≤ k < n ^ Z.of_nat m → (m < depth)%nat →
    ∃ out, int_to_states_rcrs depth k n acc = Ok out.
Proof.
  induction m as [|m IH]; intros [|depth] k acc Hk Hd; try lia; simpl.
  - destruct (Z.eqb_spec k 0); [eauto | simpl in Hk; lia].
  - destruct (Z.eqb_spec k 0); [eauto |].
    unfold divmod. destruct (Z.eqb_spec n 0) as [|_]; [lia|]. simpl.
    apply IH; [|lia].
    rewrite Nat2Z.inj_succ, Z.pow_succ_r in Hk by lia.
    split; [apply Z.div_pos; lia | apply Z.div_lt_upper_bound; lia].
Qed.

(** [_int_to_states] on a number that fits in [n ^ in_size] digits. *)
Lemma int_to_states_inv (depth : nat) (in_size k : Z) (out : list Z) :
  0 ≤ in_size → 0 ≤ k < n ^ (n ^ in_size) →
  _int_to_states depth n in_size k = Ok out →
  len out = n ^ in_size ∧ ∀ i, nth i out 0 = digit n k i.
Proof.
  intros Hs Hk. unfold _int_to_states.
  intros (ds & Hds & [= <-])%bind_Ok.
  apply int_to_states_rcrs_inv in Hds as (ds' & -> & Hlen & Hnth); [|lia].
  simpl in *.
  assert (0 < n ^ in_size) by (apply Z.pow_pos_nonneg; lia).
  specialize (Hlen (Z.to_nat (n ^ in_size))). rewrite Z2Nat.id in Hlen by lia.
  specialize (Hlen (proj2 Hk)).
  destruct (Z.ltb_spec 0 (n ^ in_size - len ds')) as [Hrem|Hrem].
  - split; [|intros i; by rewrite nth_app_zeros].
    rewrite len_app, len_zeros. lia.
  - split; [unfold len in *; lia | done].
Qed.

Lemma int_to_states_returns (depth : nat) (in_size k : Z) :
  0 ≤ in_size → 0 ≤ k < n ^ (n ^ in_size) →
  (Z.to_nat (n ^ in_size) < depth)%nat →
  ∃ out, _int_to_states depth n in_size k = Ok out.
Proof.
  intros Hs Hk Hd. unfold _int_to_states.
  assert (0 < n ^ in_size) by (apply Z.pow_pos_nonneg; lia).
  destruct (int_to_states_rcrs_returns (Z.to_nat (n ^ in_size)) depth k [])
    as [out ->]; [by rewrite Z2Nat.id by lia | done | simpl; eauto].
Qed.
End decode.

(** ** Construction *)

Lemma nth_Forall_bounds (n : Z) (l : list Z) :
  (∀ i, 0 ≤ nth i l 0 < n) → Forall (λ x, 0 ≤ x < n) l.
Proof.
  intros H. apply Forall_lookup_2. intros i x Hx.
  rewrite <- (nth_lookup_Some l i 0 x Hx). apply H.
Qed.

Lemma lookup_nth_len (l : list Z) (i : nat) :
  Z.of_nat i < len l → l !! i = Some (nth i l 0).
Proof.
  intros Hi. destruct (lookup_lt_is_Some_2 l i) as [x Hx]; [unfold len in Hi; lia|].
  by rewrite (nth_lookup_Some l i 0 x Hx).
Qed.

(** The guards of [__init__], read off a successful construction. *)
Lemma init_Ok_inv (depth : nat) (r : rule_arg) (nh : Z * Z) (n : Z) (ca : CA) :
  __init__ depth r nh n = Ok ca →
  2 ≤ n ∧ 0 ≤ nh.1 ∧ 0 ≤ nh.2
  ∧ ∃ t, ca = mkCA t nh n (window_size nh) (table_length n nh)
       ∧ match r with
         | RuleInt k =>
             0 ≤ k ≤ n ^ table_length n nh - 1
             ∧ _int_to_states depth n (window_size nh) k = Ok t
         | RuleList l =>
             t = l ∧ len l = table_length n nh ∧ Forall (λ x, 0 ≤ x < n) l
         end.
Proof.
  unfold __init__, table_length, window_size.
  destruct (Z.ltb_spec nh.1 0); [done|]. destruct (Z.ltb_spec nh.2 0); [done|].
  destruct (Z.ltb_spec n 2); [done|]. simpl.
  intros (t & Ht & [= <-])%bind_Ok. split_and!; try done.
  exists t. split; [done|]. destruct r as [k|l].
  - destruct (Z.ltb_spec k 0); [done|].
    destruct (Z.ltb_spec (n ^ n ^ (nh.1 + nh.2 + 1) - 1) k); [done|]. simpl in Ht.
    split; [lia | done].
  - destruct (Z.eqb_spec (len l) (n ^ (nh.1 + nh.2 + 1))); [|done]. simpl in Ht.
    destruct (forallb (in_bounds n) l) eqn:Hb; [|done]. simpl in Ht.
    injection Ht as <-. by apply forallb_in_bounds in Hb.
Qed.

Lemma init_wf (depth : nat) (r : rule_arg) (nh : Z * Z) (n : Z) (ca : CA) :
  __init__ depth r nh n = Ok ca → CA_wf ca ∧ nhd ca = nh ∧ n_states ca = n.
Proof.
  intros (Hn & Hl & Hr & t & -> & Hrule)%init_Ok_inv.
  split; [|done]. split; simpl; try done.
  - destruct r as [k|l]; [|by destruct Hrule as (-> & ? & _)].
    destruct Hrule as [Hk Ht].
    apply int_to_states_inv in Ht as [? _]; [done | done | | unfold table_length in Hk; lia].
    unfold window_size; lia.
  - destruct r as [k|l]; [|by destruct Hrule as (-> & _ & ?)].
    destruct Hrule as [Hk Ht].
    apply int_to_states_inv in Ht as [_ Hnth]; [|done| |unfold table_length in Hk; lia].
    + apply nth_Forall_bounds. intros i. rewrite Hnth. by apply digit_bounds.
    + unfold window_size; lia.
Qed.

(** Construction from a rule list that passes the two checks returns. *)
Lemma init_list (depth : nat) (l : list Z) (nh : Z * Z) (n : Z) :
  2 ≤ n → 0 ≤ nh.1 → 0 ≤ nh.2 →
  len l = table_length n nh → Forall (λ x, 0 ≤ x < n) l →
  __init__ depth (RuleList l) nh n
  = Ok (mkCA l nh n (window_size nh) (table_length n nh)).
Proof.
  intros Hn Hl Hr Hlen Hb. unfold __init__.
  destruct (Z.ltb_spec nh.1 0); [lia|]. destruct (Z.ltb_spec nh.2 0); [lia|].
  destruct (Z.ltb_spec n 2); [lia|]. simpl.
  unfold table_length, window_size in Hlen.
  destruct (Z.eqb_spec (len l) (n ^ (nh.1 + nh.2 + 1))); [|done]. simpl.
  apply forallb_in_bounds in Hb. by rewrite Hb.
Qed.

(** X24. Wolfram decoding within the recursion allowance: for
    [state_count >= 2], radii [>= 0] and a rule number
    [0 <= k <= state_count ^ table_length - 1], when the interpreter allows
    [table_length + 1] nested calls, construction returns a configuration
    whose rule table has length [table_length], whose entry [i] is the
    base-[state_count] digit of [k] of weight [state_count ^ i], and whose
    entries above the last digit of [k] are zero; for [k = 0] the table is
    all zeros. *)
Theorem wolfram_decoding (depth : nat) (state_count left_radius right_radius k : Z) :
  2 ≤ state_count → 0 ≤ left_radius → 0 ≤ right_radius →
  0 ≤ k ≤ state_count ^ table_length state_count (left_radius, right_radius) - 1 →
  (Z.to_nat (table_length state_count (left_radius, right_radius)) < depth)%nat →
  ∃ ca,
    __init__ depth (RuleInt k) (left_radius, right_radius) state_count = Ok ca
    ∧ len (rule ca) = table_length state_count (left_radius, right_radius)
    ∧ (∀ i : nat, Z.of_nat i < len (rule ca) →
         rule ca !! i = Some (digit state_count k i))
    ∧ (∀ i : nat, Z.of_nat i < len (rule ca) → k < state_count ^ Z.of_nat i →
         rule ca !! i = Some 0)
    ∧ (k = 0 →
       rule ca = zeros (table_length state_count (left_radius, right_radius))).
Proof.
  intros Hn Hl Hr Hk Hd. set (nh := (left_radius, right_radius)) in *.
  assert (0 ≤ window_size nh) as Hw by (unfold window_size; simpl; lia).
  destruct (int_to_states_returns state_count Hn depth (window_size nh) k)
    as [t Ht]; [done | unfold table_length in Hk; lia | done |].
  pose proof Ht as Ht'.
  apply int_to_states_inv in Ht' as [Hlen Hnth];
    [| done | done | unfold table_length in Hk; lia].
  exists (mkCA t nh state_count (window_size nh) (table_length state_count nh)).
  assert (∀ i : nat, Z.of_nat i < len t → t !! i = Some (digit state_count k i))
    as Hdig by (intros i Hi; by rewrite lookup_nth_len, Hnth).
  split_and!; simpl; try done.
  - unfold __init__. simpl.
    destruct (Z.ltb_spec left_radius 0); [lia|].
    destruct (Z.ltb_spec right_radius 0); [lia|].
    destruct (Z.ltb_spec state_count 2); [lia|]. simpl.
    destruct (Z.ltb_spec k 0); [lia|].
    unfold table_length, window_size in *. simpl in *.
    destruct (Z.ltb_spec
      (state_count ^ state_count ^ (left_radius + right_radius + 1) - 1) k); [lia|].
    simpl. by rewrite Ht.
  - intros i Hi Hki. rewrite Hdig by done. f_equal. unfold digit.
    rewrite Z.div_small by lia. apply Z.mod_0_l. lia.
  - intros ->. apply list_eq. intros i. unfold zeros.
    destruct (decide (Z.of_nat i < len t)) as [Hi|Hi].
    + rewrite Hdig, digit_zero by done. symmetry. apply lookup_replicate_2.
      rewrite Hlen in Hi. unfold table_length. lia.
    + rewrite lookup_ge_None_2 by (unfold len in Hi; lia).
      symmetry. apply lookup_ge_None_2. rewrite length_replicate.
      rewrite Hlen in Hi. unfold table_length. lia.
Qed.

Lemma wolfram_decoding_witness :
  ∃ ca, __init__ 9 (RuleInt 90) (1, 1) 2 = Ok ca
    ∧ len (rule ca) = table_length 2 (1, 1)
    ∧ (∀ i : nat, Z.of_nat i < len (rule ca) → rule ca !! i = Some (digit 2 90 i))
    ∧ (∀ i : nat, Z.of_nat i < len (rule ca) → 90 < 2 ^ Z.of_nat i →
         rule ca !! i = Some 0)
    ∧ (90 = 0 → rule ca = zeros (table_length 2 (1, 1))).
Proof.
  apply (wolfram_decoding 9 2 1 1 90); [lia | lia | lia | vm_compute; done | vm_compute; lia].
Defined.

(** The only way the decoding fails is by running out of nested calls. *)
Lemma int_to_states_rcrs_Raise (n : Z) (depth : nat) :
  n ≠ 0 → ∀ k acc e,
    int_to_states_rcrs depth k n acc = Raise e → e = RecursionError.
Proof.
  intros Hn. induction depth as [|depth IH]; intros k acc e; simpl.
  - by intros [= <-].
  - destruct (k =? 0); [done|]. unfold divmod.
    destruct (Z.eqb_spec n 0); [done|]. simpl. apply IH.
Qed.

Lemma int_to_states_Raise (n s k : Z) (depth : nat) (e : exn) :
  n ≠ 0 → _int_to_states depth n s k = Raise e → e = RecursionError.
Proof.
  intros Hn. unfold _int_to_states.
  intros [H | (? & _ & [=])]%bind_Raise. by eapply int_to_states_rcrs_Raise.
Qed.

(** C9. Configuration invariants: after every successful construction, from
    a rule number or from a rule list, [state_count >= 2], both radii are
    [>= 0], the stored rule table has length
    [state_count ^ (left_radius + right_radius + 1)] and each of its entries
    lies in [[0, state_count)].  The integer branch of [__init__] has no
    check of the entries: there the bounds come from the decoding. *)
Theorem configuration_invariants
  (depth : nat) (r : rule_arg) (state_count left_radius right_radius : Z) (ca : CA) :
  __init__ depth r (left_radius, right_radius) state_count = Ok ca →
  2 ≤ state_count ∧ 0 ≤ left_radius ∧ 0 ≤ right_radius
  ∧ n_states ca = state_count ∧ nhd ca = (left_radius, right_radius)
  ∧ len (rule ca) = state_count ^ (left_radius + right_radius + 1)
  ∧ Forall (λ x, 0 ≤ x < state_count) (rule ca).
Proof.
  intros H. pose proof (init_Ok_inv _ _ _ _ _ H) as (Hn & Hl & Hr & _).
  apply init_wf in H as ([] & Hnhd & Hst).
  rewrite Hnhd, Hst in *. unfold table_length, window_size in *. simpl in *.
  by split_and!.
Qed.

Lemma configuration_invariants_witness :
  2 ≤ 3 ∧ 0 ≤ 1 ∧ 0 ≤ 0
  ∧ n_states (mkCA [0;1;2;1;2;0;2;0;1] (1, 0) 3 2 9) = 3
  ∧ nhd (mkCA [0;1;2;1;2;0;2;0;1] (1, 0) 3 2 9) = (1, 0)
  ∧ len (rule (mkCA [0;1;2;1;2;0;2;0;1] (1, 0) 3 2 9)) = 3 ^ (1 + 0 + 1)
  ∧ Forall (λ x, 0 ≤ x < 3) (rule (mkCA [0;1;2;1;2;0;2;0;1] (1, 0) 3 2 9)).
Proof.
  apply (configuration_invariants 0 (RuleList [0;1;2;1;2;0;2;0;1]) 3 1 0).
  reflexivity.
Defined.

Example configuration_invariants_integer :
  __init__ 10 (RuleInt 13170) (1, 0) 3 = Ok (mkCA [0;1;2;1;0;0;0;0;2] (1, 0) 3 2 9).
Proof. reflexivity. Qed.

(** ** Loops *)

Lemma res_bind_assoc {A B C} (m : res A) (f : A → res B) (g : B → res C) :
  (m ≫= f) ≫= g = m ≫= (λ a, f a ≫= g).
Proof. by destruct m. Qed.

Lemma for_loop_ext {A S} (f g : S → A → res S) (xs : list A) (s : S) :
  (∀ s x, x ∈ xs → f s x = g s x) → for_loop f xs s = for_loop g xs s.
Proof.
  revert s. induction xs as [|x xs IH]; intros s Hfg; simpl; [done|].
  rewrite Hfg by left. destruct (g s x); simpl; [|done].
  apply IH. intros ???. apply Hfg. by right.
Qed.

(** A loop that appends one computed element per iteration. *)
Lemma for_loop_append {A B} (g : A → res B) (xs : list A) (out : list B) :
  for_loop (λ out x, y ← g x; Ok (out ++ [y])) xs out
  = ys ← mapM g xs; Ok (out ++ ys).
Proof.
  revert out. induction xs as [|x xs IH]; intros out; simpl.
  - by rewrite app_nil_r.
  - destruct (g x) as [y|e]; simpl; [|done]. rewrite IH.
    destruct (mapM g xs); simpl; [|done]. by rewrite <- app_assoc.
Qed.

Lemma mapM_Ok_fmap {A B} (g : A → res B) (f : A → B) (xs : list A) :
  (∀ x, x ∈ xs → g x = Ok (f x)) → mapM g xs = Ok (f <$> xs).
Proof.
  induction xs as [|x xs IH]; intros Hg; simpl; [done|].
  rewrite Hg by left. simpl. rewrite IH; [done|].
  intros ??. apply Hg. by right.
Qed.

(** A loop whose body only checks. *)
Lemma for_loop_check {A} (g : A → res unit) (xs : list A) :
  for_loop (λ _ x, g x) xs () = Ok () ↔ Forall (λ x, g x = Ok ()) xs.
Proof.
  induction xs as [|x xs IH]; simpl; [by split; [constructor|]|].
  rewrite Forall_cons, <- IH. destruct (g x) as [[]|e]; simpl; [tauto|].
  split; [done | by intros [? _]].
Qed.

(** ** Bounds and window indices *)

Lemma states_in_bounds_spec (self : CA) (states : list Z) :
  _states_in_bounds self states
  = if forallb (in_bounds (n_states self)) states then Ok () else Raise StateOutOfRange.
Proof.
  unfold _states_in_bounds. induction states as [|x states IH]; simpl; [done|].
  unfold in_bounds at 1.
  destruct (Z.ltb_spec x 0), (Z.leb_spec (n_states self) x),
    (Z.leb_spec 0 x), (Z.ltb_spec x (n_states self)); simpl; try lia; done.
Qed.

Lemma states_in_bounds_Ok (self : CA) (states : list Z) :
  _states_in_bounds self states = Ok () ↔ Forall (λ x, 0 ≤ x < n_states self) states.
Proof.
  rewrite states_in_bounds_spec, <- forallb_in_bounds.
  by destruct (forallb _ states).
Qed.

Lemma neighborhood_to_index_Ok (self : CA) (w : list Z) :
  Forall (λ x, 0 ≤ x < n_states self) w →
  _neighborhood_to_index self w = Ok (encode (n_states self) w).
Proof.
  intros Hw. unfold _neighborhood_to_index.
  apply states_in_bounds_Ok in Hw. by rewrite Hw.
Qed.

Lemma foldl_add_shift (a : Z) (l : list Z) :
  foldl Z.add a l = a + foldl Z.add 0 l.
Proof.
  revert a. induction l as [|y l IH]; intros a; simpl; [lia|].
  rewrite (IH (a + y)), (IH (0 + y)). lia.
Qed.

Lemma py_sum_cons (x : Z) (l : list Z) : py_sum (x :: l) = x + py_sum l.
Proof. unfold py_sum. simpl. apply foldl_add_shift. Qed.

(** The first cell carries the highest weight. *)
Lemma encode_cons (n x : Z) (w : list Z) :
  encode n (x :: w) = x * n ^ len w + encode n w.
Proof.
  unfold encode. simpl. rewrite py_sum_cons. f_equal.
  - f_equal. f_equal. unfold len. simpl. lia.
  - f_equal. apply imap_ext. intros p y _. simpl. f_equal. f_equal.
    unfold len. simpl. lia.
Qed.

Lemma encode_bounds (n : Z) (w : list Z) :
  1 ≤ n → Forall (λ x, 0 ≤ x < n) w → 0 ≤ encode n w < n ^ len w.
Proof.
  intros Hn. induction 1 as [|x w Hx Hw IH]; [by vm_compute|].
  rewrite encode_cons.
  replace (len (x :: w)) with (Z.succ (len w)) by (unfold len; simpl; lia).
  rewrite Z.pow_succ_r by apply len_nonneg.
  assert (0 < n ^ len w) by (apply Z.pow_pos_nonneg; [lia | apply len_nonneg]).
  nia.
Qed.

(** ** Subscripts and slices *)

Lemma py_getitem_Ok (l : list Z) (i : Z) :
  0 ≤ i < len l → py_getitem l i = Ok (nth (Z.to_nat i) l 0).
Proof.
  intros Hi. unfold py_getitem.
  destruct (Z.ltb_spec i 0); [lia|]. destruct (Z.ltb_spec i 0); [lia|].
  rewrite lookup_nth_len; [done | lia].
Qed.

Lemma py_getitem_last {A} (l : list A) (x : A) : py_getitem (l ++ [x]) (-1) = Ok x.
Proof.
  unfold py_getitem. simpl. rewrite len_app.
  replace (len [x]) with 1 by done.
  destruct (Z.ltb_spec (len l + 1 + -1) 0) as [H|_];
    [pose proof (len_nonneg l); lia|].
  replace (Z.to_nat (len l + 1 + -1)) with (length l + 0)%nat by (unfold len; lia).
  by rewrite lookup_app_r, Nat.add_comm, Nat.add_sub by lia.
Qed.

Lemma py_slice_window {A} (l : list A) (a w : Z) :
  0 ≤ a → 0 ≤ w → a + w ≤ len l →
  py_slice l a (a + w) = take (Z.to_nat w) (drop (Z.to_nat a) l)
  ∧ len (py_slice l a (a + w)) = w.
Proof.
  intros Ha Hw Hl. unfold py_slice, slice_bound.
  destruct (Z.ltb_spec a 0); [lia|]. destruct (Z.ltb_spec (a + w) 0); [lia|].
  rewrite !Z.min_l by lia. replace (a + w - a) with w by lia.
  split; [done|]. unfold len in *. rewrite length_take, length_drop. lia.
Qed.

(** ** One step *)

Section step.
Variable self : CA.
Hypothesis Hwf : CA_wf self.

Lemma wf_in_size_pos : 1 ≤ in_size self.
Proof. destruct Hwf. unfold window_size in *. lia. Qed.

Lemma wf_rule_len' : len (rule self) = n_states self ^ in_size self.
Proof. destruct Hwf. unfold table_length in *. congruence. Qed.

Lemma padded_bounds (seq : list Z) (pre_pad : bool) :
  Forall (λ x, 0 ≤ x < n_states self) seq →
  Forall (λ x, 0 ≤ x < n_states self) (padded self seq pre_pad).
Proof.
  intros Hseq. unfold padded. destruct pre_pad; [|done].
  assert (Forall (λ x, 0 ≤ x < n_states self) (replicate (A:=Z) 0 0)) by constructor.
  pose proof (wf_states _ Hwf).
  rewrite !Forall_app. split_and!; [|done|]; unfold zeros;
    apply Forall_replicate; lia.
Qed.

Lemma len_padded (seq : list Z) (pre_pad : bool) :
  len (padded self seq pre_pad)
  = if pre_pad then len seq + in_size self - 1 else len seq.
Proof.
  unfold padded. destruct pre_pad; [|done].
  rewrite !len_app, !len_zeros. destruct Hwf. unfold window_size in *. lia.
Qed.

Lemma next_state_bounds (seq_ : list Z) (i : Z) :
  0 ≤ next_state self seq_ i < n_states self.
Proof.
  unfold next_state. pose proof (wf_states _ Hwf).
  match goal with |- _ ≤ nth ?j _ _ < _ => generalize j end. intros j.
  destruct (nth_in_or_default j (rule self) 0) as [Hin | ->]; [|lia].
  pose proof (wf_rule_bounds _ Hwf) as Hb. rewrite Forall_forall in Hb.
  by apply Hb, list_elem_of_In.
Qed.

(** A full window of states in bounds has an index inside the rule table. *)
Lemma cell_Ok (seq_ : list Z) (i : Z) :
  Forall (λ x, 0 ≤ x < n_states self) seq_ →
  0 ≤ i → i + in_size self ≤ len seq_ →
  cell self seq_ i = Ok (next_state self seq_ i).
Proof.
  intros Hb Hi Hlen. unfold cell, next_state.
  pose proof wf_in_size_pos as Hpos. pose proof (wf_states _ Hwf) as Hn.
  destruct (py_slice_window seq_ i (in_size self)) as [-> Hwlen]; [lia..|].
  set (w := take _ _) in *.
  assert (Forall (λ x, 0 ≤ x < n_states self) w) as Hw
    by (by apply Forall_take, Forall_drop).
  rewrite (neighborhood_to_index_Ok _ _ Hw). simpl.
  pose proof (encode_bounds (n_states self) w ltac:(lia) Hw) as He.
  rewrite Hwlen in He. apply py_getitem_Ok. by rewrite wf_rule_len'.
Qed.

Lemma apply_rule_unfold (seq : list Z) (pre_pad : bool) :
  _apply_rule self seq pre_pad
  = if negb pre_pad && (len seq <? in_size self) then Raise SequenceTooShort
    else if negb (forallb (in_bounds (n_states self)) seq) then Raise StateOutOfRange
    else mapM (cell self (padded self seq pre_pad))
           (py_range (len (padded self seq pre_pad) - in_size self + 1)).
Proof.
  unfold _apply_rule. fold (padded self seq pre_pad).
  destruct (negb pre_pad && _); [done|]. destruct (negb (forallb _ _)); [done|].
  erewrite for_loop_ext; [rewrite (for_loop_append (cell self (padded self seq pre_pad)))|].
  - by destruct (mapM _ _).
  - intros out i _. unfold cell. simpl. by rewrite res_bind_assoc.
Qed.

Lemma apply_rule_Ok (seq : list Z) (pre_pad : bool) :
  Forall (λ x, 0 ≤ x < n_states self) seq →
  (pre_pad = false → in_size self ≤ len seq) →
  _apply_rule self seq pre_pad = Ok (step self seq pre_pad).
Proof.
  intros Hb Hlen. rewrite apply_rule_unfold.
  destruct (negb pre_pad && (len seq <? in_size self)) eqn:Hshort.
  { apply andb_true_iff in Hshort as [->%negb_true_iff ?%Z.ltb_lt].
    specialize (Hlen eq_refl). lia. }
  pose proof Hb as Hb'. apply forallb_in_bounds in Hb' as ->. simpl.
  apply mapM_Ok_fmap. intros i Hi. unfold py_range in Hi.
  apply elem_of_seqZ in Hi. apply cell_Ok; [by apply padded_bounds | lia..].
Qed.

Lemma len_step (seq : list Z) (pre_pad : bool) :
  (pre_pad = false → in_size self ≤ len seq) →
  len (step self seq pre_pad)
  = if pre_pad then len seq else len seq - in_size self + 1.
Proof.
  intros Hlen. unfold step, len at 1, py_range.
  rewrite length_fmap, length_seqZ, len_padded.
  pose proof (len_nonneg seq). pose proof wf_in_size_pos.
  destruct pre_pad; [lia|]. specialize (Hlen eq_refl). lia.
Qed.

Lemma step_bounds (seq : list Z) (pre_pad : bool) :
  Forall (λ x, 0 ≤ x < n_states self) (step self seq pre_pad).
Proof.
  unfold step. apply Forall_fmap, Forall_forall. intros i _. apply next_state_bounds.
Qed.

(** The three outcomes of a step. *)
Lemma apply_rule_cases (seq : list Z) (pre_pad : bool) :
  _apply_rule self seq pre_pad
  = if negb pre_pad && (len seq <? in_size self) then Raise SequenceTooShort
    else if negb (forallb (in_bounds (n_states self)) seq) then Raise StateOutOfRange
    else Ok (step self seq pre_pad).
Proof.
  destruct (negb pre_pad && (len seq <? in_size self)) eqn:Hshort.
  { by rewrite apply_rule_unfold, Hshort. }
  destruct (forallb (in_bounds (n_states self)) seq) eqn:Hb; simpl.
  - apply apply_rule_Ok; [by apply forallb_in_bounds|].
    intros ->. simpl in Hshort. by apply Z.ltb_ge in Hshort.
  - by rewrite apply_rule_unfold, Hshort, Hb.
Qed.
End step.

(** ** The window index *)

Lemma foldr_add_py_sum (l : list Z) : foldr Z.add 0 l = py_sum l.
Proof.
  induction l as [|x l IH]; [done|]. rewrite py_sum_cons. simpl. by rewrite IH.
Qed.

(** The sum of the source, over [enumerate], is the sum of the
    specification, over the positions. *)
Lemma encode_big_endian (n : Z) (w : list Z) :
  encode n w = big_endian_index n (len w) w.
Proof.
  unfold encode, big_endian_index. rewrite foldr_add_py_sum. f_equal.
  apply list_eq. intros i. rewrite list_lookup_imap, list_lookup_fmap.
  destruct (decide (i < length w)%nat) as [Hi|Hi].
  - rewrite lookup_seqZ_lt by (unfold len; lia). simpl.
    rewrite lookup_nth_len by (unfold len; lia). simpl.
    rewrite Z.add_0_l, Nat2Z.id. done.
  - rewrite lookup_ge_None_2 by lia.
    rewrite lookup_seqZ_ge by (unfold len; lia). done.
Qed.

(** Read in base [n], the index has the cells of the window as its digits,
    the first cell at the highest weight. *)
Lemma digit_encode (n : Z) (w : list Z) :
  2 ≤ n → Forall (λ x, 0 ≤ x < n) w →
  ∀ p : nat, (p < length w)%nat →
    digit n (encode n w) (length w - 1 - p) = nth p w 0.
Proof.
  intros Hn. induction 1 as [|x w Hx Hw IH]; intros p Hp; simpl in Hp; [lia|].
  rewrite encode_cons.
  pose proof (encode_bounds n w ltac:(lia) Hw) as He. unfold len in *.
  destruct p as [|p]; simpl.
  - unfold digit. rewrite !Nat.sub_0_r.
    rewrite Z.div_add_l by (apply Z.pow_nonzero; lia).
    rewrite Z.div_small by done. rewrite Z.add_0_r. apply Z.mod_small. lia.
  - rewrite !Nat.sub_0_r. rewrite <- IH by lia. unfold digit.
    set (j := (length w - 1 - p)%nat).
    replace (length w - S p)%nat with j by lia.
    replace (Z.of_nat (length w)) with (Z.succ (Z.of_nat (length w - 1 - j)) + Z.of_nat j)
      by lia.
    rewrite Z.pow_add_r, Z.pow_succ_r by lia.
    replace (x * (n * n ^ Z.of_nat (length w - 1 - j) * n ^ Z.of_nat j))
      with (x * n ^ Z.of_nat (length w - 1 - j) * n * n ^ Z.of_nat j) by lia.
    rewrite Z.div_add_l by (apply Z.pow_nonzero; lia).
    rewrite Z.add_comm, Z.mod_add by lia. done.
Qed.

(** C2. Window encoding round trip: in a configuration built from an
    explicit rule table [T], a window [w] of [window_size] states in
    [[0, state_count)] gets as index the big-endian sum over [p] of
    [w[p] * state_count ^ (window_size - p - 1)] (so the digit of weight
    [state_count ^ (window_size - 1 - p)] of the index is [w[p]]), the index
    is inside [T], and the step applied to that window returns exactly the
    entry of [T] at that index. *)
Theorem window_round_trip
  (depth : nat) (T : list Z) (nh : Z * Z) (state_count : Z) (self : CA) (w : list Z) :
  __init__ depth (RuleList T) nh state_count = Ok self →
  len w = window_size nh →
  Forall (λ x, 0 ≤ x < state_count) w →
  ∃ x,
    _neighborhood_to_index self w
    = Ok (big_endian_index state_count (window_size nh) w)
    ∧ T !! Z.to_nat (big_endian_index state_count (window_size nh) w) = Some x
    ∧ 0 ≤ big_endian_index state_count (window_size nh) w
    ∧ py_getitem (rule self) (big_endian_index state_count (window_size nh) w) = Ok x
    ∧ _apply_rule self w false = Ok [x]
    ∧ ∀ p : nat, (p < length w)%nat →
        digit state_count (big_endian_index state_count (window_size nh) w)
          (length w - 1 - p) = nth p w 0.
Proof.
  intros Hinit Hlen Hw.
  pose proof (init_wf _ _ _ _ _ Hinit) as (Hwf & Hnhd & Hst).
  apply init_Ok_inv in Hinit as (Hn & _ & _ & t & Hself & -> & HT & _).
  rewrite <- Hlen, <- encode_big_endian.
  pose proof (encode_bounds state_count w ltac:(lia) Hw) as He.
  unfold table_length in HT. rewrite Hlen, <- HT in He.
  exists (nth (Z.to_nat (encode state_count w)) T 0).
  assert (rule self = T) as HrT by (by rewrite Hself).
  split_and!.
  - rewrite <- Hst. apply neighborhood_to_index_Ok. by rewrite Hst.
  - apply lookup_nth_len. rewrite Z2Nat.id by lia. lia.
  - lia.
  - rewrite HrT. by apply py_getitem_Ok.
  - rewrite (apply_rule_Ok self Hwf); [|by rewrite Hst|].
    + unfold step, padded.
      rewrite (wf_in_size _ Hwf), Hnhd, Hlen, Z.sub_diag. simpl.
      unfold next_state. rewrite (wf_in_size _ Hwf), Hnhd, <- Hlen. simpl.
      unfold len. rewrite Nat2Z.id, firstn_all, Hst, HrT. done.
    + intros _. rewrite (wf_in_size _ Hwf), Hnhd. lia.
  - by apply digit_encode.
Qed.

Lemma window_round_trip_witness :
  ∃ x,
    _neighborhood_to_index (mkCA [0;1;1;1;1;0;0;0] (1, 1) 2 3 8) [1;1;0]
    = Ok (big_endian_index 2 (window_size (1, 1)) [1;1;0])
    ∧ [0;1;1;1;1;0;0;0] !! Z.to_nat (big_endian_index 2 (window_size (1, 1)) [1;1;0])
      = Some x
    ∧ 0 ≤ big_endian_index 2 (window_size (1, 1)) [1;1;0]
    ∧ py_getitem (rule (mkCA [0;1;1;1;1;0;0;0] (1, 1) 2 3 8))
        (big_endian_index 2 (window_size (1, 1)) [1;1;0]) = Ok x
    ∧ _apply_rule (mkCA [0;1;1;1;1;0;0;0] (1, 1) 2 3 8) [1;1;0] false = Ok [x]
    ∧ ∀ p : nat, (p < length [1;1;0])%nat →
        digit 2 (big_endian_index 2 (window_size (1, 1)) [1;1;0])
          (length [1;1;0] - 1 - p) = nth p [1;1;0] 0.
Proof.
  apply (window_round_trip 0 [0;1;1;1;1;0;0;0] (1, 1) 2
           (mkCA [0;1;1;1;1;0;0;0] (1, 1) 2 3 8) [1;1;0]).
  - reflexivity.
  - reflexivity.
  - repeat constructor; lia.
Defined.

Example window_round_trip_rule30 :
  big_endian_index 2 3 [1;1;0] = 6
  ∧ _apply_rule (mkCA [0;1;1;1;1;0;0;0] (1, 1) 2 3 8) [1;1;0] false = Ok [0].
Proof. split; reflexivity. Qed.

(** ** Failures of one step *)

(** C7. Single-step failure conditions: in every configuration, a step
    without input padding fails with [SequenceTooShort] exactly when
    [len(seq) < window_size], in particular when
    [len(seq) = window_size - 1], and a step with input padding never does;
    the length check comes first, so a too short sequence fails with
    [SequenceTooShort] also when it holds a value out of range; on a
    sequence that passes the length check the step fails with
    [StateOutOfRange] exactly when some value of [seq] lies outside
    [[0, state_count)]. *)
Theorem single_step_failures
  (depth : nat) (r : rule_arg) (nh : Z * Z) (state_count : Z) (self : CA)
  (seq : list Z) (pad_input : bool) :
  __init__ depth r nh state_count = Ok self →
  (_apply_rule self seq false = Raise SequenceTooShort ↔ len seq < window_size nh)
  ∧ (len seq = window_size nh - 1 →
     _apply_rule self seq false = Raise SequenceTooShort)
  ∧ _apply_rule self seq true ≠ Raise SequenceTooShort
  ∧ (len seq < window_size nh →
     Exists (λ x, ¬ (0 ≤ x < state_count)) seq →
     _apply_rule self seq false = Raise SequenceTooShort)
  ∧ (pad_input = true ∨ window_size nh ≤ len seq →
     (_apply_rule self seq pad_input = Raise StateOutOfRange
      ↔ Exists (λ x, ¬ (0 ≤ x < state_count)) seq))
  ∧ (_apply_rule self seq pad_input = Raise StateOutOfRange
     ↔ Exists (λ x, ¬ (0 ≤ x < state_count)) seq
       ∧ ¬ (pad_input = false ∧ len seq < window_size nh)).
Proof.
  intros (Hwf & Hnhd & Hst)%init_wf.
  pose proof (wf_in_size _ Hwf) as Hsz. rewrite Hnhd in Hsz.
  assert (forallb (in_bounds (n_states self)) seq = false
          ↔ Exists (λ x, ¬ (0 ≤ x < state_count)) seq) as Hoor.
  { rewrite <- Hst. split.
    - intros Hb. apply not_Forall_Exists; [intros x; apply _|].
      intros HF%forallb_in_bounds. congruence.
    - intros HE. destruct (forallb _ seq) eqn:Hb; [|done].
      apply forallb_in_bounds in Hb. by apply Exists_not_Forall in HE. }
  rewrite !(apply_rule_cases self Hwf), Hsz. simpl.
  destruct (Z.ltb_spec (len seq) (window_size nh)) as [Hlt|Hge];
    destruct (forallb (in_bounds (n_states self)) seq) eqn:Hb; simpl;
    destruct pad_input; simpl; rewrite ?Hb; simpl;
    intuition (lia || congruence).
Qed.

Lemma single_step_failures_witness :
  (_apply_rule ca90 [5; 0] false = Raise SequenceTooShort
   ↔ len [5; 0] < window_size (1, 1))
  ∧ (len [5; 0] = window_size (1, 1) - 1 →
     _apply_rule ca90 [5; 0] false = Raise SequenceTooShort)
  ∧ _apply_rule ca90 [5; 0] true ≠ Raise SequenceTooShort
  ∧ (len [5; 0] < window_size (1, 1) →
     Exists (λ x, ¬ (0 ≤ x < 2)) [5; 0] →
     _apply_rule ca90 [5; 0] false = Raise SequenceTooShort)
  ∧ (true = true ∨ window_size (1, 1) ≤ len [5; 0] →
     (_apply_rule ca90 [5; 0] true = Raise StateOutOfRange
      ↔ Exists (λ x, ¬ (0 ≤ x < 2)) [5; 0]))
  ∧ (_apply_rule ca90 [5; 0] true = Raise StateOutOfRange
     ↔ Exists (λ x, ¬ (0 ≤ x < 2)) [5; 0]
       ∧ ¬ (true = false ∧ len [5; 0] < window_size (1, 1))).
Proof.
  apply (single_step_failures 9 (RuleInt 90) (1, 1) 2 ca90 [5; 0] true).
  reflexivity.
Defined.

Example single_step_failures_order :
  _apply_rule ca90 [5; 0] false = Raise SequenceTooShort
  ∧ _apply_rule ca90 [5; 0] true = Raise StateOutOfRange
  ∧ _apply_rule ca90 [5; 0; 1] false = Raise StateOutOfRange.
Proof. split_and!; reflexivity. Qed.

(** ** Padding the history *)

Lemma foldl_max_spec (l : list Z) (a : Z) :
  foldl Z.max a l ∈ a :: l ∧ ∀ x, x ∈ a :: l → x ≤ foldl Z.max a l.
Proof.
  revert a. induction l as [|y l IH]; intros a; simpl.
  - split; [left | intros x ->%list_elem_of_singleton; lia].
  - destruct (IH (a `max` y)) as [Hin Hle]. split.
    + apply elem_of_cons in Hin as [Heq | Hin]; [|by do 2 right].
      rewrite Heq. destruct (Z.max_spec a y) as [[_ ->] | [_ ->]];
        [right; left | left].
    + intros x Hx. pose proof (Hle (a `max` y) ltac:(left)).
      apply elem_of_cons in Hx as [-> | Hx]; [lia|].
      apply elem_of_cons in Hx as [-> | Hx]; [lia|]. apply Hle. by right.
Qed.

Lemma foldl_min_spec (l : list Z) (a : Z) :
  foldl Z.min a l ∈ a :: l ∧ ∀ x, x ∈ a :: l → foldl Z.min a l ≤ x.
Proof.
  revert a. induction l as [|y l IH]; intros a; simpl.
  - split; [left | intros x ->%list_elem_of_singleton; lia].
  - destruct (IH (a `min` y)) as [Hin Hle]. split.
    + apply elem_of_cons in Hin as [Heq | Hin]; [|by do 2 right].
      rewrite Heq. destruct (Z.min_spec a y) as [[_ ->] | [_ ->]];
        [left | right; left].
    + intros x Hx. pose proof (Hle (a `min` y) ltac:(left)).
      apply elem_of_cons in Hx as [-> | Hx]; [lia|].
      apply elem_of_cons in Hx as [-> | Hx]; [lia|]. apply Hle. by right.
Qed.

Lemma py_max_spec (l : list Z) (m : Z) :
  py_max l = Ok m ↔ m ∈ l ∧ ∀ x, x ∈ l → x ≤ m.
Proof.
  destruct l as [|a l]; simpl.
  - split; [done | intros [[]%elem_of_nil _]].
  - pose proof (foldl_max_spec l a) as [Hin Hle]. split.
    + by intros [= <-].
    + intros [Hm Hmax]. f_equal. apply Z.le_antisymm; auto.
Qed.

Lemma py_min_spec (l : list Z) (m : Z) :
  py_min l = Ok m ↔ m ∈ l ∧ ∀ x, x ∈ l → m ≤ x.
Proof.
  destruct l as [|a l]; simpl.
  - split; [done | intros [[]%elem_of_nil _]].
  - pose proof (foldl_min_spec l a) as [Hin Hle]. split.
    + by intros [= <-].
    + intros [Hm Hmin]. f_equal. apply Z.le_antisymm; auto.
Qed.

Lemma py_getitem_middle {A} (l1 l2 : list A) (x : A) :
  py_getitem (l1 ++ x :: l2) (len l1) = Ok x.
Proof.
  unfold py_getitem. pose proof (len_nonneg l1).
  destruct (Z.ltb_spec (len l1) 0); [lia|]. destruct (Z.ltb_spec (len l1) 0); [lia|].
  unfold len. by rewrite Nat2Z.id, list_lookup_middle.
Qed.

Lemma py_setitem_middle {A} (l1 l2 : list A) (x y : A) :
  py_setitem (l1 ++ x :: l2) (len l1) y = Ok (l1 ++ y :: l2).
Proof.
  unfold py_setitem. pose proof (len_nonneg l1).
  destruct (Z.ltb_spec (len l1) 0); [lia|]. destruct (Z.ltb_spec (len l1) 0); [lia|].
  rewrite len_app. replace (len (x :: l2)) with (1 + len l2) by (unfold len; simpl; lia).
  pose proof (len_nonneg l2).
  destruct (Z.leb_spec (len l1 + (1 + len l2)) (len l1)); [lia|]. simpl.
  unfold len. rewrite Nat2Z.id.
  replace (length l1) with (length l1 + 0)%nat at 1 by lia.
  by rewrite insert_app_r.
Qed.

(** The assignment loop of [_pad_output], after the rows [seen] have been
    visited and with the rows [todo] still to come. *)
Lemma pad_loop (self : CA) (max_len : Z) (todo : list (list Z)) :
  in_size self - 1 ≠ 0 →
  ∀ (k : nat) (seen : list (list Z)), length seen = k →
  for_loop (λ seqs '(ix, seq_len),
      let fill := max_len - seq_len in
      if 0 <? fill then
        '(nhd_reps, extra) ← divmod fill (in_size self - 1);
        '(extra_both, extra_l) ← divmod extra 2;
        let l_pad := zeros (nhd_reps * (nhd self).1 + extra_both + extra_l) in
        let r_pad := zeros (nhd_reps * (nhd self).2 + extra_both) in
        cur ← py_getitem seqs ix;
        py_setitem seqs ix (l_pad ++ cur ++ r_pad)
      else Ok seqs)
    (imap (λ p x, (Z.of_nat (k + p), x)) (len <$> todo)) (seen ++ todo)
  = Ok (seen ++ (pad_row self max_len <$> todo)).
Proof.
  intros Hsz. match goal with |- context [for_loop ?f] => set (body := f) end.
  induction todo as [|row todo IH]; intros k seen Hk; [done|].
  rewrite !fmap_cons, imap_cons. cbn [for_loop].
  assert (imap ((λ p x, (Z.of_nat (k + p), x)) ∘ S) (len <$> todo)
          = imap (λ p x, (Z.of_nat (S k + p), x)) (len <$> todo)) as ->.
  { apply imap_ext. intros p x _. simpl. f_equal. lia. }
  assert (body (seen ++ row :: todo) (Z.of_nat (k + 0), len row)
          = Ok (seen ++ pad_row self max_len row :: todo)) as ->.
  { unfold body, pad_row. rewrite Nat.add_0_r, <- Hk. fold (len seen).
    cbn beta iota zeta.
    destruct (0 <? max_len - len row); [|done].
    unfold divmod. destruct (Z.eqb_spec (in_size self - 1) 0); [done|].
    cbn -[Z.div Z.modulo py_getitem py_setitem zeros].
    rewrite py_getitem_middle.
    cbn -[Z.div Z.modulo py_getitem py_setitem zeros].
    by rewrite py_setitem_middle. }
  cbn [mbind res_bind].
  rewrite (cons_middle _ seen todo), (cons_middle _ seen (_ <$> todo)), !app_assoc.
  apply IH. rewrite length_app. simpl. lia.
Qed.

Lemma pad_output_checks (self : CA) (seqs : list (list Z)) :
  Forall (Forall (λ x, 0 ≤ x < n_states self)) seqs →
  for_loop (λ _ seq, _states_in_bounds self seq) seqs () = Ok ().
Proof.
  intros H. apply for_loop_check. eapply Forall_impl; [done|].
  intros seq Hseq. by apply states_in_bounds_Ok.
Qed.

Lemma pad_output_Ok (self : CA) (seqs : list (list Z)) (max_len min_len : Z) :
  Forall (Forall (λ x, 0 ≤ x < n_states self)) seqs →
  1 < in_size self →
  py_max (len <$> seqs) = Ok max_len →
  py_min (len <$> seqs) = Ok min_len →
  _pad_output self seqs
  = Ok (if min_len <? max_len then pad_row self max_len <$> seqs else seqs).
Proof.
  intros Hb Hsz Hmax Hmin. unfold _pad_output.
  rewrite pad_output_checks by done. simpl.
  destruct (Z.ltb_spec 1 (in_size self)); [|lia].
  rewrite Hmax, Hmin. simpl. destruct (min_len <? max_len); [|done].
  apply (pad_loop self max_len seqs ltac:(lia) 0%nat []). done.
Qed.

Lemma pad_output_narrow (self : CA) (seqs : list (list Z)) :
  Forall (Forall (λ x, 0 ≤ x < n_states self)) seqs →
  in_size self ≤ 1 →
  _pad_output self seqs = Ok seqs.
Proof.
  intros Hb Hsz. unfold _pad_output.
  rewrite pad_output_checks by done. simpl.
  by destruct (Z.ltb_spec 1 (in_size self)); [lia|].
Qed.

(** The pads of a shorter row add up to the missing length. *)
Lemma len_pad_row (self : CA) (max_len : Z) (row : list Z) :
  CA_wf self → 1 < in_size self → len row ≤ max_len →
  len (pad_row self max_len row) = max_len.
Proof.
  intros Hwf Hsz Hle. unfold pad_row.
  destruct (Z.ltb_spec 0 (max_len - len row)) as [Hfill|Hfill]; [|lia].
  set (fill := max_len - len row) in *.
  pose proof (wf_in_size _ Hwf) as Hin. unfold window_size in Hin.
  pose proof (wf_left _ Hwf). pose proof (wf_right _ Hwf).
  pose proof (Z.div_mod fill (in_size self - 1) ltac:(lia)) as Hdm.
  pose proof (Z.mod_pos_bound fill (in_size self - 1) ltac:(lia)) as Hex.
  pose proof (Z.div_pos fill (in_size self - 1) ltac:(lia) ltac:(lia)) as Hreps.
  set (reps := fill `div` (in_size self - 1)) in *.
  set (extra := fill `mod` (in_size self - 1)) in *.
  pose proof (Z.div_mod extra 2 ltac:(lia)) as Hdm2.
  pose proof (Z.mod_pos_bound extra 2 ltac:(lia)) as Hel.
  pose proof (Z.div_pos extra 2 ltac:(lia) ltac:(lia)) as Heb.
  rewrite !len_app, !len_zeros. nia.
Qed.

(** C3. Uniform padding: in a configuration with [window_size > 1], for a
    history of sequences of states in bounds whose longest row has length
    [max_len] and whose shortest has length [min_len], [_pad_output]
    returns the history unchanged when [max_len = min_len]; otherwise it
    returns a history of as many rows, in which a row with
    [fill = max_len - len(row) > 0] has become
    [reps * left_radius + extra_both + extra_left] zeros, the row, and
    [reps * right_radius + extra_both] zeros, for
    [(reps, extra) = divmod(fill, window_size - 1)] and
    [(extra_both, extra_left) = divmod(extra, 2)], a row with [fill = 0] is
    as before, and every row has length [max_len].  The odd unit
    [extra_left], 0 or 1, goes to the left. *)
Theorem uniform_padding
  (depth : nat) (r : rule_arg) (nh : Z * Z) (state_count : Z) (self : CA)
  (seqs : list (list Z)) (max_len min_len : Z) :
  __init__ depth r nh state_count = Ok self →
  1 < window_size nh →
  Forall (Forall (λ x, 0 ≤ x < state_count)) seqs →
  Exists (λ row, len row = max_len) seqs →
  Forall (λ row, len row ≤ max_len) seqs →
  Exists (λ row, len row = min_len) seqs →
  Forall (λ row, min_len ≤ len row) seqs →
  (max_len = min_len → _pad_output self seqs = Ok seqs)
  ∧ (max_len ≠ min_len →
     ∃ out,
       _pad_output self seqs = Ok out
       ∧ length out = length seqs
       ∧ Forall (λ row, len row = max_len) out
       ∧ ∀ (i : nat) (row : list Z), seqs !! i = Some row →
           (max_len - len row = 0 → out !! i = Some row)
           ∧ (0 < max_len - len row →
              ∃ reps extra extra_both extra_left,
                divmod (max_len - len row) (window_size nh - 1) = Ok (reps, extra)
                ∧ divmod extra 2 = Ok (extra_both, extra_left)
                ∧ 0 ≤ extra_left ≤ 1
                ∧ len (zeros (reps * nh.1 + extra_both + extra_left))
                  = reps * nh.1 + extra_both + extra_left
                ∧ len (zeros (reps * nh.2 + extra_both))
                  = reps * nh.2 + extra_both
                ∧ out !! i
                  = Some (zeros (reps * nh.1 + extra_both + extra_left)
                            ++ row ++ zeros (reps * nh.2 + extra_both)))).
Proof.
  intros (Hwf & Hnhd & Hst)%init_wf Hws Hb Hmax_in Hmax Hmin_in Hmin.
  pose proof (wf_in_size _ Hwf) as Hsz. rewrite Hnhd in Hsz.
  rewrite <- Hst in Hb.
  assert (py_max (len <$> seqs) = Ok max_len) as Hpmax.
  { apply py_max_spec. split.
    - apply Exists_exists in Hmax_in as (row & Hin & <-). by apply list_elem_of_fmap_2.
    - intros x (row & -> & Hin)%list_elem_of_fmap. rewrite Forall_forall in Hmax. auto. }
  assert (py_min (len <$> seqs) = Ok min_len) as Hpmin.
  { apply py_min_spec. split.
    - apply Exists_exists in Hmin_in as (row & Hin & <-). by apply list_elem_of_fmap_2.
    - intros x (row & -> & Hin)%list_elem_of_fmap. rewrite Forall_forall in Hmin. auto. }
  rewrite (pad_output_Ok self seqs max_len min_len) by (done || lia).
  assert (min_len ≤ max_len) as Hle.
  { apply Exists_exists in Hmin_in as (row & Hin & <-).
    rewrite Forall_forall in Hmax. auto. }
  split.
  { intros ->. by rewrite Z.ltb_irrefl. }
  intros Hne. destruct (Z.ltb_spec min_len max_len); [|lia].
  eexists. split; [done|]. split; [by rewrite length_fmap|]. split.
  { apply Forall_fmap. eapply Forall_impl; [exact Hmax|]. intros row Hrow. simpl.
    apply len_pad_row; [done | lia | done]. }
  intros i row Hrow. rewrite list_lookup_fmap, Hrow. simpl.
  assert (len row ≤ max_len) as Hrl.
  { rewrite Forall_forall in Hmax. apply Hmax. by eapply list_elem_of_lookup_2. }
  unfold pad_row. rewrite Hsz, Hnhd.
  destruct (Z.ltb_spec 0 (max_len - len row)) as [Hfill|Hfill].
  - split; [lia|]. intros _. set (fill := max_len - len row) in *.
    exists (fill `div` (window_size nh - 1)), (fill `mod` (window_size nh - 1)),
      ((fill `mod` (window_size nh - 1)) `div` 2),
      ((fill `mod` (window_size nh - 1)) `mod` 2).
    unfold divmod. destruct (Z.eqb_spec (window_size nh - 1) 0); [lia|]. simpl.
    pose proof (wf_left _ Hwf). pose proof (wf_right _ Hwf). rewrite Hnhd in *.
    pose proof (Z.mod_pos_bound fill (window_size nh - 1) ltac:(lia)) as Hex.
    pose proof (Z.div_pos fill (window_size nh - 1) ltac:(lia) ltac:(lia)) as Hreps.
    set (reps := fill `div` (window_size nh - 1)) in *.
    set (extra := fill `mod` (window_size nh - 1)) in *.
    pose proof (Z.mod_pos_bound extra 2 ltac:(lia)) as Hel.
    pose proof (Z.div_pos extra 2 ltac:(lia) ltac:(lia)) as Heb.
    rewrite !len_zeros. split_and!; try done; try lia; nia.
  - split; [done | lia].
Qed.

Lemma uniform_padding_witness :
  (5 = 1 → _pad_output ca90 [[0;1;0;0;0]; [0;1;0]; [0]]
           = Ok [[0;1;0;0;0]; [0;1;0]; [0]])
  ∧ (5 ≠ 1 →
     ∃ out,
       _pad_output ca90 [[0;1;0;0;0]; [0;1;0]; [0]] = Ok out
       ∧ length out = length [[0;1;0;0;0]; [0;1;0]; [0]]
       ∧ Forall (λ row, len row = 5) out
       ∧ ∀ (i : nat) (row : list Z), [[0;1;0;0;0]; [0;1;0]; [0]] !! i = Some row →
           (5 - len row = 0 → out !! i = Some row)
           ∧ (0 < 5 - len row →
              ∃ reps extra extra_both extra_left,
                divmod (5 - len row) (window_size (1, 1) - 1) = Ok (reps, extra)
                ∧ divmod extra 2 = Ok (extra_both, extra_left)
                ∧ 0 ≤ extra_left ≤ 1
                ∧ len (zeros (reps * (1, 1).1 + extra_both + extra_left))
                  = reps * (1, 1).1 + extra_both + extra_left
                ∧ len (zeros (reps * (1, 1).2 + extra_both))
                  = reps * (1, 1).2 + extra_both
                ∧ out !! i
                  = Some (zeros (reps * (1, 1).1 + extra_both + extra_left)
                            ++ row ++ zeros (reps * (1, 1).2 + extra_both)))).
Proof.
  apply (uniform_padding 9 (RuleInt 90) (1, 1) 2 ca90
           [[0;1;0;0;0]; [0;1;0]; [0]] 5 1).
  - reflexivity.
  - reflexivity.
  - repeat constructor; lia.
  - by left.
  - repeat constructor; vm_compute; discriminate.
  - by do 2 right; left.
  - repeat constructor; vm_compute; discriminate.
Defined.

Example uniform_padding_left_bias :
  _pad_output ca90 [[1;1;1;1]; [1]] = Ok [[1;1;1;1]; [0;0;1;0]].
Proof. reflexivity. Qed.

(** ** Evolution *)

Lemma chain_cons (self : CA) (pre_pad : bool) (a b : list Z) (rows : list (list Z)) :
  _apply_rule self a pre_pad = Ok b → chain self pre_pad (b :: rows) →
  chain self pre_pad (a :: b :: rows).
Proof.
  intros Hab Hch [|i] x y; simpl.
  - by intros [= <-] [= <-].
  - apply (Hch i).
Qed.

Section evolution.
Variable self : CA.
Hypothesis Hwf : CA_wf self.

Lemma apply_rule_Ok_inv (cur nxt : list Z) (pre_pad : bool) :
  _apply_rule self cur pre_pad = Ok nxt →
  Forall (λ x, 0 ≤ x < n_states self) cur
  ∧ Forall (λ x, 0 ≤ x < n_states self) nxt
  ∧ (pre_pad = false → in_size self ≤ len cur)
  ∧ len nxt = if pre_pad then len cur else len cur - in_size self + 1.
Proof.
  rewrite (apply_rule_cases self Hwf).
  destruct (negb pre_pad && (len cur <? in_size self)) eqn:Hshort; [done|].
  destruct (forallb (in_bounds (n_states self)) cur) eqn:Hb; [|done]. simpl.
  intros [= <-].
  assert (pre_pad = false → in_size self ≤ len cur) as Hlen.
  { intros ->. simpl in Hshort. by apply Z.ltb_ge in Hshort. }
  split_and!; [by apply forallb_in_bounds | by apply step_bounds | done |].
  by apply len_step.
Qed.

(** A step that returns the empty sequence was given the empty sequence,
    with input padding. *)
Lemma apply_rule_empty (cur nxt : list Z) (pre_pad : bool) :
  _apply_rule self cur pre_pad = Ok nxt →
  (len nxt ≤ 0 ↔ cur = [] ∧ pre_pad = true) ∧ len nxt ≤ len cur.
Proof.
  intros (_ & _ & Hlen & Hnxt)%apply_rule_Ok_inv.
  pose proof (wf_in_size_pos self Hwf). pose proof (len_nonneg cur).
  destruct pre_pad.
  - rewrite Hnxt. split; [|lia]. split.
    + intros ?. split; [|done]. destruct cur; [done|]. unfold len in *. simpl in *. lia.
    + by intros [-> _].
  - specialize (Hlen eq_refl). split; [|lia]. split; [lia | by intros [_ ?]].
Qed.

(** The loop of [__call__] in a well-formed configuration: it stops early
    only on the empty sequence. *)
Lemma call_loop_inv (pre_pad : bool) (iters : nat) :
  ∀ (out0 : list (list Z)) (cur : list Z) (out' : list (list Z)),
    call_loop self pre_pad iters (out0 ++ [cur]) = Ok out' →
    ∃ ext,
      out' = out0 ++ cur :: ext
      ∧ chain self pre_pad (cur :: ext)
      ∧ length ext = (if decide (cur = []) then 0 else iters)%nat
      ∧ Forall (Forall (λ x, 0 ≤ x < n_states self)) ext
      ∧ Forall (λ row, len row ≤ len cur) ext
      ∧ (pre_pad = true → Forall (λ row, len row = len cur) ext).
Proof.
  induction iters as [|iters IH]; intros out0 cur out'; simpl.
  { intros [= <-]. exists []. split_and!; try done.
    by destruct (decide (cur = [])). }
  rewrite py_getitem_last. simpl.
  destruct (_apply_rule self cur pre_pad) as [nxt|e] eqn:Hstep; [|done]. simpl.
  pose proof (apply_rule_empty _ _ _ Hstep) as [Hempty Hle].
  pose proof (apply_rule_Ok_inv _ _ _ Hstep) as (_ & Hnb & _ & Hlen).
  destruct (Z.ltb_spec 0 (len nxt)) as [Hpos|Hzero].
  - intros (ext & -> & Hch & Hn & Hb & Hlens & Hpre)%IH.
    exists (nxt :: ext). rewrite <- app_assoc. split_and!; try done.
    + by apply chain_cons.
    + simpl. rewrite Hn. destruct (decide (nxt = [])) as [->|_]; [done|].
      destruct (decide (cur = [])) as [->|_]; [|done].
      assert (len nxt ≤ 0) by (apply Hempty; split; [done|];
        destruct pre_pad; [done|]; unfold len in *; simpl in *; lia). lia.
    + by constructor.
    + constructor; [done|]. eapply Forall_impl; [done|]. simpl. lia.
    + intros ->. constructor; [done|]. eapply Forall_impl; [by apply Hpre|].
      simpl. intros ??. congruence.
  - intros [= <-]. exists []. split_and!; try done.
    apply Hempty in Hzero as [-> _]. by destruct (decide _).
Qed.

(** Without input padding the loop never takes the [break]. *)
Lemma call_loop_too_short (iters : nat) :
  ∀ (i : nat) (out0 : list (list Z)) (seq cur : list Z),
    (i < iters)%nat →
    iter_apply self false i seq = Ok cur → len cur < in_size self →
    call_loop self false iters (out0 ++ [seq]) = Raise SequenceTooShort.
Proof.
  induction iters as [|iters IH]; intros i out0 seq cur Hi; [lia|].
  simpl. rewrite py_getitem_last. simpl. destruct i as [|i]; simpl.
  - intros [= <-] Hshort. rewrite (apply_rule_cases self Hwf). simpl.
    by destruct (Z.ltb_spec (len seq) (in_size self)); [|lia].
  - intros (nxt & Hstep & Hiter)%bind_Ok Hshort. rewrite Hstep. simpl.
    pose proof (apply_rule_empty _ _ _ Hstep) as [Hempty _].
    destruct (Z.ltb_spec 0 (len nxt)) as [_|Hzero].
    + apply (IH i _ nxt cur); [lia | done | done].
    + by apply Hempty in Hzero as [_ ?].
Qed.
End evolution.

Section call.
Variable self : CA.
Hypothesis Hwf : CA_wf self.

Lemma pad_row_full (max_len : Z) (row : list Z) :
  max_len ≤ len row → pad_row self max_len row = row.
Proof. intros H. unfold pad_row. by destruct (Z.ltb_spec 0 (max_len - len row)); [lia|]. Qed.

Lemma pad_row_shape (max_len : Z) (row : list Z) :
  ∃ a b, pad_row self max_len row = zeros a ++ row ++ zeros b.
Proof.
  unfold pad_row. destruct (0 <? max_len - len row); [eauto|].
  exists 0, 0. simpl. by rewrite app_nil_r.
Qed.

(** The history of a call that returns, before and after [_pad_output]. *)
Lemma call_Ok_inv (seq : list Z) (steps : Z) (pre_pad post_pad : bool)
  (hist : list (list Z)) :
  __call__ self seq steps pre_pad post_pad = Ok hist →
  1 ≤ steps
  ∧ ∃ ext,
      chain self pre_pad (seq :: ext)
      ∧ length ext = (if decide (seq = []) then 0 else Z.to_nat steps)%nat
      ∧ Forall (λ row, len row ≤ len seq) ext
      ∧ (pre_pad = true → Forall (λ row, len row = len seq) ext)
      ∧ (hist = seq :: ext
         ∨ post_pad = true ∧ pre_pad = false ∧ 1 < in_size self
           ∧ hist = pad_row self (len seq) <$> seq :: ext).
Proof.
  unfold __call__. destruct (Z.ltb_spec steps 1) as [|Hsteps]; [done|].
  intros (raw & Hloop & Hpad)%bind_Ok. split; [done|].
  apply (call_loop_inv self Hwf pre_pad _ []) in Hloop
    as (ext & -> & Hch & Hlen & Hb & Hle & Hpre).
  simpl in *. exists ext. split_and!; try done.
  destruct post_pad; simpl in Hpad; [|left; congruence].
  assert (Forall (Forall (λ x, 0 ≤ x < n_states self)) (seq :: ext)) as Hball.
  { constructor; [|done]. destruct ext as [|nxt ext].
    - destruct (decide (seq = [])) as [->|]; [constructor | simpl in Hlen; lia].
    - specialize (Hch 0%nat seq nxt eq_refl eq_refl).
      by apply (apply_rule_Ok_inv self Hwf) in Hch as [? _]. }
  destruct (Z.ltb_spec 1 (in_size self)) as [Hsz|Hsz];
    [|rewrite pad_output_narrow in Hpad by done; left; congruence].
  assert (py_max (len <$> seq :: ext) = Ok (len seq)) as Hmax.
  { apply py_max_spec. split; [left|].
    intros x [-> | (row & -> & Hin)%list_elem_of_fmap]%elem_of_cons; [lia|].
    rewrite Forall_forall in Hle. auto. }
  destruct (py_min (len <$> seq :: ext)) as [min_len|] eqn:Hmin; [|done].
  rewrite (pad_output_Ok self _ _ _ Hball Hsz Hmax Hmin) in Hpad.
  destruct (min_len <? len seq) eqn:Hlt; [|left; congruence].
  apply Z.ltb_lt in Hlt. injection Hpad as <-.
  right. split_and!; try done.
  destruct pre_pad; [|done]. specialize (Hpre eq_refl).
  apply py_min_spec in Hmin as [[Heq | (row & -> & Hin)%list_elem_of_fmap]%elem_of_cons _];
    [lia|].
  rewrite Forall_forall in Hpre. specialize (Hpre row Hin). lia.
Qed.

(** Steps without input padding on a sequence in bounds: the lengths go
    down by [in_size - 1] until one is below [in_size]. *)
Lemma iter_apply_lengths (i : nat) :
  ∀ seq, Forall (λ x, 0 ≤ x < n_states self) seq →
    (∃ (j : nat) cur, (j ≤ i)%nat ∧ iter_apply self false j seq = Ok cur
                      ∧ len cur < in_size self)
    ∨ (∃ cur, iter_apply self false i seq = Ok cur
              ∧ len cur = len seq - Z.of_nat i * (in_size self - 1)
              ∧ in_size self ≤ len cur).
Proof.
  induction i as [|i IH]; intros seq Hb.
  - destruct (Z.ltb_spec (len seq) (in_size self)).
    + left. exists 0%nat, seq. by split_and!.
    + right. exists seq. split_and!; [done | lia | done].
  - destruct (Z.ltb_spec (len seq) (in_size self)) as [Hshort|Hlong].
    { left. exists 0%nat, seq. split_and!; [lia | done | done]. }
    pose proof (apply_rule_Ok self Hwf seq false Hb (λ _, Hlong)) as Hstep.
    pose proof (len_step self Hwf seq false (λ _, Hlong)) as Hlen. simpl in Hlen.
    destruct (IH (step self seq false) (step_bounds self Hwf seq false))
      as [(j & cur & Hj & Hit & Hcur) | (cur & Hit & Hcur & Hge)].
    + left. exists (S j), cur. split_and!; [lia | | done]. simpl. by rewrite Hstep.
    + right. exists cur. simpl. rewrite Hstep. split_and!; [done | lia | done].
Qed.
End call.

(** C4. Hard failure: in every configuration and for every call without
    input padding and with [steps >= 1], if some step among the [steps]
    requested is to be applied to a sequence shorter than [window_size]
    (reached from the input by the steps before it), the call fails with
    [SequenceTooShort]; for an input of states in bounds that is the case
    as soon as [len(seq) - i * (window_size - 1) < window_size] for some
    [i < steps].  A call without input padding that returns has a history
    of all [steps + 1] rows: it never stops early. *)
Theorem hard_failure_termination
  (depth : nat) (r : rule_arg) (nh : Z * Z) (state_count : Z) (self : CA)
  (seq : list Z) (steps : Z) (pad_output : bool) :
  __init__ depth r nh state_count = Ok self →
  1 ≤ steps →
  (∀ (i : nat) (cur : list Z),
     Z.of_nat i < steps →
     iter_apply self false i seq = Ok cur → len cur < window_size nh →
     __call__ self seq steps false pad_output = Raise SequenceTooShort)
  ∧ (∀ i : nat,
       Z.of_nat i < steps →
       Forall (λ x, 0 ≤ x < state_count) seq →
       len seq - Z.of_nat i * (window_size nh - 1) < window_size nh →
       __call__ self seq steps false pad_output = Raise SequenceTooShort)
  ∧ (∀ hist,
       __call__ self seq steps false pad_output = Ok hist → len hist = steps + 1).
Proof.
  intros (Hwf & Hnhd & Hst)%init_wf Hsteps.
  pose proof (wf_in_size _ Hwf) as Hsz. rewrite Hnhd in Hsz. rewrite <- Hsz, <- Hst.
  assert (∀ (i : nat) (cur : list Z),
     Z.of_nat i < steps →
     iter_apply self false i seq = Ok cur → len cur < in_size self →
     __call__ self seq steps false pad_output = Raise SequenceTooShort) as Hfirst.
  { intros i cur Hi Hit Hshort. unfold __call__.
    destruct (Z.ltb_spec steps 1); [lia|].
    pose proof (call_loop_too_short self Hwf (Z.to_nat steps) i [] seq cur
                  ltac:(lia) Hit Hshort) as Hloop.
    simpl in Hloop. by rewrite Hloop. }
  split_and!; [done | |].
  - intros i Hi Hb Hlen.
    destruct (iter_apply_lengths self Hwf i seq Hb)
      as [(j & cur & Hj & Hit & Hcur) | (cur & Hit & Hcur & Hge)].
    + apply (Hfirst j cur); [lia | done | done].
    + lia.
  - intros hist Hcall.
    pose proof (call_Ok_inv self Hwf _ _ _ _ _ Hcall)
      as (_ & ext & _ & Hlen & _ & _ & Hhist).
    destruct (decide (seq = [])) as [->|_].
    + rewrite (Hfirst 0%nat []) in Hcall; [done | lia | done |].
      pose proof (wf_in_size_pos self Hwf). unfold len. simpl. lia.
    + destruct Hhist as [-> | (_ & _ & _ & ->)]; unfold len; simpl;
        rewrite ?length_fmap; simpl; lia.
Qed.

Lemma hard_failure_termination_witness :
  (∀ (i : nat) (cur : list Z),
     Z.of_nat i < 3 →
     iter_apply ca90 false i [0;1;0;0;0] = Ok cur → len cur < window_size (1, 1) →
     __call__ ca90 [0;1;0;0;0] 3 false true = Raise SequenceTooShort)
  ∧ (∀ i : nat,
       Z.of_nat i < 3 →
       Forall (λ x, 0 ≤ x < 2) [0;1;0;0;0] →
       len [0;1;0;0;0] - Z.of_nat i * (window_size (1, 1) - 1) < window_size (1, 1) →
       __call__ ca90 [0;1;0;0;0] 3 false true = Raise SequenceTooShort)
  ∧ (∀ hist,
       __call__ ca90 [0;1;0;0;0] 3 false true = Ok hist → len hist = 3 + 1).
Proof.
  apply (hard_failure_termination 9 (RuleInt 90) (1, 1) 2 ca90 [0;1;0;0;0] 3 true).
  - reflexivity.
  - lia.
Defined.

Example hard_failure_third_step :
  iter_apply ca90 false 2 [0;1;0;0;0] = Ok [0]
  ∧ __call__ ca90 [0;1;0;0;0] 2 false false = Ok [[0;1;0;0;0]; [0;1;0]; [0]]
  ∧ __call__ ca90 [0;1;0;0;0] 3 false false = Raise SequenceTooShort.
Proof. split_and!; reflexivity. Qed.

(** C5. Step output length: in every configuration and for every sequence
    [seq] of states in bounds, a step with input padding returns a sequence
    of length [len(seq)], so that every row of the history of a call with
    input padding has the length of the input; a step without input padding
    on [seq] with [len(seq) >= window_size] returns a sequence of length
    [len(seq) - window_size + 1], which is less than [len(seq)] when
    [window_size > 1]. *)
Theorem step_output_length
  (depth : nat) (r : rule_arg) (nh : Z * Z) (state_count : Z) (self : CA)
  (seq : list Z) :
  __init__ depth r nh state_count = Ok self →
  Forall (λ x, 0 ≤ x < state_count) seq →
  (∃ out, _apply_rule self seq true = Ok out ∧ len out = len seq)
  ∧ (∀ (steps : Z) (pad_output : bool) (hist : list (list Z)),
       __call__ self seq steps true pad_output = Ok hist →
       Forall (λ row, len row = len seq) hist)
  ∧ (window_size nh ≤ len seq →
     ∃ out, _apply_rule self seq false = Ok out
            ∧ len out = len seq - window_size nh + 1
            ∧ (1 < window_size nh → len out < len seq)).
Proof.
  intros (Hwf & Hnhd & Hst)%init_wf Hb. rewrite <- Hst in Hb.
  pose proof (wf_in_size _ Hwf) as Hsz. rewrite Hnhd in Hsz. rewrite <- Hsz.
  split_and!.
  - exists (step self seq true). split; [by apply apply_rule_Ok|].
    by rewrite len_step.
  - intros steps pad_output hist
      (_ & ext & _ & _ & _ & Hpre & [-> | (_ & [=] & _)])%(call_Ok_inv self Hwf).
    constructor; [done | by apply Hpre].
  - intros Hlen. exists (step self seq false).
    split; [by apply apply_rule_Ok|].
    rewrite len_step by done. split; [done | lia].
Qed.

Lemma step_output_length_witness :
  (∃ out, _apply_rule ca90 [0;1;0;0;0] true = Ok out ∧ len out = len [0;1;0;0;0])
  ∧ (∀ (steps : Z) (pad_output : bool) (hist : list (list Z)),
       __call__ ca90 [0;1;0;0;0] steps true pad_output = Ok hist →
       Forall (λ row, len row = len [0;1;0;0;0]) hist)
  ∧ (window_size (1, 1) ≤ len [0;1;0;0;0] →
     ∃ out, _apply_rule ca90 [0;1;0;0;0] false = Ok out
            ∧ len out = len [0;1;0;0;0] - window_size (1, 1) + 1
            ∧ (1 < window_size (1, 1) → len out < len [0;1;0;0;0])).
Proof.
  apply (step_output_length 9 (RuleInt 90) (1, 1) 2 ca90 [0;1;0;0;0]).
  - reflexivity.
  - repeat constructor; lia.
Defined.

Example step_output_length_rule90 :
  _apply_rule ca90 [0;1;0;0;0] true = Ok [1;0;1;0;0]
  ∧ _apply_rule ca90 [0;1;0;0;0] false = Ok [0;1;0]
  ∧ __call__ ca90 [0;1;0;0;0] 3 true true
    = Ok [[0;1;0;0;0]; [1;0;1;0;0]; [0;0;0;1;0]; [0;0;1;0;1]].
Proof. split_and!; reflexivity. Qed.

(** ** The shape of the history *)

Lemma call_empty_unpadded (self : CA) (steps : Z) (post_pad : bool) :
  CA_wf self → 1 ≤ steps →
  __call__ self [] steps false post_pad = Raise SequenceTooShort.
Proof.
  intros Hwf Hsteps. unfold __call__. destruct (Z.ltb_spec steps 1); [lia|].
  pose proof (call_loop_too_short self Hwf (Z.to_nat steps) 0 [] [] []
                ltac:(lia) eq_refl) as Hloop.
  simpl in Hloop. rewrite Hloop; [done|].
  pose proof (wf_in_size_pos self Hwf). unfold len. simpl. lia.
Qed.

(** The claim about the history fails in two ways: a call on the empty
    sequence returns a history of one row, and with output padding and
    without input padding the second row is not the result of a step on the
    first. *)
Lemma history_shape_counterexample :
  __init__ 9 (RuleInt 90) (1, 1) 2 = Ok ca90
  ∧ __call__ ca90 [] 1 true true = Ok [[]]
  ∧ ¬ (2 ≤ len [[] : list Z] ≤ 1 + 1)
  ∧ __call__ ca90 [0;1;0;0;0] 1 false true = Ok [[0;1;0;0;0]; [0;0;1;0;0]]
  ∧ _apply_rule ca90 [0;1;0;0;0] false = Ok [0;1;0]
  ∧ ¬ chain ca90 false [[0;1;0;0;0]; [0;0;1;0;0]].
Proof.
  split_and!; try reflexivity.
  - unfold len. simpl. lia.
  - intros Hch. specialize (Hch 0%nat _ _ eq_refl eq_refl). discriminate Hch.
Qed.

(** C6, amended. History shape: for every call that returns, with
    [steps >= 1], the first row of the history is the input sequence, and
    the history is, row by row, a history [raw] that starts with the input
    and in which each further row is the result of one step on the row
    before, with zeros added on both sides of a row; it is [raw] itself
    without output padding, with input padding or for [window_size = 1].
    The history has [steps + 1] rows, hence between 2 and [steps + 1], when
    the input is not empty; for the empty input, which returns only with
    input padding, it is the single row [[]]. *)
Theorem history_shape
  (depth : nat) (r : rule_arg) (nh : Z * Z) (state_count : Z) (self : CA)
  (seq : list Z) (steps : Z) (pad_input pad_output : bool)
  (hist : list (list Z)) :
  __init__ depth r nh state_count = Ok self →
  1 ≤ steps →
  __call__ self seq steps pad_input pad_output = Ok hist →
  hist !! 0%nat = Some seq
  ∧ (∃ raw,
       raw !! 0%nat = Some seq
       ∧ chain self pad_input raw
       ∧ Forall2 (λ row h, ∃ a b, h = zeros a ++ row ++ zeros b) raw hist
       ∧ (pad_output = false ∨ pad_input = true ∨ window_size nh = 1 →
          hist = raw))
  ∧ 1 ≤ len hist ≤ steps + 1
  ∧ (seq ≠ [] → len hist = steps + 1 ∧ 2 ≤ len hist)
  ∧ (seq = [] → pad_input = true ∧ hist = [[]]).
Proof.
  intros (Hwf & Hnhd & Hst)%init_wf Hsteps Hcall.
  pose proof (wf_in_size _ Hwf) as Hsz. rewrite Hnhd in Hsz.
  pose proof (call_Ok_inv self Hwf _ _ _ _ _ Hcall)
    as (_ & ext & Hch & Hlen & _ & _ & Hhist).
  assert (hist !! 0%nat = Some seq ∧ length hist = S (length ext)) as [Hhd Hlh].
  { destruct Hhist as [-> | (_ & _ & _ & ->)]; [done|]. simpl.
    rewrite length_fmap. split; [|done]. f_equal. by apply pad_row_full. }
  assert (seq = [] → pad_input = true) as Hempty.
  { intros ->. destruct pad_input; [done|].
    by rewrite call_empty_unpadded in Hcall. }
  split_and!; try done.
  - exists (seq :: ext). split_and!; try done.
    + destruct Hhist as [-> | (_ & _ & _ & ->)].
      * apply Forall_Forall2_diag, Forall_forall. intros row _.
        exists 0, 0. simpl. by rewrite app_nil_r.
      * apply Forall2_fmap_r, Forall_Forall2_diag, Forall_forall.
        intros row _. apply pad_row_shape.
    + destruct Hhist as [-> | (-> & -> & Hlt & _)]; [done|].
      intros [[=] | [[=] | Heq]]. lia.
  - unfold len. lia.
  - unfold len. destruct (decide (seq = [])); lia.
  - intros Hne. unfold len. destruct (decide (seq = [])); [done|]. lia.
  - intros ->. split; [by apply Hempty|].
    destruct (decide _) as [_|]; [|done]. destruct ext; [|done].
    destruct Hhist as [-> | (_ & _ & _ & ->)]; [done|].
    simpl. by rewrite pad_row_full.
Qed.

Lemma history_shape_witness :
  [[0;1;0;0;0]; [0;0;1;0;0]; [0;0;0;0;0]] !! 0%nat = Some [0;1;0;0;0]
  ∧ (∃ raw,
       raw !! 0%nat = Some [0;1;0;0;0]
       ∧ chain ca90 false raw
       ∧ Forall2 (λ row h, ∃ a b, h = zeros a ++ row ++ zeros b) raw
           [[0;1;0;0;0]; [0;0;1;0;0]; [0;0;0;0;0]]
       ∧ (true = false ∨ false = true ∨ window_size (1, 1) = 1 →
          [[0;1;0;0;0]; [0;0;1;0;0]; [0;0;0;0;0]] = raw))
  ∧ 1 ≤ len [[0;1;0;0;0]; [0;0;1;0;0]; [0;0;0;0;0]] ≤ 2 + 1
  ∧ ([0;1;0;0;0] ≠ [] →
     len [[0;1;0;0;0]; [0;0;1;0;0]; [0;0;0;0;0]] = 2 + 1
     ∧ 2 ≤ len [[0;1;0;0;0]; [0;0;1;0;0]; [0;0;0;0;0]])
  ∧ ([0;1;0;0;0] = [] →
     false = true ∧ [[0;1;0;0;0]; [0;0;1;0;0]; [0;0;0;0;0]] = [[]]).
Proof.
  apply (history_shape 9 (RuleInt 90) (1, 1) 2 ca90 [0;1;0;0;0] 2 false true).
  - reflexivity.
  - lia.
  - reflexivity.
Defined.

(** ** The store: simulation of the computation on values *)

Lemma sim_bind {A B A' B'} (h0 : gmap loc obj) (m : hm A) (f : A → hm A')
  (h : gmap loc obj) (p : res B) (g : B → res B')
  (Q : A → B → gmap loc obj → Prop) (R : A' → B' → gmap loc obj → Prop) :
  sim h0 m h p Q →
  (∀ a b h', Q a b h' → h0 ⊆ h' → sim h0 (f a) h' (g b) R) →
  sim h0 (m ≫= f) h (p ≫= g) R.
Proof.
  unfold sim, mbind, hm_bind. intros [Hfr Hm] Hf.
  destruct (m h) as [[a|e] h'], p as [b|e']; simpl in *; try done.
  by apply Hf.
Qed.

(** A step of the store computation that has no counterpart on values. *)
Lemma sim_bind_l {A A' B'} (h0 : gmap loc obj) (m : hm A) (f : A → hm A')
  (h : gmap loc obj) (p : res B') (Q : A → gmap loc obj → Prop)
  (R : A' → B' → gmap loc obj → Prop) :
  sim h0 m h (Ok ()) (λ a _ h', Q a h') →
  (∀ a h', Q a h' → h0 ⊆ h' → sim h0 (f a) h' p R) →
  sim h0 (m ≫= f) h p R.
Proof.
  intros Hm Hf. change p with (Ok () ≫= λ _ : unit, p).
  eapply sim_bind; [exact Hm|]. intros a [] h'. apply Hf.
Qed.

(** A step of the store computation that ends the computation on values. *)
Lemma sim_bind_r {A A' B} (h0 : gmap loc obj) (m : hm A) (f : A → hm A')
  (h : gmap loc obj) (p : res B)
  (Q : A → B → gmap loc obj → Prop) (R : A' → B → gmap loc obj → Prop) :
  sim h0 m h p Q →
  (∀ a b h', Q a b h' → h0 ⊆ h' → sim h0 (f a) h' (Ok b) R) →
  sim h0 (m ≫= f) h p R.
Proof.
  intros Hm Hf. replace p with (p ≫= Ok) by (by destruct p).
  by eapply sim_bind.
Qed.

Lemma sim_ret {A B} (h0 h : gmap loc obj) (a : A) (b : B)
  (Q : A → B → gmap loc obj → Prop) :
  h0 ⊆ h → Q a b h → sim h0 (mret a) h (Ok b) Q.
Proof. by split. Qed.

Lemma sim_conseq {A B} (h0 : gmap loc obj) (m : hm A) (h : gmap loc obj)
  (p : res B) (Q Q' : A → B → gmap loc obj → Prop) :
  sim h0 m h p Q →
  (∀ a b h', p = Ok b → Q a b h' → h0 ⊆ h' → Q' a b h') →
  sim h0 m h p Q'.
Proof.
  unfold sim. intros [Hfr Hm] HQ. split; [done|].
  destruct p, (m h) as [[] ?]; simpl in *; auto.
Qed.

(** A simulation that keeps the objects of [h1] keeps those of a smaller
    store. *)
Lemma sim_frame {A B} (h0 h1 : gmap loc obj) (m : hm A) (h : gmap loc obj)
  (p : res B) (Q : A → B → gmap loc obj → Prop) :
  h0 ⊆ h1 → sim h1 m h p Q → sim h0 m h p (λ a b h', Q a b h' ∧ h1 ⊆ h').
Proof.
  unfold sim. intros H01 [Hfr Hm]. split; [by etrans|].
  destruct p, (m h) as [[] ?]; simpl in *; auto.
Qed.

Lemma sim_lift {A} (h0 h : gmap loc obj) (p : res A) :
  h0 ⊆ h → sim h0 (h_lift p) h p (λ a b h', a = b ∧ h' = h).
Proof. intros Hfr. split; [done|]. by destruct p. Qed.

Lemma sim_raise {A B} (h0 h : gmap loc obj) (e : exn)
  (Q : A → B → gmap loc obj → Prop) :
  h0 ⊆ h → sim h0 (h_lift (Raise e)) h (Raise e) Q.
Proof. by split. Qed.

Lemma sim_ints {B} (h0 h : gmap loc obj) (l : loc) (s : list Z) (b : B) :
  h0 ⊆ h → h !! l = Some (Ints s) →
  sim h0 (h_ints l) h (Ok b) (λ a _ h', a = s ∧ h' = h).
Proof. intros Hfr Hl. unfold sim, h_ints. by rewrite Hl. Qed.

Lemma sim_rows {B} (h0 h : gmap loc obj) (l : loc) (rs : list loc) (b : B) :
  h0 ⊆ h → h !! l = Some (Rows rs) →
  sim h0 (h_rows l) h (Ok b) (λ a _ h', a = rs ∧ h' = h).
Proof. intros Hfr Hl. unfold sim, h_rows. by rewrite Hl. Qed.

Lemma fresh_None (h : gmap loc obj) : h !! fresh (dom h) = None.
Proof. apply not_elem_of_dom, is_fresh. Qed.

Lemma insert_fresh_subseteq (h0 h : gmap loc obj) (l : loc) (o : obj) :
  h0 ⊆ h → h0 !! l = None → h0 ⊆ <[l := o]> h.
Proof.
  intros Hfr Hl. apply map_subseteq_spec. intros i x Hi.
  destruct (decide (i = l)) as [->|Hne]; [congruence|].
  rewrite lookup_insert_ne by done. by eapply lookup_weaken.
Qed.

Lemma sim_new {B} (h0 h : gmap loc obj) (o : obj) (b : B) :
  h0 ⊆ h →
  sim h0 (h_new o) h (Ok b) (λ l _ h', h !! l = None ∧ h' = <[l := o]> h).
Proof.
  intros Hfr. unfold sim, h_new. simpl. split; [|by split; [apply fresh_None|]].
  apply insert_fresh_subseteq; [done|].
  eapply lookup_weaken_None; [apply fresh_None | done].
Qed.

Lemma sim_set {B} (h0 h : gmap loc obj) (l : loc) (o : obj) (b : B) :
  h0 ⊆ h → h0 !! l = None →
  sim h0 (h_set l o) h (Ok b) (λ _ _ h', h' = <[l := o]> h).
Proof.
  intros Hfr Hl. unfold sim, h_set. simpl. split; [|done].
  by apply insert_fresh_subseteq.
Qed.

(** ** The store: one step *)

(** The loop of [_apply_rule]: [out] is a new object, [seq_] another one. *)
Lemma sim_apply_loop (self : CA) (h : gmap loc obj) (out seq_ : loc)
  (s_ : list Z) (xs : list Z) :
  h !! out = None → seq_ ≠ out →
  ∀ (acc : list Z) (h2 : gmap loc obj),
    h ⊆ h2 → h2 !! out = Some (Ints acc) → h2 !! seq_ = Some (Ints s_) →
    sim h
      (h_for (λ start_ix,
           s_ ← h_ints seq_;
           let window := py_slice s_ start_ix (start_ix + in_size self) in
           window_int ← h_lift (_neighborhood_to_index self window);
           x ← h_lift (py_getitem (rule self) window_int);
           h_append_int out x) xs)
      h2
      (for_loop (λ out start_ix,
           let window := py_slice s_ start_ix (start_ix + in_size self) in
           window_int ← _neighborhood_to_index self window;
           x ← py_getitem (rule self) window_int;
           Ok (out ++ [x])) xs acc)
      (λ _ acc' h', h' !! out = Some (Ints acc')).
Proof.
  intros Hout Hne. induction xs as [|start_ix xs IH]; intros acc h2 Hfr Hacc Hseq.
  { by apply sim_ret. }
  cbn [h_for for_loop].
  eapply sim_bind with
    (Q := λ _ acc' h', h' !! out = Some (Ints acc') ∧ h' !! seq_ = Some (Ints s_));
    [|intros [] acc' h' [??] ?; by apply IH].
  eapply sim_bind_l; [by apply sim_ints|]. intros ? ? [-> ->] _. cbn zeta.
  eapply sim_bind; [by apply sim_lift|]. intros ? window_int ? [-> ->] _.
  eapply sim_bind; [by apply sim_lift|]. intros ? x ? [-> ->] _.
  unfold h_append_int.
  eapply sim_bind_l; [by apply sim_ints|]. intros acc0 h3 [Ha Hh] _. subst acc0 h3.
  eapply sim_conseq; [by apply sim_set|]. intros ? ? h' [= <-] -> _.
  by rewrite lookup_insert_eq, lookup_insert_ne.
Qed.

(** [_apply_rule] leaves the objects of the store as they are and returns
    a new object that holds the result computed on values. *)
Lemma sim_apply_rule (self : CA) (h : gmap loc obj) (seq : loc) (s : list Z)
  (pre_pad : bool) :
  h !! seq = Some (Ints s) →
  sim h (h_apply_rule self seq pre_pad) h (_apply_rule self s pre_pad)
    (λ l out h', h !! l = None ∧ h' !! l = Some (Ints out)).
Proof.
  intros Hseq. unfold h_apply_rule, _apply_rule.
  eapply sim_bind_l; [by apply sim_ints|]. intros ? ? [-> ->] _.
  destruct (negb pre_pad && (len s <? in_size self)); [by apply sim_raise|].
  destruct (negb (forallb (in_bounds (n_states self)) s)); [by apply sim_raise|].
  eapply sim_bind_l; [by apply sim_new|]. intros out h1 [Hout ->] Hfr1.
  eapply sim_bind_l with
    (Q := λ seq_ h2, h2 !! out = Some (Ints [])
            ∧ h2 !! seq_ = Some (Ints (padded self s pre_pad)) ∧ seq_ ≠ out).
  { unfold padded. destruct pre_pad.
    - eapply sim_conseq; [by apply sim_new|]. intros seq_ ? h2 _ [Hfresh ->] _.
      assert (seq_ ≠ out) by (intros ->; by rewrite lookup_insert_eq in Hfresh).
      by rewrite lookup_insert_eq, lookup_insert_ne, lookup_insert_eq.
    - apply sim_ret; [done|].
      assert (seq ≠ out) by congruence.
      by rewrite lookup_insert_eq, lookup_insert_ne. }
  intros seq_ h2 (Hacc & Hs_ & Hne) Hfr2.
  eapply sim_bind_l; [by apply sim_ints|]. intros ? ? [-> ->] _.
  eapply sim_bind_r.
  { apply (sim_apply_loop self h out seq_ (padded self s pre_pad)); try done. }
  intros [] acc' h' Hacc' Hfr'. by apply sim_ret.
Qed.

(** ** The store: the history *)

Lemma hist_inv_weaken (h0 h h' : gmap loc obj) (out : loc) (rs : list loc)
  (rows : list (list Z)) :
  hist_inv h0 h out rs rows → h ⊆ h' → hist_inv h0 h' out rs rows.
Proof.
  intros [Hfr Hout Hof Hrf Hrows] Hsub. split; try done.
  - by etrans.
  - exact (lookup_weaken _ _ _ _ Hout Hsub).
  - eapply Forall2_impl; [exact Hrows|]. intros r row Hr.
    exact (lookup_weaken _ _ _ _ Hr Hsub).
Qed.

(** The history after [out.append(l)] or [out[j] = l], for a new list [l]. *)
Lemma hist_inv_update (h0 h : gmap loc obj) (out : loc) (rs rs' : list loc)
  (rows rows' : list (list Z)) :
  hist_inv h0 h out rs rows →
  Forall (λ r, h0 !! r = None) rs' →
  Forall2 (λ r row, h !! r = Some (Ints row)) rs' rows' →
  hist_inv h0 (<[out := Rows rs']> h) out rs' rows'.
Proof.
  intros Hinv Hfresh Hrows. pose proof Hinv as [Hfr Hout Hof _ _].
  split; try done.
  - by apply insert_fresh_subseteq.
  - by rewrite lookup_insert_eq.
  - eapply Forall2_impl; [exact Hrows|]. intros r row Hr.
    rewrite lookup_insert_ne; [done|]. intros <-. congruence.
Qed.

(** Subscripts on the references and on the rows agree. *)
Lemma getitem_rel {A B} (P : A → B → Prop) (l : list A) (k : list B) (i : Z) :
  Forall2 P l k →
  match py_getitem l i, py_getitem k i with
  | Ok a, Ok b => P a b
  | Raise e, Raise e' => e = e'
  | _, _ => False
  end.
Proof.
  intros HP. unfold py_getitem, len. rewrite <- (Forall2_length _ _ _ HP).
  destruct (_ <? 0); [done|].
  destruct (l !! _) as [a|] eqn:Ha.
  - destruct (Forall2_lookup_l _ _ _ _ _ HP Ha) as (b & -> & ?). done.
  - destruct (k !! _) as [b|] eqn:Hb; [|done].
    destruct (Forall2_lookup_r _ _ _ _ _ HP Hb) as (a & ? & _). congruence.
Qed.

Lemma setitem_rel {A B} (l : list A) (k : list B) (i : Z) (a : A) (b : B) :
  length l = length k →
  match py_setitem l i a, py_setitem k i b with
  | Ok l', Ok k' => ∃ j : nat, l' = <[j := a]> l ∧ k' = <[j := b]> k
  | Raise e, Raise e' => e = e'
  | _, _ => False
  end.
Proof.
  intros Hlen. unfold py_setitem, len. rewrite <- Hlen.
  destruct (_ || _); [done | eauto].
Qed.

Lemma sim_getitem (h0 h : gmap loc obj) (rs : list loc) (rows : list (list Z))
  (i : Z) :
  h0 ⊆ h → Forall2 (λ r row, h !! r = Some (Ints row)) rs rows →
  sim h0 (h_lift (py_getitem rs i)) h (py_getitem rows i)
    (λ r row h', h' = h ∧ h !! r = Some (Ints row)).
Proof.
  intros Hfr Hrows. split; [done|]. simpl.
  pose proof (getitem_rel _ rs rows i Hrows) as Hrel.
  destruct (py_getitem rs i), (py_getitem rows i); try done.
Qed.

Section history.
Variable self : CA.
Variable h0 : gmap loc obj.
Variable out : loc.

Lemma sim_call_loop (pre_pad : bool) (iters : nat) :
  ∀ (h : gmap loc obj) (rs : list loc) (rows : list (list Z)),
    hist_inv h0 h out rs rows →
    sim h0 (h_call_loop self pre_pad iters out) h
      (call_loop self pre_pad iters rows)
      (λ _ rows' h', ∃ rs', hist_inv h0 h' out rs' rows').
Proof.
  induction iters as [|iters IH]; intros h rs rows Hinv.
  { apply sim_ret; [apply Hinv | eauto]. }
  pose proof Hinv as [Hfr Hout Hof Hrf Hrows]. cbn [h_call_loop call_loop].
  eapply sim_bind_l; [by apply sim_rows|]. intros rs1 h1 [Ha Hh] _. subst rs1 h1.
  eapply sim_bind; [by apply sim_getitem|]. intros r cur h1 [-> Hr] _.
  eapply sim_bind.
  { apply (sim_frame h0 h); [done|]. by apply sim_apply_rule. }
  intros l nxt h' [[Hl Hnxt] Hsub] Hfr'.
  eapply sim_bind_l; [by apply sim_ints|]. intros s1 h1 [Ha Hh] _. subst s1 h1.
  pose proof (hist_inv_weaken _ _ _ _ _ _ Hinv Hsub) as Hinv'.
  destruct (0 <? len nxt); [|apply sim_ret; eauto].
  unfold h_append_row.
  eapply sim_bind_l.
  { eapply sim_bind_l; [eapply sim_rows; [done | apply Hinv']|].
    intros rs1 h1 [Ha Hh] _. subst rs1 h1. by apply sim_set. }
  intros [] h1 -> _. apply (IH _ (rs ++ [l])).
  apply (hist_inv_update _ _ _ rs _ rows); [done | |].
  - apply Forall_app. split; [done|]. constructor; [|done].
    eapply lookup_weaken_None; [exact Hl | done].
  - apply Forall2_app; [apply Hinv'|]. by constructor.
Qed.

Lemma sim_checks (h : gmap loc obj) (rs : list loc) (rows : list (list Z)) :
  h0 ⊆ h → Forall2 (λ r row, h !! r = Some (Ints row)) rs rows →
  sim h0 (h_for (λ r, seq ← h_ints r; h_lift (_states_in_bounds self seq)) rs) h
    (for_loop (λ _ seq, _states_in_bounds self seq) rows ())
    (λ _ _ h', h' = h).
Proof.
  intros Hfr. induction 1 as [|r row rs rows Hr Hrows IH]; [by apply sim_ret|].
  cbn [h_for for_loop].
  eapply sim_bind with (Q := λ _ _ h', h' = h); [|intros ? [] h' -> _; apply IH].
  eapply sim_bind_l; [by apply sim_ints|]. intros s1 h1 [Ha Hh] _. subst s1 h1.
  eapply sim_conseq; [by apply sim_lift|]. by intros ? ? ? _ [_ ->] _.
Qed.

Lemma sim_lens (h : gmap loc obj) (rs : list loc) (rows : list (list Z)) :
  h0 ⊆ h → Forall2 (λ r row, h !! r = Some (Ints row)) rs rows →
  sim h0 (mapM (λ r, seq ← h_ints r; mret (len seq)) rs) h (Ok ())
    (λ lens _ h', lens = len <$> rows ∧ h' = h).
Proof.
  intros Hfr. induction 1 as [|r row rs rows Hr Hrows IH]; [by apply sim_ret|].
  cbn [mapM]. 
  eapply sim_bind_l.
  { eapply sim_bind_l; [by apply sim_ints|]. intros s1 h1 [Ha Hh] _. subst s1 h1.
    apply (sim_ret h0 h (len row) () (λ a _ h', a = len row ∧ h' = h)); done. }
  intros x h1 [-> ->] _.
  eapply sim_bind_l; [exact IH|]. intros lens h1 [-> ->] _.
  by apply sim_ret.
Qed.
End history.

Section padding.
Variable self : CA.
Variable h0 : gmap loc obj.
Variable out : loc.

(** The assignment loop of [_pad_output]: each padded row is a new list,
    whose reference replaces the old one in the history object. *)
Lemma sim_pad_loop (max_len : Z) (xs : list (Z * Z)) :
  ∀ (h : gmap loc obj) (rs : list loc) (rows : list (list Z)),
    hist_inv h0 h out rs rows →
    sim h0
      (h_for (λ '(ix, seq_len),
           let fill := max_len - seq_len in
           if 0 <? fill then
             '(nhd_reps, extra) ← h_lift (divmod fill (in_size self - 1));
             '(extra_both, extra_l) ← h_lift (divmod extra 2);
             let l_pad := zeros (nhd_reps * (nhd self).1 + extra_both + extra_l) in
             let r_pad := zeros (nhd_reps * (nhd self).2 + extra_both) in
             rs ← h_rows out;
             r ← h_lift (py_getitem rs ix);
             cur ← h_ints r;
             new ← h_new (Ints (l_pad ++ cur ++ r_pad));
             rs' ← h_lift (py_setitem rs ix new);
             h_set out (Rows rs')
           else mret ()) xs)
      h
      (for_loop (λ seqs '(ix, seq_len),
           let fill := max_len - seq_len in
           if 0 <? fill then
             '(nhd_reps, extra) ← divmod fill (in_size self - 1);
             '(extra_both, extra_l) ← divmod extra 2;
             let l_pad := zeros (nhd_reps * (nhd self).1 + extra_both + extra_l) in
             let r_pad := zeros (nhd_reps * (nhd self).2 + extra_both) in
             cur ← py_getitem seqs ix;
             py_setitem seqs ix (l_pad ++ cur ++ r_pad)
           else Ok seqs) xs rows)
      (λ _ rows' h', ∃ rs', hist_inv h0 h' out rs' rows').
Proof.
  induction xs as [|[ix seq_len] xs IH]; intros h rs rows Hinv.
  { apply sim_ret; [apply Hinv | eauto]. }
  cbn [h_for for_loop].
  eapply sim_bind with (Q := λ _ rows' h', ∃ rs', hist_inv h0 h' out rs' rows');
    [|intros ? rows' h' [rs' Hinv'] _; by apply (IH h' rs')].
  pose proof Hinv as [Hfr Hout Hof Hrf Hrows]. cbn beta iota zeta.
  destruct (0 <? max_len - seq_len); [|apply sim_ret; eauto].
  eapply sim_bind; [by apply sim_lift|]. intros ? [nhd_reps extra] ? [-> ->] _.
  eapply sim_bind; [by apply sim_lift|]. intros ? [extra_both extra_l] ? [-> ->] _.
  cbn beta iota zeta.
  eapply sim_bind_l; [by apply sim_rows|]. intros rs1 h1 [Ha Hh] _. subst rs1 h1.
  eapply sim_bind; [by apply sim_getitem|]. intros r cur h1 [-> Hr] _.
  eapply sim_bind_l; [by apply sim_ints|]. intros s1 h1 [Ha Hh] _. subst s1 h1.
  eapply sim_bind_l; [by apply sim_new|]. intros new h1 [Hnew ->] Hfr1.
  set (row' := zeros _ ++ cur ++ zeros _).
  pose proof (setitem_rel rs rows ix new row' (Forall2_length _ _ _ Hrows)) as Hrel.
  eapply sim_bind_r with
    (Q := λ rs' rows' h', h' = <[new := Ints row']> h
            ∧ ∃ j : nat, rs' = <[j := new]> rs ∧ rows' = <[j := row']> rows).
  { split; [done|]. simpl.
    destruct (py_setitem rs ix new), (py_setitem rows ix row'); try done. }
  intros rs' rows' h1 [-> (j & -> & ->)] _.
  assert (hist_inv h0 (<[new := Ints row']> h) out rs rows) as Hinv1.
  { eapply hist_inv_weaken; [exact Hinv|]. by apply insert_subseteq. }
  eapply sim_conseq; [by apply sim_set|]. intros ? ? h1 [= <-] -> _.
  exists (<[j := new]> rs). apply (hist_inv_update _ _ _ rs _ rows); [done | |].
  - apply Forall_insert; [done|]. eapply lookup_weaken_None; [exact Hnew | done].
  - apply Forall2_insert; [apply Hinv1 | by rewrite lookup_insert_eq].
Qed.

Lemma sim_pad_output (h : gmap loc obj) (rs : list loc) (rows : list (list Z)) :
  hist_inv h0 h out rs rows →
  sim h0 (h_pad_output self out) h (_pad_output self rows)
    (λ l rows' h', l = out ∧ ∃ rs', hist_inv h0 h' out rs' rows').
Proof.
  intros Hinv. pose proof Hinv as [Hfr Hout Hof Hrf Hrows].
  unfold h_pad_output, _pad_output.
  eapply sim_bind_l; [by apply sim_rows|]. intros rs1 h1 [Ha Hh] _. subst rs1 h1.
  eapply sim_bind; [by apply sim_checks|]. intros ? ? h1 -> _.
  destruct (1 <? in_size self); [|apply sim_ret; eauto].
  eapply sim_bind_l; [by apply sim_lens|]. intros lens h1 [-> ->] _.
  eapply sim_bind; [by apply sim_lift|]. intros ? max_len ? [-> ->] _.
  eapply sim_bind; [by apply sim_lift|]. intros ? min_len ? [-> ->] _.
  destruct (min_len <? max_len); [|apply sim_ret; eauto].
  eapply sim_bind_r; [by apply (sim_pad_loop _ _ _ rs)|].
  intros [] rows' h' [rs' Hinv'] _. apply sim_ret; [apply Hinv' | eauto].
Qed.

Lemma sim_call_history (h : gmap loc obj) (pre_pad post_pad : bool) (steps : nat)
  (rs : list loc) (rows : list (list Z)) :
  hist_inv h0 h out rs rows →
  sim h0
    (_ ← h_call_loop self pre_pad steps out;
     if post_pad then h_pad_output self out else mret out)
    h
    (out' ← call_loop self pre_pad steps rows;
     if post_pad then _pad_output self out' else Ok out')
    (λ l rows' h', l = out ∧ ∃ rs', hist_inv h0 h' out rs' rows').
Proof.
  intros Hinv. eapply sim_bind; [by apply (sim_call_loop _ _ _ _ _ _ rs)|].
  intros [] rows' h' [rs' Hinv'] _.
  destruct post_pad; [by apply (sim_pad_output h' rs')|].
  apply sim_ret; [apply Hinv' | eauto].
Qed.
End padding.

(** [__call__] over the store simulates [__call__] on values, and keeps
    every object of the store of the caller. *)
Lemma sim_call (self : CA) (h : gmap loc obj) (seq : loc) (s : list Z)
  (steps : Z) (pre_pad post_pad : bool) :
  h !! seq = Some (Ints s) →
  sim h (h_call self seq steps pre_pad post_pad) h
    (__call__ self s steps pre_pad post_pad)
    (λ out hist h', ∃ rs, hist_inv h h' out rs hist).
Proof.
  intros Hseq. unfold h_call, __call__.
  destruct (steps <? 1); [by apply sim_raise|].
  eapply sim_bind_l; [by apply sim_ints|]. intros s1 h1 [Ha Hh] _. subst s1 h1.
  eapply sim_bind_l; [by apply sim_new|]. intros first h1 [Hfirst ->] Hfr1.
  eapply sim_bind_l; [by apply sim_new|]. intros out h2 [Hout ->] Hfr2.
  assert (hist_inv h (<[out := Rows [first]]> (<[first := Ints s]> h)) out [first] [s])
    as Hinv.
  { assert (h !! out = None) as Hout0 by (by eapply lookup_weaken_None).
    assert (first ≠ out) by (intros ->; by rewrite lookup_insert_eq in Hout).
    split; try done.
    - by rewrite lookup_insert_eq.
    - by constructor.
    - constructor; [|done]. by rewrite lookup_insert_ne, lookup_insert_eq. }
  eapply sim_conseq; [by apply (sim_call_history self h out _ _ _ _ [first])|].
  intros l hist h' _ [-> [rs Hinv']] _. eauto.
Qed.

Lemma call_first_row (self : CA) (seq : list Z) (steps : Z)
  (pre_pad post_pad : bool) (hist : list (list Z)) :
  CA_wf self → __call__ self seq steps pre_pad post_pad = Ok hist →
  hist !! 0%nat = Some seq.
Proof.
  intros Hwf (_ & ext & _ & _ & _ & _ & [-> | (_ & _ & _ & ->)])%(call_Ok_inv self Hwf);
    [done|].
  simpl. f_equal. by apply pad_row_full.
Qed.

Lemma read_history_Some (h : gmap loc obj) (out : loc) (rs : list loc)
  (rows : list (list Z)) :
  h !! out = Some (Rows rs) →
  Forall2 (λ r row, h !! r = Some (Ints row)) rs rows →
  read_history h out = Some rows.
Proof.
  intros Hout Hrows. unfold read_history. rewrite Hout.
  apply mapM_Some. eapply Forall2_impl; [exact Hrows|].
  intros r row Hr. by rewrite Hr.
Qed.

(** C10. Frame property on the caller's input: for every call of
    [__call__], with any padding flags and whether it returns or raises,
    every list object of the caller's store, the input sequence among them,
    is unchanged afterwards.  The call raises or returns as the computation
    on values does, and when it returns, the history object and each of its
    rows, padded or not, is an object that did not exist before the call,
    hence none of them is the caller's list; the rows hold the history
    computed on values, whose first row (in a constructed configuration) is
    the input sequence: a new list with the states of the input. *)
Theorem call_frame
  (self : CA) (h : gmap loc obj) (seq : loc) (s : list Z) (steps : Z)
  (pad_input pad_output : bool) :
  h !! seq = Some (Ints s) →
  ∃ res h',
    h_call self seq steps pad_input pad_output h = (res, h')
    ∧ h' !! seq = Some (Ints s)
    ∧ h ⊆ h'
    ∧ match __call__ self s steps pad_input pad_output with
      | Raise e => res = Raise e
      | Ok hist =>
          ∃ out rs,
            res = Ok out
            ∧ h' !! out = Some (Rows rs)
            ∧ h !! out = None ∧ out ≠ seq
            ∧ Forall (λ r, h !! r = None ∧ r ≠ seq) rs
            ∧ Forall2 (λ r row, h' !! r = Some (Ints row)) rs hist
            ∧ read_history h' out = Some hist
            ∧ ∀ depth r nh state_count,
                __init__ depth r nh state_count = Ok self →
                hist !! 0%nat = Some s
      end.
Proof.
  intros Hseq.
  destruct (sim_call self h seq s steps pad_input pad_output Hseq) as [Hfr Hsim].
  destruct (h_call self seq steps pad_input pad_output h) as [res h'] eqn:Hrun.
  simpl in *. exists res, h'. split_and!; try done.
  { exact (lookup_weaken _ _ _ _ Hseq Hfr). }
  destruct (__call__ self s steps pad_input pad_output) as [hist|e] eqn:Hcall.
  - destruct res as [out|]; [|done]. destruct Hsim as [rs [_ Hout Hof Hrf Hrows]].
    exists out, rs. split_and!; try done.
    + congruence.
    + eapply Forall_impl; [exact Hrf|]. intros r Hr. split; [done | congruence].
    + by apply (read_history_Some _ _ rs).
    + intros depth r nh state_count [Hwf _]%init_wf. by eapply call_first_row.
  - destruct res; [done | congruence].
Qed.

Lemma call_frame_witness :
  ∃ res h',
    h_call ca90 1%positive 2 false true {[ 1%positive := Ints [0;1;0;0;0] ]}
    = (res, h')
    ∧ h' !! 1%positive = Some (Ints [0;1;0;0;0])
    ∧ ({[ 1%positive := Ints [0;1;0;0;0] ]} : gmap loc obj) ⊆ h'
    ∧ match __call__ ca90 [0;1;0;0;0] 2 false true with
      | Raise e => res = Raise e
      | Ok hist =>
          ∃ out rs,
            res = Ok out
            ∧ h' !! out = Some (Rows rs)
            ∧ ({[ 1%positive := Ints [0;1;0;0;0] ]} : gmap loc obj) !! out = None
            ∧ out ≠ 1%positive
            ∧ Forall (λ r, ({[ 1%positive := Ints [0;1;0;0;0] ]} : gmap loc obj) !! r
                            = None ∧ r ≠ 1%positive) rs
            ∧ Forall2 (λ r row, h' !! r = Some (Ints row)) rs hist
            ∧ read_history h' out = Some hist
            ∧ ∀ depth r nh state_count,
                __init__ depth r nh state_count = Ok ca90 →
                hist !! 0%nat = Some [0;1;0;0;0]
      end.
Proof.
  apply (call_frame ca90 {[ 1%positive := Ints [0;1;0;0;0] ]} 1%positive
           [0;1;0;0;0] 2 false true).
  reflexivity.
Defined.

(** * Further properties of the class *)

(** ** Construction: the guards and the two forms of a rule *)

(** Every failure inside the branch of [__init__] that handles the rule. *)
Lemma init_rule_branch_Raise (depth : nat) (r : rule_arg) (nh : Z * Z) (n : Z)
  (e : exn) :
  __init__ depth r nh n = Raise e →
  e = InvalidConfiguration ∧ (nh.1 < 0 ∨ nh.2 < 0 ∨ n < 2)
  ∨ 2 ≤ n ∧ 0 ≤ nh.1 ∧ 0 ≤ nh.2
    ∧ match r with
      | RuleInt k =>
          e = RuleNumberOutOfRange ∧ (k < 0 ∨ n ^ table_length n nh - 1 < k)
          ∨ e = RecursionError ∧ 0 ≤ k ≤ n ^ table_length n nh - 1
      | RuleList l =>
          e = RuleTableLengthMismatch ∧ len l ≠ table_length n nh
          ∨ e = StateOutOfRange ∧ len l = table_length n nh
            ∧ Exists (λ x, ¬ (0 ≤ x < n)) l
      end.
Proof.
  unfold __init__, table_length, window_size.
  destruct (Z.ltb_spec nh.1 0); simpl; [intros [= <-]; left; split; [done | lia]|].
  destruct (Z.ltb_spec nh.2 0); simpl; [intros [= <-]; left; split; [done | lia]|].
  destruct (Z.ltb_spec n 2); simpl; [intros [= <-]; left; split; [done | lia]|].
  intros [He | (? & _ & [=])]%bind_Raise. right. split_and!; try done.
  destruct r as [k|l].
  - destruct (Z.ltb_spec k 0); simpl in He; [injection He as <-; left; split; [done | lia]|].
    destruct (Z.ltb_spec (n ^ n ^ (nh.1 + nh.2 + 1) - 1) k); simpl in He;
      [injection He as <-; left; split; [done | lia]|].
    right. split; [|lia]. eapply int_to_states_Raise; [|exact He]. lia.
  - destruct (Z.eqb_spec (len l) (n ^ (nh.1 + nh.2 + 1))); simpl in He;
      [|injection He as <-; by left].
    destruct (forallb (in_bounds n) l) eqn:Hb; simpl in He; [done|].
    injection He as <-. right. split_and!; try done.
    apply not_Forall_Exists; [intros x; apply _|].
    intros HF%forallb_in_bounds. congruence.
Qed.

(** X1. The shape of a configuration is checked before the rule is looked
    at: construction fails with [InvalidConfiguration] exactly when a radius
    is negative or there are fewer than two states, whatever the rule is. *)
Theorem init_invalid_configuration
  (depth : nat) (r : rule_arg) (left_radius right_radius state_count : Z) :
  __init__ depth r (left_radius, right_radius) state_count = Raise InvalidConfiguration
  ↔ left_radius < 0 ∨ right_radius < 0 ∨ state_count < 2.
Proof.
  split.
  - intros [[_ H] | (_ & _ & _ & H)]%init_rule_branch_Raise; [done|].
    destruct r; destruct H as [[[=] _] | [[=] _]].
  - intros H. unfold __init__. simpl.
    destruct (Z.ltb_spec left_radius 0); [done|].
    destruct (Z.ltb_spec right_radius 0); [done|]. simpl.
    destruct (Z.ltb_spec state_count 2); [done | lia].
Qed.

(** X2. Construction from a rule list, for a valid shape: it fails with
    [RuleTableLengthMismatch] exactly when the list has another length than
    [state_count ^ window_size]; it fails with [StateOutOfRange] exactly
    when the length is right and some entry lies outside
    [[0, state_count)] (the length is checked first); otherwise it returns
    the configuration that holds the list itself as its rule table. *)
Theorem init_rule_list
  (depth : nat) (l : list Z) (nh : Z * Z) (state_count : Z) :
  2 ≤ state_count → 0 ≤ nh.1 → 0 ≤ nh.2 →
  (__init__ depth (RuleList l) nh state_count = Raise RuleTableLengthMismatch
   ↔ len l ≠ table_length state_count nh)
  ∧ (__init__ depth (RuleList l) nh state_count = Raise StateOutOfRange
     ↔ len l = table_length state_count nh
       ∧ Exists (λ x, ¬ (0 ≤ x < state_count)) l)
  ∧ (len l = table_length state_count nh
     ∧ Forall (λ x, 0 ≤ x < state_count) l
     ↔ __init__ depth (RuleList l) nh state_count
       = Ok (mkCA l nh state_count (window_size nh) (table_length state_count nh))).
Proof.
  intros Hn Hl Hr.
  destruct (decide (len l = table_length state_count nh)) as [Hlen|Hlen].
  - destruct (decide (Forall (λ x, 0 ≤ x < state_count) l)) as [Hb|Hb].
    + rewrite init_list by done. split_and!; split; try done.
      intros [_ HE]. by apply Exists_not_Forall in HE.
    + destruct (__init__ depth (RuleList l) nh state_count) as [ca|e] eqn:Hinit.
      { apply init_Ok_inv in Hinit as (_ & _ & _ & t & _ & _ & _ & ?). done. }
      apply init_rule_branch_Raise in Hinit
        as [[_ ?] | (_ & _ & _ & [[_ ?] | (-> & _ & HE)])]; [lia | done |].
      split_and!; split; try done. by intros [_ ?].
  - destruct (__init__ depth (RuleList l) nh state_count) as [ca|e] eqn:Hinit.
    { apply init_Ok_inv in Hinit as (_ & _ & _ & t & _ & _ & ? & _). done. }
    apply init_rule_branch_Raise in Hinit
      as [[_ ?] | (_ & _ & _ & [[-> _] | (_ & ? & _)])]; [lia | | done].
    split_and!; split; try done; by intros [? _].
Qed.

Lemma init_rule_list_witness :
  (__init__ 0 (RuleList [0;1;2;1]) (0, 0) 3 = Raise RuleTableLengthMismatch
   ↔ len [0;1;2;1] ≠ table_length 3 (0, 0))
  ∧ (__init__ 0 (RuleList [0;1;2;1]) (0, 0) 3 = Raise StateOutOfRange
     ↔ len [0;1;2;1] = table_length 3 (0, 0)
       ∧ Exists (λ x, ¬ (0 ≤ x < 3)) [0;1;2;1])
  ∧ (len [0;1;2;1] = table_length 3 (0, 0)
     ∧ Forall (λ x, 0 ≤ x < 3) [0;1;2;1]
     ↔ __init__ 0 (RuleList [0;1;2;1]) (0, 0) 3
       = Ok (mkCA [0;1;2;1] (0, 0) 3 (window_size (0, 0)) (table_length 3 (0, 0)))).
Proof. apply (init_rule_list 0 [0;1;2;1] (0, 0) 3); simpl; lia. Defined.

(** ** Rule numbers and rule tables *)

Lemma encode_snoc (n d : Z) (w : list Z) :
  encode n (w ++ [d]) = encode n w * n + d.
Proof.
  induction w as [|x w IH].
  - simpl. rewrite encode_cons. unfold encode, len, py_sum. simpl.
    rewrite Z.pow_0_r. lia.
  - simpl. rewrite !encode_cons, IH, len_app.
    replace (len [d]) with 1 by done.
    rewrite Z.pow_add_r, Z.pow_1_r by (pose proof (len_nonneg w); lia). lia.
Qed.

(** A list of base-[n] digits of [k], lowest first, read from its last
    element down, is [k]. *)
Lemma encode_reverse_digits (n : Z) (t : list Z) :
  2 ≤ n → ∀ k, 0 ≤ k < n ^ len t → (∀ i, nth i t 0 = digit n k i) →
  encode n (reverse t) = k.
Proof.
  intros Hn. induction t as [|d t IH]; intros k Hk Hnth.
  - unfold len in Hk. simpl in Hk. assert (k = 0) as -> by lia. done.
  - rewrite reverse_cons, encode_snoc.
    replace (len (d :: t)) with (Z.succ (len t)) in Hk by (unfold len; simpl; lia).
    rewrite Z.pow_succ_r in Hk by apply len_nonneg.
    rewrite (IH (k `div` n)).
    + pose proof (Hnth 0%nat) as H0. simpl in H0. rewrite digit_O in H0 by done.
      rewrite H0. pose proof (Z.div_mod k n). lia.
    + split; [apply Z.div_pos; lia | apply Z.div_lt_upper_bound; lia].
    + intros i. rewrite <- digit_S by lia. apply (Hnth (S i)).
Qed.

Lemma init_int_value (depth : nat) (k : Z) (nh : Z * Z) (n : Z) (self : CA) :
  __init__ depth (RuleInt k) nh n = Ok self →
  encode n (reverse (rule self)) = k.
Proof.
  intros (Hn & Hl & Hr & t & -> & Hk & Ht)%init_Ok_inv. simpl.
  apply int_to_states_inv in Ht as [Hlen Hnth];
    [| done | unfold window_size; lia | unfold table_length in Hk; lia].
  apply encode_reverse_digits; [done | | done].
  rewrite Hlen. unfold table_length in Hk. lia.
Qed.

(** X3. Round trip of a rule number: the table decoded from [k] by
    [_int_to_states], read backwards by [_neighborhood_to_index] (which
    takes the first element as the most significant digit), gives [k]
    back. *)
Theorem wolfram_round_trip
  (depth : nat) (k : Z) (nh : Z * Z) (state_count : Z) (self : CA) :
  __init__ depth (RuleInt k) nh state_count = Ok self →
  _neighborhood_to_index self (reverse (rule self)) = Ok k.
Proof.
  intros Hinit. pose proof (init_wf _ _ _ _ _ Hinit) as (Hwf & _ & Hst).
  rewrite neighborhood_to_index_Ok
    by (apply Forall_reverse, (wf_rule_bounds _ Hwf)).
  f_equal. rewrite Hst. by eapply init_int_value.
Qed.

Lemma wolfram_round_trip_witness :
  _neighborhood_to_index ca90 (reverse (rule ca90)) = Ok 90.
Proof. apply (wolfram_round_trip 9 90 (1, 1) 2 ca90). reflexivity. Defined.

(** X4. Decoding is injective: two rule numbers that construct, for the
    same radii and number of states, configurations with the same rule
    table are equal. *)
Theorem wolfram_decoding_injective
  (depth1 depth2 : nat) (k1 k2 : Z) (nh : Z * Z) (state_count : Z)
  (ca1 ca2 : CA) :
  __init__ depth1 (RuleInt k1) nh state_count = Ok ca1 →
  __init__ depth2 (RuleInt k2) nh state_count = Ok ca2 →
  rule ca1 = rule ca2 →
  k1 = k2.
Proof.
  intros H1%init_int_value H2%init_int_value Heq. by rewrite <- H1, <- H2, Heq.
Qed.

Lemma wolfram_decoding_injective_witness : 90 = 90.
Proof.
  apply (wolfram_decoding_injective 9 20 90 90 (1, 1) 2 ca90 ca90);
    reflexivity.
Defined.

Lemma init_int_Ok (depth : nat) (k : Z) (nh : Z * Z) (n : Z) (t : list Z) :
  2 ≤ n → 0 ≤ nh.1 → 0 ≤ nh.2 → 0 ≤ k ≤ n ^ table_length n nh - 1 →
  _int_to_states depth n (window_size nh) k = Ok t →
  __init__ depth (RuleInt k) nh n
  = Ok (mkCA t nh n (window_size nh) (table_length n nh)).
Proof.
  intros Hn Hl Hr Hk Ht. unfold __init__.
  destruct (Z.ltb_spec nh.1 0); [lia|]. destruct (Z.ltb_spec nh.2 0); [lia|].
  destruct (Z.ltb_spec n 2); [lia|]. simpl.
  destruct (Z.ltb_spec k 0); [lia|].
  unfold table_length, window_size in *.
  destruct (Z.ltb_spec (n ^ n ^ (nh.1 + nh.2 + 1) - 1) k); [lia|].
  simpl. by rewrite Ht.
Qed.

(** X5. Every rule table is a rule number: a list [T] that passes the
    checks of the list form has, read backwards by
    [_neighborhood_to_index], a value [k] in the range of rule numbers, and
    construction from [k] returns (the interpreter allowing
    [table_length + 1] nested calls) the same configuration as construction
    from [T]. *)
Theorem table_is_rule_number
  (depth : nat) (T : list Z) (nh : Z * Z) (state_count : Z) :
  2 ≤ state_count → 0 ≤ nh.1 → 0 ≤ nh.2 →
  len T = table_length state_count nh →
  Forall (λ x, 0 ≤ x < state_count) T →
  (Z.to_nat (table_length state_count nh) < depth)%nat →
  ∃ self k,
    __init__ depth (RuleList T) nh state_count = Ok self
    ∧ _neighborhood_to_index self (reverse T) = Ok k
    ∧ 0 ≤ k ≤ state_count ^ table_length state_count nh - 1
    ∧ __init__ depth (RuleInt k) nh state_count = Ok self.
Proof.
  intros Hn Hl Hr Hlen Hb Hd.
  set (k := encode state_count (reverse T)).
  assert (0 ≤ k < state_count ^ table_length state_count nh) as Hk.
  { rewrite <- Hlen. replace (len T) with (len (reverse T))
      by (unfold len; by rewrite length_reverse).
    apply encode_bounds; [lia | by apply Forall_reverse]. }
  assert (0 ≤ window_size nh) as Hw by (unfold window_size; lia).
  destruct (int_to_states_returns state_count Hn depth (window_size nh) k)
    as [t Ht]; [done | done | done |].
  pose proof (int_to_states_inv state_count Hn depth _ _ _ Hw Hk Ht) as [Htlen Hnth].
  assert (t = T) as ->.
  { apply (nth_ext _ _ 0 0).
    - unfold len, table_length in *. lia.
    - intros i Hi. rewrite Hnth.
      assert (i < length T)%nat as HiT by (unfold len, table_length in *; lia).
      pose proof (digit_encode state_count (reverse T) Hn
                    (proj2 (Forall_reverse _ _) Hb) (length T - 1 - i)) as Hdig.
      rewrite length_reverse in Hdig. fold k in Hdig.
      replace (length T - 1 - (length T - 1 - i))%nat with i in Hdig by lia.
      rewrite Hdig by lia.
      destruct (lookup_lt_is_Some_2 T i HiT) as [x Hx].
      rewrite (nth_lookup_Some T i 0 x Hx).
      apply nth_lookup_Some.
      rewrite reverse_lookup by lia.
      by replace (length T - S (length T - 1 - i))%nat with i by lia. }
  exists (mkCA T nh state_count (window_size nh) (table_length state_count nh)), k.
  split; [|split; [|split]].
  - by apply init_list.
  - by apply neighborhood_to_index_Ok, Forall_reverse.
  - lia.
  - apply init_int_Ok; [done | done | done | lia | done].
Qed.

Lemma table_is_rule_number_witness :
  ∃ self k,
    __init__ 9 (RuleList [0;1;1;1;1;0;0;0]) (1, 1) 2 = Ok self
    ∧ _neighborhood_to_index self (reverse [0;1;1;1;1;0;0;0]) = Ok k
    ∧ 0 ≤ k ≤ 2 ^ table_length 2 (1, 1) - 1
    ∧ __init__ 9 (RuleInt k) (1, 1) 2 = Ok self.
Proof.
  apply (table_is_rule_number 9 [0;1;1;1;1;0;0;0] (1, 1) 2); simpl; try lia.
  - reflexivity.
  - repeat constructor; lia.
  - vm_compute. lia.
Defined.

(** ** One step, cell by cell *)

Lemma step_lookup (self : CA) (seq : list Z) (pre_pad : bool) (j : nat) :
  Z.of_nat j < len (step self seq pre_pad) →
  step self seq pre_pad !! j
  = Some (next_state self (padded self seq pre_pad) (Z.of_nat j))
  ∧ Z.of_nat j + in_size self ≤ len (padded self seq pre_pad).
Proof.
  unfold step, py_range, len at 1. rewrite length_fmap, length_seqZ. intros Hj.
  rewrite list_lookup_fmap, lookup_seqZ_lt by lia. simpl. split; [done | lia].
Qed.

(** X6. The cells of a step: in every configuration, cell [j] of the
    sequence returned by a step is the entry of the rule table at the index
    of the window that starts at position [j] of the input (of the input
    extended by [left_radius] zeros on the left and [right_radius] zeros on
    the right, with input padding); that window has [window_size] cells and
    its index, the big-endian sum, lies inside the table. *)
Theorem step_cells
  (depth : nat) (r : rule_arg) (nh : Z * Z) (state_count : Z) (self : CA)
  (seq out : list Z) (pad_input : bool) :
  __init__ depth r nh state_count = Ok self →
  _apply_rule self seq pad_input = Ok out →
  ∀ j : nat, Z.of_nat j < len out →
    ∃ window,
      window = take (Z.to_nat (window_size nh))
                 (drop j (if pad_input then zeros nh.1 ++ seq ++ zeros nh.2
                          else seq))
      ∧ len window = window_size nh
      ∧ 0 ≤ big_endian_index state_count (window_size nh) window < len (rule self)
      ∧ out !! j
        = rule self !! Z.to_nat (big_endian_index state_count (window_size nh) window).
Proof.
  intros (Hwf & Hnhd & Hst)%init_wf Hstep j Hj.
  pose proof (wf_in_size _ Hwf) as Hsz. rewrite Hnhd in Hsz.
  pose proof (apply_rule_Ok_inv self Hwf _ _ _ Hstep) as (Hb & _ & Hlen & _).
  rewrite (apply_rule_Ok self Hwf seq pad_input Hb Hlen) in Hstep.
  injection Hstep as <-.
  destruct (step_lookup self seq pad_input j Hj) as [Hlk Hfit].
  pose proof (wf_in_size_pos self Hwf) as Hpos.
  pose proof (padded_bounds self Hwf seq pad_input Hb) as Hpb.
  unfold padded in *. rewrite Hnhd in *.
  set (seq_ := if pad_input then _ else seq) in *.
  eexists. split; [reflexivity|].
  set (window := take _ _).
  assert (len window = window_size nh) as Hwlen.
  { unfold window, len in *. rewrite length_take, length_drop. lia. }
  assert (Forall (λ x, 0 ≤ x < n_states self) window) as Hwb
    by (by apply Forall_take, Forall_drop).
  pose proof (encode_bounds (n_states self) window
                ltac:(pose proof (wf_states _ Hwf); lia) Hwb) as He.
  rewrite encode_big_endian, Hwlen, Hst in He.
  rewrite (wf_rule_len' self Hwf), Hsz, Hst.
  split_and!; [done | lia | lia |].
  rewrite Hlk. unfold next_state. rewrite Hsz, Nat2Z.id. fold window.
  rewrite encode_big_endian, Hwlen, Hst. symmetry. apply lookup_nth_len.
  rewrite (wf_rule_len' self Hwf), Hsz, Hst. lia.
Qed.

Lemma step_cells_witness :
  ∃ window,
    window = take (Z.to_nat (window_size (1, 1)))
               (drop 1 (if true then zeros (1, 1).1 ++ [0;1;0;0;0] ++ zeros (1, 1).2
                        else [0;1;0;0;0]))
    ∧ len window = window_size (1, 1)
    ∧ 0 ≤ big_endian_index 2 (window_size (1, 1)) window < len (rule ca90)
    ∧ [1;0;1;0;0] !! 1%nat
      = rule ca90 !! Z.to_nat (big_endian_index 2 (window_size (1, 1)) window).
Proof.
  apply (step_cells 9 (RuleInt 90) (1, 1) 2 ca90 [0;1;0;0;0] [1;0;1;0;0] true);
    reflexivity.
Defined.

(** X7. The outcome of a step: in every configuration a step returns
    exactly when the sequence passes the two checks at its head (it is long
    enough, or the input is padded, and all its states are in bounds);
    otherwise it raises one of their two exceptions.  Nothing raises inside
    the loop: neither the bounds check of a window nor the subscript of the
    rule table. *)
Theorem step_outcome
  (depth : nat) (r : rule_arg) (nh : Z * Z) (state_count : Z) (self : CA)
  (seq : list Z) (pad_input : bool) :
  __init__ depth r nh state_count = Ok self →
  ((∃ out, _apply_rule self seq pad_input = Ok out)
   ↔ (pad_input = true ∨ window_size nh ≤ len seq)
     ∧ Forall (λ x, 0 ≤ x < state_count) seq)
  ∧ ∀ e, _apply_rule self seq pad_input = Raise e →
         e = SequenceTooShort ∨ e = StateOutOfRange.
Proof.
  intros (Hwf & Hnhd & Hst)%init_wf.
  pose proof (wf_in_size _ Hwf) as Hsz. rewrite Hnhd in Hsz.
  rewrite (apply_rule_cases self Hwf), Hsz, <- Hst, <- forallb_in_bounds.
  destruct pad_input; simpl;
    destruct (Z.ltb_spec (len seq) (window_size nh));
    destruct (forallb (in_bounds (n_states self)) seq); simpl;
    (split; [split; [intros [out Hout] | intros [Hc Hf]] | intros e He]);
    try discriminate; try (injection He as <-);
    intuition (eauto || lia || congruence).
Qed.

Lemma step_outcome_witness :
  ((∃ out, _apply_rule ca90 [0;1;7] false = Ok out)
   ↔ (false = true ∨ window_size (1, 1) ≤ len [0;1;7])
     ∧ Forall (λ x, 0 ≤ x < 2) [0;1;7])
  ∧ ∀ e, _apply_rule ca90 [0;1;7] false = Raise e →
         e = SequenceTooShort ∨ e = StateOutOfRange.
Proof.
  apply (step_outcome 9 (RuleInt 90) (1, 1) 2 ca90 [0;1;7] false). reflexivity.
Defined.

Lemma forallb_zeros (n m : Z) : 1 ≤ n → forallb (in_bounds n) (zeros m) = true.
Proof.
  intros Hn. apply forallb_in_bounds. unfold zeros. apply Forall_replicate. lia.
Qed.

(** X8. Input padding is zero extension: in every configuration, a step
    with input padding on a non-empty sequence is the step without input
    padding on the sequence with [left_radius] zeros put before it and
    [right_radius] zeros after it, with the same result or the same
    exception.  The empty sequence is the exception: with input padding the
    step returns the empty sequence, while its zero extension is one cell
    too short for a step. *)
Theorem pad_input_is_zero_extension
  (depth : nat) (r : rule_arg) (nh : Z * Z) (state_count : Z) (self : CA)
  (seq : list Z) :
  __init__ depth r nh state_count = Ok self →
  (seq ≠ [] →
   _apply_rule self seq true
   = _apply_rule self (zeros nh.1 ++ seq ++ zeros nh.2) false)
  ∧ _apply_rule self [] true = Ok []
  ∧ _apply_rule self (zeros nh.1 ++ [] ++ zeros nh.2) false = Raise SequenceTooShort.
Proof.
  intros (Hwf & Hnhd & Hst)%init_wf.
  pose proof (wf_in_size _ Hwf) as Hsz. rewrite Hnhd in Hsz.
  pose proof (wf_left _ Hwf) as Hl. pose proof (wf_right _ Hwf) as Hr.
  pose proof (wf_states _ Hwf) as Hn. rewrite Hnhd in Hl, Hr.
  rewrite !(apply_rule_cases self Hwf), Hsz. simpl.
  rewrite !len_app, !len_zeros. unfold window_size.
  split_and!.
  - intros Hne.
    assert (0 < len seq) by (destruct seq; [done | unfold len; simpl; lia]).
    destruct (Z.ltb_spec (Z.max 0 nh.1 + (len seq + Z.max 0 nh.2)) (nh.1 + nh.2 + 1));
      [lia|].
    rewrite !forallb_app, !forallb_zeros by lia. rewrite andb_true_r. simpl.
    destruct (forallb (in_bounds (n_states self)) seq); [|done]. simpl.
    unfold step, padded. by rewrite Hnhd.
  - unfold step, padded. rewrite Hnhd, !len_app, !len_zeros, Hsz.
    unfold window_size, py_range, len. simpl.
    by replace (Z.max 0 nh.1 + (Z.of_nat 0 + Z.max 0 nh.2) - (nh.1 + nh.2 + 1) + 1)
      with 0 by lia.
  - by destruct (Z.ltb_spec (Z.max 0 nh.1 + Z.max 0 nh.2) (nh.1 + nh.2 + 1)); [|lia].
Qed.

Lemma pad_input_is_zero_extension_witness :
  ([0;1;0;0;0] ≠ [] →
   _apply_rule ca90 [0;1;0;0;0] true
   = _apply_rule ca90 (zeros (1, 1).1 ++ [0;1;0;0;0] ++ zeros (1, 1).2) false)
  ∧ _apply_rule ca90 [] true = Ok []
  ∧ _apply_rule ca90 (zeros (1, 1).1 ++ [] ++ zeros (1, 1).2) false
    = Raise SequenceTooShort.
Proof.
  apply (pad_input_is_zero_extension 9 (RuleInt 90) (1, 1) 2 ca90 [0;1;0;0;0]).
  reflexivity.
Defined.

(** X9. Radius zero: in a configuration with both radii 0 the window is
    the cell itself, the padding flag of a step makes no difference on a
    non-empty sequence, and the step maps each state [x] of the sequence to
    the entry [x] of the rule table. *)
Theorem radius_zero_step
  (depth : nat) (r : rule_arg) (state_count : Z) (self : CA)
  (seq : list Z) (pad_input : bool) :
  __init__ depth r (0, 0) state_count = Ok self →
  Forall (λ x, 0 ≤ x < state_count) seq →
  (pad_input = false → seq ≠ []) →
  ∃ out,
    _apply_rule self seq pad_input = Ok out
    ∧ length out = length seq
    ∧ ∀ (j : nat) (x : Z), seq !! j = Some x → out !! j = rule self !! Z.to_nat x.
Proof.
  intros (Hwf & Hnhd & Hst)%init_wf Hb Hne. rewrite <- Hst in Hb.
  pose proof (wf_in_size _ Hwf) as Hsz. rewrite Hnhd in Hsz.
  change (window_size (0, 0)) with 1 in Hsz.
  assert (pad_input = false → in_size self ≤ len seq) as Hlen.
  { intros Hp. specialize (Hne Hp). rewrite Hsz.
    destruct seq; [done | unfold len; simpl; lia]. }
  exists (step self seq pad_input). split; [by apply apply_rule_Ok|].
  pose proof (len_step self Hwf seq pad_input Hlen) as Hls.
  assert (len (step self seq pad_input) = len seq) as Hls'
    by (destruct pad_input; lia).
  split; [unfold len in Hls'; lia|].
  intros j x Hx. pose proof (lookup_lt_Some _ _ _ Hx) as Hj.
  destruct (step_lookup self seq pad_input j) as [-> _]; [unfold len in *; lia|].
  assert (padded self seq pad_input = seq) as ->.
  { unfold padded. rewrite Hnhd. destruct pad_input; [|done]. simpl.
    by rewrite app_nil_r. }
  unfold next_state. rewrite Hsz, Nat2Z.id, (drop_S _ _ _ Hx). simpl.
  rewrite take_0, encode_cons. unfold encode at 1, len, py_sum. simpl.
  rewrite Z.pow_0_r, Z.mul_1_r, Z.add_0_r. symmetry. apply lookup_nth_len.
  rewrite Forall_forall in Hb. pose proof (Hb x (list_elem_of_lookup_2 _ _ _ Hx)).
  rewrite (wf_rule_len' self Hwf), Hsz, Z.pow_1_r. lia.
Qed.

Lemma radius_zero_step_witness :
  ∃ out,
    _apply_rule (mkCA [2;0;1] (0, 0) 3 1 3) [0;1;2;2] false = Ok out
    ∧ length out = length [0;1;2;2]
    ∧ ∀ (j : nat) (x : Z), [0;1;2;2] !! j = Some x →
        out !! j = rule (mkCA [2;0;1] (0, 0) 3 1 3) !! Z.to_nat x.
Proof.
  apply (radius_zero_step 0 (RuleList [2;0;1]) 3 (mkCA [2;0;1] (0, 0) 3 1 3)
           [0;1;2;2] false).
  - reflexivity.
  - repeat constructor; lia.
  - done.
Defined.

(** ** The rows of a history *)

(** Output padding is a pass over the history without output padding. *)
Lemma call_post_pad (self : CA) (seq : list Z) (steps : Z) (pre_pad : bool)
  (hist : list (list Z)) :
  __call__ self seq steps pre_pad true = Ok hist
  ↔ ∃ raw, __call__ self seq steps pre_pad false = Ok raw
           ∧ _pad_output self raw = Ok hist.
Proof.
  unfold __call__. destruct (steps <? 1).
  - split; [done | by intros (? & [=] & _)].
  - rewrite bind_Ok. split.
    + intros (raw & Hraw & Hpad). exists raw. by rewrite Hraw.
    + intros (raw & (raw' & Hraw & [= ->])%bind_Ok & Hpad). eauto.
Qed.

Lemma chain_rows (self : CA) (pre_pad : bool) (ext : list (list Z)) :
  ∀ (seq : list Z) (i : nat) (row : list Z),
    chain self pre_pad (seq :: ext) → (seq :: ext) !! i = Some row →
    iter_apply self pre_pad i seq = Ok row.
Proof.
  induction ext as [|b ext IH]; intros seq [|i] row Hch; simpl; try done.
  - by intros [= ->].
  - by intros [= ->].
  - intros Hrow. rewrite (Hch 0%nat seq b eq_refl eq_refl). simpl.
    apply (IH b i row); [|done]. intros j x y. apply (Hch (S j)).
Qed.

Section rows.
Variable self : CA.
Hypothesis Hwf : CA_wf self.

(** The history without output padding: as many rows as steps, plus the
    input, unless the input is empty; row [i] is the result of [i] steps. *)
Lemma call_raw_rows (seq : list Z) (steps : Z) (pre_pad : bool)
  (raw : list (list Z)) :
  __call__ self seq steps pre_pad false = Ok raw →
  1 ≤ steps
  ∧ raw !! 0%nat = Some seq
  ∧ length raw = (if decide (seq = []) then 1 else S (Z.to_nat steps))%nat
  ∧ ∀ (i : nat) (row : list Z),
      raw !! i = Some row → iter_apply self pre_pad i seq = Ok row.
Proof.
  intros (Hsteps & ext & Hch & Hlen & _ & _ & [-> | ([=] & _)])%(call_Ok_inv self Hwf).
  split_and!; try done.
  - simpl. rewrite Hlen. by destruct (decide (seq = [])).
  - intros i row. by apply chain_rows.
Qed.

Lemma iter_apply_row (pre_pad : bool) (i : nat) :
  ∀ (seq row : list Z),
    iter_apply self pre_pad i seq = Ok row →
    len row = (if pre_pad then len seq
               else len seq - Z.of_nat i * (in_size self - 1))
    ∧ ((0 < i)%nat ∨ Forall (λ x, 0 ≤ x < n_states self) seq →
       Forall (λ x, 0 ≤ x < n_states self) row)
    ∧ ((0 < i)%nat → Forall (λ x, 0 ≤ x < n_states self) seq).
Proof.
  induction i as [|i IH]; intros seq row; simpl.
  - intros [= ->]. split_and!; [destruct pre_pad; lia | | lia].
    intros [?|?]; [lia | done].
  - intros (nxt & Hstep & Hit)%bind_Ok.
    apply (apply_rule_Ok_inv self Hwf) in Hstep as (Hb & Hnb & _ & Hlen).
    apply IH in Hit as (Hrl & Hrb & _).
    split_and!; [destruct pre_pad; lia | auto | done].
Qed.

(** The rows of a history without output padding hold states in bounds. *)
Lemma call_raw_bounds (seq : list Z) (steps : Z) (pre_pad : bool)
  (raw : list (list Z)) :
  __call__ self seq steps pre_pad false = Ok raw →
  Forall (Forall (λ x, 0 ≤ x < n_states self)) raw.
Proof.
  intros Hcall. pose proof (call_raw_rows _ _ _ _ Hcall) as (Hsteps & _ & Hlen & Hrows).
  assert (Forall (λ x, 0 ≤ x < n_states self) seq) as Hseq.
  { destruct (decide (seq = [])) as [->|_]; [constructor|].
    destruct (lookup_lt_is_Some_2 raw 1) as [row Hrow]; [lia|].
    apply Hrows, iter_apply_row in Hrow as (_ & _ & Hb). apply Hb. lia. }
  apply Forall_lookup_2. intros i row Hrow.
  apply Hrows, iter_apply_row in Hrow as (_ & Hb & _). auto.
Qed.

Lemma zeros_bounds (m : Z) : Forall (λ x, 0 ≤ x < n_states self) (zeros m).
Proof.
  unfold zeros. apply Forall_replicate. pose proof (wf_states _ Hwf). lia.
Qed.

Lemma pad_row_bounds (max_len : Z) (row : list Z) :
  Forall (λ x, 0 ≤ x < n_states self) row →
  Forall (λ x, 0 ≤ x < n_states self) (pad_row self max_len row).
Proof.
  intros Hb. destruct (pad_row_shape self max_len row) as (a & b & ->).
  rewrite !Forall_app. split_and!; [apply zeros_bounds | done | apply zeros_bounds].
Qed.

(** [_pad_output] on a non-empty history of rows in bounds. *)
Lemma pad_output_rows (seqs out : list (list Z)) :
  _pad_output self seqs = Ok out →
  Forall (Forall (λ x, 0 ≤ x < n_states self)) seqs
  ∧ (out = seqs
     ∨ ∃ max_len min_len,
         1 < in_size self ∧ min_len < max_len
         ∧ py_max (len <$> seqs) = Ok max_len
         ∧ py_min (len <$> seqs) = Ok min_len
         ∧ out = pad_row self max_len <$> seqs).
Proof.
  intros Hpad.
  assert (Forall (Forall (λ x, 0 ≤ x < n_states self)) seqs) as Hb.
  { unfold _pad_output in Hpad. apply bind_Ok in Hpad as ([] & Hchk & _).
    apply for_loop_check in Hchk. eapply Forall_impl; [exact Hchk|].
    intros row. apply states_in_bounds_Ok. }
  split; [done|].
  destruct (Z.ltb_spec 1 (in_size self)) as [Hsz|Hsz];
    [|rewrite pad_output_narrow in Hpad by done; left; congruence].
  destruct (py_max (len <$> seqs)) as [max_len|e] eqn:Hmax.
  2: { unfold _pad_output in Hpad. rewrite pad_output_checks in Hpad by done.
       simpl in Hpad. destruct (Z.ltb_spec 1 (in_size self)); [|lia].
       by rewrite Hmax in Hpad. }
  destruct (py_min (len <$> seqs)) as [min_len|e] eqn:Hmin.
  2: { unfold _pad_output in Hpad. rewrite pad_output_checks in Hpad by done.
       simpl in Hpad. destruct (Z.ltb_spec 1 (in_size self)); [|lia].
       by rewrite Hmax, Hmin in Hpad. }
  rewrite (pad_output_Ok self _ _ _ Hb Hsz Hmax Hmin) in Hpad.
  destruct (min_len <? max_len) eqn:Hlt; [|left; congruence].
  apply Z.ltb_lt in Hlt. injection Hpad as <-. right. by exists max_len, min_len.
Qed.
End rows.

Section padded_rows.
Variable self : CA.
Hypothesis Hwf : CA_wf self.

(** In a history of [__call__] every row has fallen short of the input by a
    multiple of [in_size - 1]: its pads are whole multiples of the radii. *)
Lemma pad_row_aligned (L : Z) (i : nat) (row : list Z) :
  len row = L - Z.of_nat i * (in_size self - 1) →
  pad_row self L row
  = zeros (Z.of_nat i * (nhd self).1) ++ row ++ zeros (Z.of_nat i * (nhd self).2).
Proof.
  intros Hlen. unfold pad_row.
  pose proof (wf_in_size _ Hwf) as Hsz. unfold window_size in Hsz.
  pose proof (wf_left _ Hwf). pose proof (wf_right _ Hwf).
  destruct (Z.ltb_spec 0 (L - len row)) as [Hfill|Hfill].
  - replace (L - len row) with (Z.of_nat i * (in_size self - 1)) in * by lia.
    assert (in_size self - 1 ≠ 0) by nia.
    rewrite Z.div_mul, Z.mod_mul by done.
    change (0 `div` 2) with 0. change (0 `mod` 2) with 0.
    by rewrite !Z.add_0_r.
  - assert (Z.of_nat i * (nhd self).1 = 0 ∧ Z.of_nat i * (nhd self).2 = 0)
      as [-> ->] by nia.
    simpl. by rewrite app_nil_r.
Qed.

(** The history with output padding, from the one without. *)
Lemma call_padded_rows (seq : list Z) (steps : Z) (pre_pad : bool)
  (hist : list (list Z)) :
  __call__ self seq steps pre_pad true = Ok hist →
  ∃ raw,
    __call__ self seq steps pre_pad false = Ok raw
    ∧ length hist = length raw
    ∧ ∀ (i : nat) (row : list Z), raw !! i = Some row →
        len row ≤ len seq
        ∧ hist !! i = Some (if decide (1 < in_size self)
                            then pad_row self (len seq) row else row).
Proof.
  intros (raw & Hraw & Hpad)%call_post_pad. exists raw. split; [done|].
  pose proof (call_raw_rows self Hwf _ _ _ _ Hraw) as (_ & Hhd & _ & Hrows).
  pose proof (call_raw_bounds self Hwf _ _ _ _ Hraw) as Hb.
  pose proof (wf_in_size_pos self Hwf) as Hpos.
  assert (∀ (i : nat) (row : list Z), raw !! i = Some row → len row ≤ len seq)
    as Hle.
  { intros i row Hrow. apply Hrows, (iter_apply_row self Hwf) in Hrow as (Hl & _).
    destruct pre_pad; nia. }
  destruct (decide (1 < in_size self)) as [Hsz|Hsz].
  2: { rewrite pad_output_narrow in Hpad by (done || lia). injection Hpad as <-.
       split; [done|]. intros i row Hrow. split; [by eapply Hle | done]. }
  assert (py_max (len <$> raw) = Ok (len seq)) as Hmax.
  { apply py_max_spec. split.
    - apply list_elem_of_fmap. exists seq. split; [done|].
      by eapply list_elem_of_lookup_2.
    - intros x (row & -> & [i Hrow]%list_elem_of_lookup)%list_elem_of_fmap.
      by eapply Hle. }
  destruct (py_min (len <$> raw)) as [min_len|e] eqn:Hmin.
  2: { destruct raw; [done | discriminate Hmin]. }
  rewrite (pad_output_Ok self _ _ _ Hb Hsz Hmax Hmin) in Hpad.
  injection Hpad as <-.
  destruct (Z.ltb_spec min_len (len seq)) as [Hlt|Hge].
  - split; [by rewrite length_fmap|]. intros i row Hrow.
    split; [by eapply Hle|]. by rewrite list_lookup_fmap, Hrow.
  - split; [done|]. intros i row Hrow. split; [by eapply Hle|].
    rewrite Hrow, pad_row_full; [done|].
    apply py_min_spec in Hmin as [_ Hmin]. etrans; [exact Hge|].
    apply Hmin, list_elem_of_fmap. exists row. split; [done|].
    by eapply list_elem_of_lookup_2.
Qed.
End padded_rows.

(** X10. Every state of a returned history is in bounds: in every
    configuration, whatever the padding flags, each row of the history that
    [__call__] returns, the first one and the padded ones included, holds
    states of [[0, state_count)] only. *)
Theorem history_in_bounds
  (depth : nat) (r : rule_arg) (nh : Z * Z) (state_count : Z) (self : CA)
  (seq : list Z) (steps : Z) (pad_input pad_output : bool)
  (hist : list (list Z)) :
  __init__ depth r nh state_count = Ok self →
  __call__ self seq steps pad_input pad_output = Ok hist →
  Forall (Forall (λ x, 0 ≤ x < state_count)) hist.
Proof.
  intros (Hwf & _ & Hst)%init_wf Hcall. rewrite <- Hst.
  destruct pad_output; [|by eapply call_raw_bounds].
  apply call_post_pad in Hcall as (raw & Hraw & Hpad).
  apply (pad_output_rows self) in Hpad
    as [Hb [-> | (max_len & _ & _ & _ & _ & _ & ->)]]; [done|].
  apply Forall_fmap. eapply Forall_impl; [exact Hb|].
  intros row. apply (pad_row_bounds self Hwf).
Qed.

Lemma history_in_bounds_witness :
  Forall (Forall (λ x, 0 ≤ x < 2)) [[0;1;0;0;0]; [0;0;1;0;0]; [0;0;0;0;0]].
Proof.
  apply (history_in_bounds 9 (RuleInt 90) (1, 1) 2 ca90 [0;1;0;0;0] 2 false true);
    reflexivity.
Defined.

(** X11. Shrinking evolution: in every configuration, a call without input
    and without output padding that returns has a history of [steps + 1]
    rows, and row [i] is [i * (window_size - 1)] cells shorter than the
    input. *)
Theorem shrinking_rows
  (depth : nat) (r : rule_arg) (nh : Z * Z) (state_count : Z) (self : CA)
  (seq : list Z) (steps : Z) (hist : list (list Z)) :
  __init__ depth r nh state_count = Ok self →
  __call__ self seq steps false false = Ok hist →
  len hist = steps + 1
  ∧ ∀ (i : nat) (row : list Z), hist !! i = Some row →
      len row = len seq - Z.of_nat i * (window_size nh - 1).
Proof.
  intros (Hwf & Hnhd & _)%init_wf Hcall.
  pose proof (wf_in_size _ Hwf) as Hsz. rewrite Hnhd in Hsz. rewrite <- Hsz.
  pose proof (call_raw_rows self Hwf _ _ _ _ Hcall) as (Hsteps & _ & Hlen & Hrows).
  split.
  - destruct (decide (seq = [])) as [->|_]; [|unfold len; lia].
    by rewrite call_empty_unpadded in Hcall.
  - intros i row Hrow. by apply Hrows, (iter_apply_row self Hwf) in Hrow as (? & _).
Qed.

Lemma shrinking_rows_witness :
  len [[0;1;0;0;0]; [0;1;0]; [0]] = 2 + 1
  ∧ ∀ (i : nat) (row : list Z), [[0;1;0;0;0]; [0;1;0]; [0]] !! i = Some row →
      len row = len [0;1;0;0;0] - Z.of_nat i * (window_size (1, 1) - 1).
Proof.
  apply (shrinking_rows 9 (RuleInt 90) (1, 1) 2 ca90 [0;1;0;0;0] 2); reflexivity.
Defined.

(** X12. Output padding keeps the cells in place: in every configuration, a
    call without input padding and with output padding returns the history
    of the same call without output padding, in which row [i] has
    [i * left_radius] zeros put before it and [i * right_radius] zeros
    after it.  (Cell [j] of a row was computed from the cells [j] to
    [j + window_size - 1] of the row before; after padding it stands above
    the cell of that window that has [left_radius] cells to its left.) *)
Theorem output_padding_alignment
  (depth : nat) (r : rule_arg) (nh : Z * Z) (state_count : Z) (self : CA)
  (seq : list Z) (steps : Z) (hist : list (list Z)) :
  __init__ depth r nh state_count = Ok self →
  __call__ self seq steps false true = Ok hist →
  ∃ raw,
    __call__ self seq steps false false = Ok raw
    ∧ length hist = length raw
    ∧ ∀ (i : nat) (row : list Z), raw !! i = Some row →
        hist !! i
        = Some (zeros (Z.of_nat i * nh.1) ++ row ++ zeros (Z.of_nat i * nh.2)).
Proof.
  intros (Hwf & Hnhd & _)%init_wf Hcall.
  apply (call_padded_rows self Hwf) in Hcall as (raw & Hraw & Hlen & Hrows).
  exists raw. split_and!; try done. intros i row Hrow.
  destruct (Hrows i row Hrow) as [_ ->]. f_equal.
  pose proof (call_raw_rows self Hwf _ _ _ _ Hraw) as (_ & _ & _ & Hit).
  apply Hit, (iter_apply_row self Hwf) in Hrow as (Hl & _).
  rewrite <- Hnhd, <- (pad_row_aligned self Hwf (len seq) i row Hl).
  destruct (decide (1 < in_size self)) as [|Hsz]; [done|].
  symmetry. apply pad_row_full.
  pose proof (wf_in_size_pos self Hwf). nia.
Qed.

Lemma output_padding_alignment_witness :
  ∃ raw,
    __call__ ca90 [0;1;0;0;0;0;0] 3 false false = Ok raw
    ∧ length [[0;1;0;0;0;0;0]; [0;0;1;0;0;0;0]; [0;0;0;1;0;0;0]; [0;0;0;0;0;0;0]]
      = length raw
    ∧ ∀ (i : nat) (row : list Z), raw !! i = Some row →
        [[0;1;0;0;0;0;0]; [0;0;1;0;0;0;0]; [0;0;0;1;0;0;0]; [0;0;0;0;0;0;0]] !! i
        = Some (zeros (Z.of_nat i * (1, 1).1) ++ row ++ zeros (Z.of_nat i * (1, 1).2)).
Proof.
  apply (output_padding_alignment 9 (RuleInt 90) (1, 1) 2 ca90 [0;1;0;0;0;0;0] 3);
    reflexivity.
Defined.

(** X13. Output padding gives a rectangle: in every configuration, with or
    without input padding, every row of the history returned by a call with
    output padding has the length of the input sequence. *)
Theorem padded_history_rectangular
  (depth : nat) (r : rule_arg) (nh : Z * Z) (state_count : Z) (self : CA)
  (seq : list Z) (steps : Z) (pad_input : bool) (hist : list (list Z)) :
  __init__ depth r nh state_count = Ok self →
  __call__ self seq steps pad_input true = Ok hist →
  Forall (λ row, len row = len seq) hist.
Proof.
  intros (Hwf & Hnhd & _)%init_wf Hcall.
  apply (call_padded_rows self Hwf) in Hcall as (raw & Hraw & Hlen & Hrows).
  pose proof (call_raw_rows self Hwf _ _ _ _ Hraw) as (_ & _ & _ & Hit).
  apply Forall_lookup_2. intros i hrow Hh.
  destruct (lookup_lt_is_Some_2 raw i) as [row Hrow];
    [rewrite <- Hlen; by eapply lookup_lt_Some|].
  destruct (Hrows i row Hrow) as [Hle Hh']. rewrite Hh in Hh'. injection Hh' as ->.
  destruct (decide (1 < in_size self)) as [Hsz|Hsz]; [by apply len_pad_row|].
  apply Hit, (iter_apply_row self Hwf) in Hrow as (Hl & _).
  pose proof (wf_in_size_pos self Hwf). destruct pad_input; [done | nia].
Qed.

Lemma padded_history_rectangular_witness :
  Forall (λ row, len row = len [0;1;0;0;0])
    [[0;1;0;0;0]; [0;0;1;0;0]; [0;0;0;0;0]].
Proof.
  apply (padded_history_rectangular 9 (RuleInt 90) (1, 1) 2 ca90 [0;1;0;0;0] 2 false);
    reflexivity.
Defined.

(** ** When a call returns *)

Section returns.
Variable self : CA.
Hypothesis Hwf : CA_wf self.

(** [_pad_output] returns on every non-empty history of rows in bounds. *)
Lemma pad_output_returns (seqs : list (list Z)) :
  Forall (Forall (λ x, 0 ≤ x < n_states self)) seqs →
  seqs ≠ [] ∨ in_size self ≤ 1 →
  ∃ out, _pad_output self seqs = Ok out.
Proof.
  intros Hb Hne. destruct (Z.ltb_spec 1 (in_size self)) as [Hsz|Hsz];
    [|rewrite pad_output_narrow by done; eauto].
  destruct Hne as [Hne|?]; [|lia]. destruct seqs as [|row seqs]; [done|].
  erewrite pad_output_Ok; [eauto | done | done | done | done].
Qed.

Lemma call_loop_returns (pre_pad : bool) (iters : nat) :
  ∀ (out0 : list (list Z)) (cur : list Z),
    Forall (λ x, 0 ≤ x < n_states self) cur →
    (pre_pad = false → Z.of_nat iters * (in_size self - 1) + 1 ≤ len cur) →
    ∃ out', call_loop self pre_pad iters (out0 ++ [cur]) = Ok out'.
Proof.
  pose proof (wf_in_size_pos self Hwf) as Hpos.
  induction iters as [|iters IH]; intros out0 cur Hb Hlen; simpl; [eauto|].
  rewrite py_getitem_last. simpl.
  assert (pre_pad = false → in_size self ≤ len cur) as Hfit
    by (intros Hp; specialize (Hlen Hp); nia).
  rewrite (apply_rule_Ok self Hwf cur pre_pad Hb Hfit). simpl.
  destruct (0 <? len (step self cur pre_pad)); [|eauto].
  apply IH; [apply (step_bounds self Hwf)|].
  intros Hp. rewrite (len_step self Hwf cur pre_pad Hfit), Hp.
  specialize (Hlen Hp). lia.
Qed.
End returns.

Ltac outcome_cases :=
  repeat split; intros;
  repeat match goal with
         | H : ∃ _, _ |- _ => destruct H
         | H : _ ∧ _ |- _ => destruct H
         | H : _ ∨ _ |- _ => destruct H
         end;
  eauto; try done; try lia; try nia.

(** The three outcomes of a call with [steps >= 1] in a well-formed
    configuration. *)
Lemma call_cases (self : CA) (seq : list Z) (steps : Z)
  (pre_pad post_pad : bool) :
  CA_wf self → 1 ≤ steps →
  Forall (λ x, 0 ≤ x < n_states self) seq
  ∧ (pre_pad = false → steps * (in_size self - 1) + 1 ≤ len seq)
  ∧ (∃ hist, __call__ self seq steps pre_pad post_pad = Ok hist)
  ∨ ¬ Forall (λ x, 0 ≤ x < n_states self) seq
    ∧ (pre_pad = false → in_size self ≤ len seq)
    ∧ __call__ self seq steps pre_pad post_pad = Raise StateOutOfRange
  ∨ pre_pad = false
    ∧ (len seq < in_size self
       ∨ Forall (λ x, 0 ≤ x < n_states self) seq
         ∧ len seq < steps * (in_size self - 1) + 1)
    ∧ __call__ self seq steps pre_pad post_pad = Raise SequenceTooShort.
Proof.
  intros Hwf Hsteps. pose proof (wf_in_size_pos self Hwf) as Hpos.
  set (inb := Forall (λ x, 0 ≤ x < n_states self) seq).
  assert (inb → (pre_pad = false → steps * (in_size self - 1) + 1 ≤ len seq) →
          ∃ hist, __call__ self seq steps pre_pad post_pad = Ok hist) as Hok.
  { intros Hb Hlen. unfold __call__. destruct (Z.ltb_spec steps 1); [lia|].
    destruct (call_loop_returns self Hwf pre_pad (Z.to_nat steps) [] seq Hb)
      as [raw Hraw]; [intros Hp; specialize (Hlen Hp); lia|].
    simpl in Hraw. rewrite Hraw. simpl. destruct post_pad; [|eauto].
    apply (pad_output_returns self).
    - apply (call_raw_bounds self Hwf seq steps pre_pad). unfold __call__.
      destruct (Z.ltb_spec steps 1); [lia|]. by rewrite Hraw.
    - left. apply (call_loop_inv self Hwf _ _ []) in Hraw as (ext & -> & _). done. }
  assert (¬ inb → (pre_pad = false → in_size self ≤ len seq) →
          __call__ self seq steps pre_pad post_pad = Raise StateOutOfRange)
    as Hoor.
  { intros Hb Hlen. unfold __call__. destruct (Z.ltb_spec steps 1); [lia|].
    destruct (Z.to_nat steps) as [|k] eqn:Hk; [lia|]. simpl.
    rewrite (apply_rule_cases self Hwf).
    destruct (negb pre_pad && (len seq <? in_size self)) eqn:Hshort.
    { apply andb_true_iff in Hshort as [->%negb_true_iff ?%Z.ltb_lt].
      specialize (Hlen eq_refl). lia. }
    destruct (forallb (in_bounds (n_states self)) seq) eqn:Hfb; [|done].
    by apply forallb_in_bounds in Hfb. }
  assert (pre_pad = false →
          len seq < in_size self ∨ inb ∧ len seq < steps * (in_size self - 1) + 1 →
          __call__ self seq steps pre_pad post_pad = Raise SequenceTooShort)
    as Hshort.
  { intros -> Hcase. unfold __call__. destruct (Z.ltb_spec steps 1); [lia|].
    assert (∃ (j : nat) cur, (j < Z.to_nat steps)%nat
              ∧ iter_apply self false j seq = Ok cur ∧ len cur < in_size self)
      as (j & cur & Hj & Hit & Hcur).
    { destruct Hcase as [Hlt | [Hb Hlt]]; [exists 0%nat, seq; split_and!; [lia|done..]|].
      destruct (iter_apply_lengths self Hwf (Z.to_nat steps - 1) seq Hb)
        as [(j & cur & Hj & Hit & Hcur) | (cur & Hit & Hcur & Hge)].
      - exists j, cur. split_and!; [lia | done | done].
      - nia. }
    pose proof (call_loop_too_short self Hwf (Z.to_nat steps) j [] seq cur
                  Hj Hit Hcur) as Hloop.
    simpl in Hloop. by rewrite Hloop. }
  assert (Decision inb) as Hdec by (unfold inb; apply _).
  clearbody inb.
  destruct Hdec as [Hb|Hb]; destruct pre_pad.
  - left. split_and!; [done | done | by apply Hok].
  - destruct (decide (steps * (in_size self - 1) + 1 ≤ len seq)) as [Hlen|Hlen].
    + left. split_and!; [done | done | by apply Hok].
    + right. right. split_and!; [done | right; split; [done | lia] |].
      apply Hshort; [done | right; split; [done | lia]].
  - right. left. split_and!; [done | done | by apply Hoor].
  - destruct (decide (in_size self ≤ len seq)) as [Hlen|Hlen].
    + right. left. split_and!; [done | done | by apply Hoor].
    + right. right. split_and!; [done | left; lia | apply Hshort; [done | left; lia]].
Qed.

(** X14. When a call returns: in every configuration and for
    [steps >= 1], a call with input padding returns exactly when all states
    of the input are in bounds, and fails with [StateOutOfRange] otherwise;
    a call without input padding returns exactly when moreover
    [len(seq) >= steps * (window_size - 1) + 1], it fails with
    [SequenceTooShort] when the input is shorter than [window_size] or, its
    states being in bounds, shorter than that, and with [StateOutOfRange]
    when the input has [window_size] cells or more and a state out of
    bounds.  The output padding flag plays no part, and a call raises no
    other exception. *)
Theorem call_outcome
  (depth : nat) (r : rule_arg) (nh : Z * Z) (state_count : Z) (self : CA)
  (seq : list Z) (steps : Z) (pad_input pad_output : bool) :
  __init__ depth r nh state_count = Ok self →
  1 ≤ steps →
  ((∃ hist, __call__ self seq steps pad_input pad_output = Ok hist)
   ↔ Forall (λ x, 0 ≤ x < state_count) seq
     ∧ (pad_input = false → steps * (window_size nh - 1) + 1 ≤ len seq))
  ∧ (__call__ self seq steps pad_input pad_output = Raise StateOutOfRange
     ↔ ¬ Forall (λ x, 0 ≤ x < state_count) seq
       ∧ (pad_input = false → window_size nh ≤ len seq))
  ∧ (__call__ self seq steps pad_input pad_output = Raise SequenceTooShort
     ↔ pad_input = false
       ∧ (len seq < window_size nh
          ∨ Forall (λ x, 0 ≤ x < state_count) seq
            ∧ len seq < steps * (window_size nh - 1) + 1)).
Proof.
  intros (Hwf & Hnhd & Hst)%init_wf Hsteps.
  pose proof (wf_in_size _ Hwf) as Hsz. rewrite Hnhd in Hsz.
  pose proof (wf_in_size_pos self Hwf) as Hpos. rewrite <- Hst, <- Hsz.
  destruct (call_cases self seq steps pad_input pad_output Hwf Hsteps)
    as [(Hb & Hlen & hist & ->) | [(Hb & Hlen & ->) | (-> & Hc & ->)]].
  - outcome_cases; specialize (Hlen ltac:(assumption)); nia.
  - outcome_cases; specialize (Hlen ltac:(assumption)); nia.
  - outcome_cases.
Qed.

Lemma call_outcome_witness :
  ((∃ hist, __call__ ca90 [0;1;0;0;0] 3 false true = Ok hist)
   ↔ Forall (λ x, 0 ≤ x < 2) [0;1;0;0;0]
     ∧ (false = false → 3 * (window_size (1, 1) - 1) + 1 ≤ len [0;1;0;0;0]))
  ∧ (__call__ ca90 [0;1;0;0;0] 3 false true = Raise StateOutOfRange
     ↔ ¬ Forall (λ x, 0 ≤ x < 2) [0;1;0;0;0]
       ∧ (false = false → window_size (1, 1) ≤ len [0;1;0;0;0]))
  ∧ (__call__ ca90 [0;1;0;0;0] 3 false true = Raise SequenceTooShort
     ↔ false = false
       ∧ (len [0;1;0;0;0] < window_size (1, 1)
          ∨ Forall (λ x, 0 ≤ x < 2) [0;1;0;0;0]
            ∧ len [0;1;0;0;0] < 3 * (window_size (1, 1) - 1) + 1)).
Proof.
  apply (call_outcome 9 (RuleInt 90) (1, 1) 2 ca90 [0;1;0;0;0] 3 false true).
  - reflexivity.
  - lia.
Defined.

(** X15. The step count is checked first: in every configuration a call
    fails with [InvalidStepCount] exactly when [steps < 1], whatever the
    input sequence is, valid or not. *)
Theorem call_invalid_step_count
  (depth : nat) (r : rule_arg) (nh : Z * Z) (state_count : Z) (self : CA)
  (seq : list Z) (steps : Z) (pad_input pad_output : bool) :
  __init__ depth r nh state_count = Ok self →
  __call__ self seq steps pad_input pad_output = Raise InvalidStepCount
  ↔ steps < 1.
Proof.
  intros (Hwf & _ & _)%init_wf. split.
  - intros Hcall. destruct (decide (steps < 1)) as [|Hsteps]; [done|].
    destruct (call_cases self seq steps pad_input pad_output Hwf ltac:(lia))
      as [(_ & _ & hist & Hh) | [(_ & _ & Hh) | (_ & _ & Hh)]]; congruence.
  - intros Hsteps. unfold __call__. by destruct (Z.ltb_spec steps 1); [|lia].
Qed.

Lemma call_invalid_step_count_witness :
  __call__ ca90 [7; 7] 0 false true = Raise InvalidStepCount ↔ 0 < 1.
Proof.
  apply (call_invalid_step_count 9 (RuleInt 90) (1, 1) 2 ca90 [7; 7] 0 false true).
  reflexivity.
Defined.

(** ** [_pad_output] on its own *)

Lemma pad_output_check_fails (self : CA) (seqs : list (list Z)) :
  ¬ Forall (Forall (λ x, 0 ≤ x < n_states self)) seqs →
  _pad_output self seqs = Raise StateOutOfRange.
Proof.
  intros Hb. unfold _pad_output.
  assert (for_loop (λ _ seq, _states_in_bounds self seq) seqs ()
          = Raise StateOutOfRange) as ->; [|done].
  induction seqs as [|row seqs IH]; [by destruct Hb|]. simpl.
  rewrite states_in_bounds_spec.
  destruct (forallb (in_bounds (n_states self)) row) eqn:Hrow; [|done]. simpl.
  apply IH. intros HF. apply Hb. constructor; [by apply forallb_in_bounds | done].
Qed.

(** X16. Padding is idempotent: in every configuration, a history that
    [_pad_output] returns is returned unchanged when it is padded again. *)
Theorem pad_output_idempotent
  (depth : nat) (r : rule_arg) (nh : Z * Z) (state_count : Z) (self : CA)
  (seqs out : list (list Z)) :
  __init__ depth r nh state_count = Ok self →
  _pad_output self seqs = Ok out →
  _pad_output self out = Ok out.
Proof.
  intros (Hwf & _ & _)%init_wf Hpad. pose proof Hpad as Hpad0.
  apply (pad_output_rows self) in Hpad
    as [Hb [-> | (max_len & min_len & Hsz & Hlt & Hmax & Hmin & ->)]]; [done|].
  assert (Forall (λ row, len row ≤ max_len) seqs) as Hle.
  { apply Forall_forall. intros row Hin. apply py_max_spec in Hmax as [_ Hmax].
    by apply Hmax, list_elem_of_fmap_2. }
  assert (Forall (λ row, len row = max_len) (pad_row self max_len <$> seqs)) as Hlens.
  { apply Forall_fmap. eapply Forall_impl; [exact Hle|]. intros row ?.
    by apply len_pad_row. }
  assert (pad_row self max_len <$> seqs ≠ []) as Hne
    by (destruct seqs; [discriminate Hmax | done]).
  assert (∀ m, m ∈ len <$> (pad_row self max_len <$> seqs) → m = max_len) as Hall.
  { intros m (row & -> & Hin)%list_elem_of_fmap. rewrite Forall_forall in Hlens. auto. }
  assert (∃ m, m ∈ len <$> (pad_row self max_len <$> seqs)) as [m Hm].
  { destruct seqs; [discriminate Hmax|]. eexists. left. }
  pose proof (Hall m Hm) as ->.
  rewrite (pad_output_Ok self _ max_len max_len).
  - by rewrite Z.ltb_irrefl.
  - apply Forall_fmap. eapply Forall_impl; [exact Hb|].
    intros row. apply (pad_row_bounds self Hwf).
  - done.
  - apply py_max_spec. split; [done|]. intros x ->%Hall. lia.
  - apply py_min_spec. split; [done|]. intros x ->%Hall. lia.
Qed.

Lemma pad_output_idempotent_witness :
  _pad_output ca90 [[0;1;0;0;0]; [0;0;1;0;0]; [0;0;0;0;0]]
  = Ok [[0;1;0;0;0]; [0;0;1;0;0]; [0;0;0;0;0]].
Proof.
  apply (pad_output_idempotent 9 (RuleInt 90) (1, 1) 2 ca90
           [[0;1;0;0;0]; [0;1;0]; [0]]); reflexivity.
Defined.

(** X17. The failures of [_pad_output]: in every configuration it fails
    with [StateOutOfRange] exactly when some row holds a state out of
    bounds (the rows are checked before anything else); on the empty
    history it fails, through [max] of an empty list, when
    [window_size > 1], and returns the empty history when
    [window_size = 1]; on every other history it returns a history of as
    many rows. *)
Theorem pad_output_failures
  (depth : nat) (r : rule_arg) (nh : Z * Z) (state_count : Z) (self : CA)
  (seqs : list (list Z)) :
  __init__ depth r nh state_count = Ok self →
  (_pad_output self seqs = Raise StateOutOfRange
   ↔ ¬ Forall (Forall (λ x, 0 ≤ x < state_count)) seqs)
  ∧ (_pad_output self seqs = Raise EmptyArgument
     ↔ seqs = [] ∧ 1 < window_size nh)
  ∧ ((∃ out, _pad_output self seqs = Ok out ∧ length out = length seqs)
     ↔ Forall (Forall (λ x, 0 ≤ x < state_count)) seqs
       ∧ (seqs ≠ [] ∨ window_size nh = 1)).
Proof.
  intros (Hwf & Hnhd & Hst)%init_wf.
  pose proof (wf_in_size _ Hwf) as Hsz. rewrite Hnhd in Hsz.
  pose proof (wf_in_size_pos self Hwf) as Hpos. rewrite <- Hst, <- Hsz.
  destruct (decide (Forall (Forall (λ x, 0 ≤ x < n_states self)) seqs)) as [Hb|Hb].
  2: { rewrite pad_output_check_fails by done. outcome_cases.
       subst. destruct Hb. constructor. }
  destruct (decide (seqs = [] ∧ 1 < in_size self)) as [[-> Hw]|Hne].
  { assert (_pad_output self [] = Raise EmptyArgument) as ->.
    { unfold _pad_output. simpl. by destruct (Z.ltb_spec 1 (in_size self)); [|lia]. }
    outcome_cases. }
  destruct (pad_output_returns self seqs Hb) as [out Hout].
  { destruct seqs; [right | by left]. apply not_and_l in Hne as [?|?]; [done | lia]. }
  rewrite Hout.
  assert (length out = length seqs) as Hlen.
  { apply (pad_output_rows self) in Hout as [_ [-> | (? & ? & _ & _ & _ & _ & ->)]];
      [done | by rewrite length_fmap]. }
  outcome_cases.
  - destruct Hne. done.
  - destruct seqs; [right | by left]. apply not_and_l in Hne as [?|?]; [done | lia].
Qed.

Lemma pad_output_failures_witness :
  (_pad_output ca90 [[0;1;0]; [7]] = Raise StateOutOfRange
   ↔ ¬ Forall (Forall (λ x, 0 ≤ x < 2)) [[0;1;0]; [7]])
  ∧ (_pad_output ca90 [[0;1;0]; [7]] = Raise EmptyArgument
     ↔ [[0;1;0]; [7]] = [] ∧ 1 < window_size (1, 1))
  ∧ ((∃ out, _pad_output ca90 [[0;1;0]; [7]] = Ok out
             ∧ length out = length [[0;1;0]; [7]])
     ↔ Forall (Forall (λ x, 0 ≤ x < 2)) [[0;1;0]; [7]]
       ∧ ([[0;1;0]; [7]] ≠ [] ∨ window_size (1, 1) = 1)).
Proof.
  apply (pad_output_failures 9 (RuleInt 90) (1, 1) 2 ca90 [[0;1;0]; [7]]).
  reflexivity.
Defined.

Example pad_output_empty_history :
  _pad_output ca90 [] = Raise EmptyArgument
  ∧ _pad_output (mkCA [1;0] (0, 0) 2 1 2) [] = Ok [].
Proof. split; reflexivity. Qed.

(** ** The unused index check *)

(** X18. [_check_rule_ix] admits every index of the rule table and one
    more: in every configuration it passes exactly the indices from 0 to
    the length of the rule table inclusive.  So it passes the index of
    every window of [window_size] states in bounds, but also the length of
    the table itself, at which the subscript of the table raises
    [IndexError]. *)
Theorem check_rule_ix_off_by_one
  (depth : nat) (r : rule_arg) (nh : Z * Z) (state_count : Z) (self : CA) :
  __init__ depth r nh state_count = Ok self →
  (∀ ix, _check_rule_ix self ix = Passes ↔ 0 ≤ ix ≤ len (rule self))
  ∧ (∀ w ix, len w = window_size nh → _neighborhood_to_index self w = Ok ix →
       _check_rule_ix self ix = Passes
       ∧ ∃ x, py_getitem (rule self) ix = Ok x)
  ∧ _check_rule_ix self (len (rule self)) = Passes
  ∧ py_getitem (rule self) (len (rule self)) = Raise IndexError.
Proof.
  intros Hinit. pose proof (init_wf _ _ _ _ _ Hinit) as (Hwf & Hnhd & Hst).
  apply init_Ok_inv in Hinit as (Hn & _ & _ & t & Hself & _).
  assert (_max_rule_ix self = len (rule self)) as Hmax.
  { rewrite (wf_rule_len _ Hwf), Hnhd, Hst. by rewrite Hself. }
  assert (∀ ix, _check_rule_ix self ix = Passes ↔ 0 ≤ ix ≤ len (rule self)) as Hchk.
  { intros ix. unfold _check_rule_ix. rewrite Hmax.
    destruct (Z.ltb_spec ix 0), (Z.ltb_spec (len (rule self)) ix); simpl;
      split; (done || lia). }
  pose proof (len_nonneg (rule self)) as Hnn.
  split_and!; [done | | apply Hchk; lia |].
  - intros w ix Hlen Hix.
    assert (Forall (λ x, 0 ≤ x < n_states self) w) as Hw.
    { unfold _neighborhood_to_index in Hix. apply bind_Ok in Hix as ([] & Hb & _).
      by apply states_in_bounds_Ok. }
    rewrite (neighborhood_to_index_Ok _ _ Hw) in Hix. injection Hix as <-.
    pose proof (encode_bounds (n_states self) w ltac:(lia) Hw) as He.
    rewrite Hlen, <- Hnhd, <- (wf_in_size _ Hwf), <- (wf_rule_len' self Hwf) in He.
    split; [apply Hchk; lia|]. rewrite py_getitem_Ok by done. eauto.
  - unfold py_getitem. destruct (Z.ltb_spec (len (rule self)) 0); [lia|].
    destruct (Z.ltb_spec (len (rule self)) 0); [lia|].
    by rewrite lookup_ge_None_2 by (unfold len; lia).
Qed.

Lemma check_rule_ix_off_by_one_witness :
  (∀ ix, _check_rule_ix ca90 ix = Passes ↔ 0 ≤ ix ≤ len (rule ca90))
  ∧ (∀ w ix, len w = window_size (1, 1) → _neighborhood_to_index ca90 w = Ok ix →
       _check_rule_ix ca90 ix = Passes
       ∧ ∃ x, py_getitem (rule ca90) ix = Ok x)
  ∧ _check_rule_ix ca90 (len (rule ca90)) = Passes
  ∧ py_getitem (rule ca90) (len (rule ca90)) = Raise IndexError.
Proof. apply (check_rule_ix_off_by_one 9 (RuleInt 90) (1, 1) 2 ca90). reflexivity. Defined.

(** ** Evolution in two parts *)

Lemma call_loop_extends (self : CA) (pre_pad : bool) (iters : nat) :
  ∀ out out', call_loop self pre_pad iters out = Ok out' → ∃ ext, out' = out ++ ext.
Proof.
  induction iters as [|iters IH]; intros out out'; simpl.
  - intros [= <-]. exists []. by rewrite app_nil_r.
  - intros (cur & _ & (nxt & _ & Hrest)%bind_Ok)%bind_Ok.
    destruct (0 <? len nxt).
    + apply IH in Hrest as [ext ->]. exists (nxt :: ext). by rewrite <- app_assoc.
    + injection Hrest as <-. exists []. by rewrite app_nil_r.
Qed.

(** The loop looks at the last row only. *)
Lemma call_loop_prefix (self : CA) (pre_pad : bool) (iters : nat) :
  ∀ (out0 : list (list Z)) (cur : list Z),
    call_loop self pre_pad iters (out0 ++ [cur])
    = ext ← call_loop self pre_pad iters [cur]; Ok (out0 ++ ext).
Proof.
  induction iters as [|iters IH]; intros out0 cur; [done|].
  cbn [call_loop]. rewrite py_getitem_last.
  replace (py_getitem [cur] (-1)) with (Ok cur) by done.
  cbn [mbind res_bind].
  destruct (_apply_rule self cur pre_pad) as [nxt|e]; [|done]. cbn [mbind res_bind].
  destruct (0 <? len nxt); [|done].
  rewrite (IH (out0 ++ [cur]) nxt), (IH [cur] nxt).
  destruct (call_loop self pre_pad iters [nxt]); [|done]. simpl.
  by rewrite <- app_assoc.
Qed.

(** [a + b] iterations are [a] iterations followed by [b] more. *)
Lemma call_loop_add (self : CA) (pre_pad : bool) (a b : nat) :
  ∀ out, call_loop self pre_pad (a + b) out
         = call_loop self pre_pad a out ≫= call_loop self pre_pad b.
Proof.
  induction a as [|a IH]; intros out; [done|].
  cbn [Nat.add call_loop].
  destruct (py_getitem out (-1)) as [cur|e] eqn:Hcur; [|done]. cbn [mbind res_bind].
  destruct (_apply_rule self cur pre_pad) as [nxt|e] eqn:Hstep; [|done].
  cbn [mbind res_bind].
  destruct (0 <? len nxt) eqn:Hlen; [apply IH|].
  destruct b as [|b]; [done|]. cbn [mbind res_bind call_loop].
  rewrite Hcur. cbn [mbind res_bind].
  rewrite Hstep. cbn [mbind res_bind]. by rewrite Hlen.
Qed.

(** X19. Evolution composes: if a call of [a] steps without output padding
    returns the history [h1], and a call of [b] steps from the last row of
    [h1] returns [h2], then the call of [a + b] steps from the original
    input returns [h1] followed by [h2] without its first row. *)
Theorem evolution_composes
  (self : CA) (seq cur : list Z) (a b : Z) (pad_input : bool)
  (h1 h2 : list (list Z)) :
  __call__ self seq a pad_input false = Ok h1 →
  last h1 = Some cur →
  __call__ self cur b pad_input false = Ok h2 →
  __call__ self seq (a + b) pad_input false = Ok (h1 ++ drop 1 h2).
Proof.
  unfold __call__.
  destruct (Z.ltb_spec a 1); [done|]. destruct (Z.ltb_spec b 1); [done|].
  destruct (Z.ltb_spec (a + b) 1); [lia|].
  intros (raw1 & Hrun1 & [= <-])%bind_Ok (h1' & ->)%last_Some
         (raw2 & Hrun2 & [= <-])%bind_Ok.
  replace (Z.to_nat (a + b)) with (Z.to_nat a + Z.to_nat b)%nat by lia.
  rewrite call_loop_add, Hrun1. cbn [mbind res_bind].
  rewrite call_loop_prefix, Hrun2. simpl.
  apply call_loop_extends in Hrun2 as [ext ->]. simpl.
  by rewrite drop_0, <- app_assoc.
Qed.

Lemma evolution_composes_witness :
  __call__ ca90 [0;1;0;0;0;0;0] (1 + 2) false false
  = Ok ([[0;1;0;0;0;0;0]; [0;1;0;0;0]] ++ drop 1 [[0;1;0;0;0]; [0;1;0]; [0]]).
Proof.
  apply (evolution_composes ca90 [0;1;0;0;0;0;0] [0;1;0;0;0] 1 2 false);
    reflexivity.
Defined.

(** ** The zero background *)

Lemma encode_all_zero (n : Z) (w : list Z) :
  Forall (λ x, x = 0) w → encode n w = 0.
Proof.
  induction 1 as [|x w -> _ IH]; [done|]. rewrite encode_cons, IH. lia.
Qed.

Section quiescent.
Variable self : CA.
Hypothesis Hwf : CA_wf self.
Hypothesis Hquiet : rule self !! 0%nat = Some 0.

Lemma step_all_zero (seq : list Z) (pre_pad : bool) :
  Forall (λ x, x = 0) seq → Forall (λ x, x = 0) (step self seq pre_pad).
Proof.
  intros Hz. unfold step. apply Forall_fmap, Forall_forall. intros j _. simpl.
  unfold next_state. rewrite encode_all_zero.
  - by apply nth_lookup_Some.
  - apply Forall_take, Forall_drop. unfold padded. destruct pre_pad; [|done].
    rewrite !Forall_app. unfold zeros.
    split_and!; [apply Forall_replicate | done | apply Forall_replicate]; done.
Qed.

Lemma iter_apply_all_zero (pre_pad : bool) (i : nat) :
  ∀ seq row, Forall (λ x, x = 0) seq →
    iter_apply self pre_pad i seq = Ok row → Forall (λ x, x = 0) row.
Proof.
  induction i as [|i IH]; intros seq row Hz; simpl; [by intros [= <-]|].
  intros (nxt & Hstep & Hit)%bind_Ok. apply (IH nxt row); [|done].
  pose proof (apply_rule_Ok_inv self Hwf _ _ _ Hstep) as (Hb & _ & Hlen & _).
  rewrite (apply_rule_Ok self Hwf seq pre_pad Hb Hlen) in Hstep.
  injection Hstep as <-. by apply step_all_zero.
Qed.
End quiescent.

(** X20. The zero background is kept when the all-zero window maps to 0:
    in a configuration whose rule table has 0 as its first entry, every row
    of the history returned for an all-zero input, with any padding flags,
    is all zeros. *)
Theorem zero_background
  (depth : nat) (r : rule_arg) (nh : Z * Z) (state_count : Z) (self : CA)
  (seq : list Z) (steps : Z) (pad_input pad_output : bool)
  (hist : list (list Z)) :
  __init__ depth r nh state_count = Ok self →
  rule self !! 0%nat = Some 0 →
  Forall (λ x, x = 0) seq →
  __call__ self seq steps pad_input pad_output = Ok hist →
  Forall (Forall (λ x, x = 0)) hist.
Proof.
  intros (Hwf & _ & _)%init_wf Hquiet Hz Hcall.
  assert (∀ raw, __call__ self seq steps pad_input false = Ok raw →
                 Forall (Forall (λ x, x = 0)) raw) as Hraw.
  { intros raw Hraw. apply Forall_lookup_2. intros i row Hrow.
    apply (call_raw_rows self Hwf) in Hraw as (_ & _ & _ & Hit).
    by apply Hit, (iter_apply_all_zero self Hwf Hquiet) in Hrow. }
  destruct pad_output; [|by apply Hraw].
  apply call_post_pad in Hcall as (raw & Hcall & Hpad). apply Hraw in Hcall.
  apply (pad_output_rows self) in Hpad
    as [_ [-> | (max_len & _ & _ & _ & _ & _ & ->)]]; [done|].
  apply Forall_fmap. eapply Forall_impl; [exact Hcall|]. intros row Hrow. simpl.
  destruct (pad_row_shape self max_len row) as (a & b & ->).
  rewrite !Forall_app. unfold zeros.
  split_and!; [apply Forall_replicate | done | apply Forall_replicate]; done.
Qed.

Lemma zero_background_witness :
  Forall (Forall (λ x, x = 0)) [[0;0;0;0;0]; [0;0;0;0;0]; [0;0;0;0;0]].
Proof.
  apply (zero_background 9 (RuleInt 90) (1, 1) 2 ca90 [0;0;0;0;0] 2 false true).
  - reflexivity.
  - reflexivity.
  - repeat constructor.
  - reflexivity.
Defined.

(** ** Windows and indices *)

Lemma nth_reverse (w : list Z) (i : nat) :
  (i < length w)%nat → nth i (reverse w) 0 = nth (length w - 1 - i) w 0.
Proof.
  intros Hi.
  destruct (lookup_lt_is_Some_2 w (length w - 1 - i)) as [x Hx]; [lia|].
  rewrite (nth_lookup_Some w _ 0 x Hx). apply nth_lookup_Some.
  rewrite reverse_lookup by done. by replace (length w - S i)%nat with (length w - 1 - i)%nat by lia.
Qed.

(** The digits of the index of a window are its cells, last cell first, and
    zero from the length of the window on. *)
Lemma digit_encode_reverse (n : Z) (w : list Z) (i : nat) :
  2 ≤ n → Forall (λ x, 0 ≤ x < n) w →
  digit n (encode n w) i = nth i (reverse w) 0.
Proof.
  intros Hn Hw. destruct (decide (i < length w)%nat) as [Hi|Hi].
  - rewrite nth_reverse by done.
    rewrite <- (digit_encode n w Hn Hw (length w - 1 - i)) by lia.
    f_equal. lia.
  - rewrite nth_overflow by (rewrite length_reverse; lia).
    pose proof (encode_bounds n w ltac:(lia) Hw) as He. unfold digit.
    rewrite Z.div_small; [apply Z.mod_0_l; lia|].
    split; [lia|]. eapply Z.lt_le_trans; [apply He|].
    apply Z.pow_le_mono_r; unfold len; lia.
Qed.

(** X21. An index has one window: in every configuration
    [_neighborhood_to_index] is injective on sequences of equal length (two
    windows with the same index are the same window), and every index of
    the rule table is the index of some window of [window_size] states in
    bounds.  The rule table has exactly one entry for each window. *)
Theorem window_index_bijection
  (depth : nat) (r : rule_arg) (nh : Z * Z) (state_count : Z) (self : CA) :
  __init__ depth r nh state_count = Ok self →
  (∀ w1 w2 ix,
     _neighborhood_to_index self w1 = Ok ix →
     _neighborhood_to_index self w2 = Ok ix →
     length w1 = length w2 → w1 = w2)
  ∧ (∀ ix, 0 ≤ ix < len (rule self) →
       ∃ w, len w = window_size nh
            ∧ Forall (λ x, 0 ≤ x < state_count) w
            ∧ _neighborhood_to_index self w = Ok ix).
Proof.
  intros (Hwf & Hnhd & Hst)%init_wf.
  pose proof (wf_in_size _ Hwf) as Hsz. rewrite Hnhd in Hsz.
  pose proof (wf_states _ Hwf) as Hn.
  pose proof (wf_in_size_pos self Hwf) as Hpos.
  assert (∀ w ix, _neighborhood_to_index self w = Ok ix →
            Forall (λ x, 0 ≤ x < n_states self) w ∧ ix = encode (n_states self) w)
    as Hinv.
  { intros w ix Hix. assert (Forall (λ x, 0 ≤ x < n_states self) w) as Hw.
    { unfold _neighborhood_to_index in Hix. apply bind_Ok in Hix as ([] & Hb & _).
      by apply states_in_bounds_Ok. }
    rewrite (neighborhood_to_index_Ok _ _ Hw) in Hix. split; [done | congruence]. }
  split.
  - intros w1 w2 ix [Hw1 ->]%Hinv [Hw2 He]%Hinv Hlen.
    rewrite <- (reverse_involutive w1), <- (reverse_involutive w2). f_equal.
    apply (nth_ext _ _ 0 0); [by rewrite !length_reverse|].
    intros i _.
    rewrite <- (digit_encode_reverse (n_states self) w1 i) by (done || lia).
    rewrite <- (digit_encode_reverse (n_states self) w2 i) by (done || lia).
    by rewrite He.
  - intros ix Hix. rewrite (wf_rule_len' self Hwf) in Hix.
    set (t := (λ i : nat, digit (n_states self) ix i)
                <$> seq 0 (Z.to_nat (in_size self))).
    assert (len t = in_size self) as Htlen
      by (unfold t, len; rewrite length_fmap, length_seq; lia).
    assert (∀ i, nth i t 0 = digit (n_states self) ix i) as Hnth.
    { intros i. destruct (decide (i < Z.to_nat (in_size self))%nat) as [Hi|Hi].
      - apply nth_lookup_Some. unfold t.
        by rewrite list_lookup_fmap, lookup_seq_lt.
      - rewrite nth_overflow by (unfold len in Htlen; lia). unfold digit.
        rewrite Z.div_small; [symmetry; apply Z.mod_0_l; lia|].
        split; [lia|]. eapply Z.lt_le_trans; [apply Hix|].
        apply Z.pow_le_mono_r; lia. }
    assert (Forall (λ x, 0 ≤ x < n_states self) t) as Htb.
    { unfold t. apply Forall_fmap, Forall_forall. intros i _. by apply digit_bounds. }
    exists (reverse t). rewrite <- Hsz, <- Hst. split_and!.
    + unfold len in *. by rewrite length_reverse.
    + by apply Forall_reverse.
    + rewrite neighborhood_to_index_Ok by (by apply Forall_reverse). f_equal.
      apply encode_reverse_digits; [done | by rewrite Htlen | done].
Qed.

Lemma window_index_bijection_witness :
  (∀ w1 w2 ix,
     _neighborhood_to_index ca90 w1 = Ok ix →
     _neighborhood_to_index ca90 w2 = Ok ix →
     length w1 = length w2 → w1 = w2)
  ∧ (∀ ix, 0 ≤ ix < len (rule ca90) →
       ∃ w, len w = window_size (1, 1)
            ∧ Forall (λ x, 0 ≤ x < 2) w
            ∧ _neighborhood_to_index ca90 w = Ok ix).
Proof. apply (window_index_bijection 9 (RuleInt 90) (1, 1) 2 ca90). reflexivity. Defined.

(** X22. [_int_to_states] on the index of a window: in every configuration,
    decoding the index that [_neighborhood_to_index] gives to a window of
    [window_size] cells returns (the interpreter allowing one nested call
    more than the length of the rule table) the window reversed, followed by
    zeros up to the length of the rule table. *)
Theorem int_to_states_of_window_index
  (depth0 depth : nat) (r : rule_arg) (nh : Z * Z) (state_count : Z) (self : CA)
  (w : list Z) (ix : Z) :
  __init__ depth0 r nh state_count = Ok self →
  len w = window_size nh →
  _neighborhood_to_index self w = Ok ix →
  (Z.to_nat (len (rule self)) < depth)%nat →
  _int_to_states depth (n_states self) (in_size self) ix
  = Ok (reverse w ++ zeros (len (rule self) - len w)).
Proof.
  intros (Hwf & Hnhd & Hst)%init_wf Hlen Hix Hd.
  pose proof (wf_in_size _ Hwf) as Hsz. rewrite Hnhd in Hsz.
  pose proof (wf_states _ Hwf) as Hn.
  pose proof (wf_in_size_pos self Hwf) as Hpos.
  rewrite (wf_rule_len' self Hwf) in *.
  rewrite <- Hsz in Hlen. rewrite Hlen.
  assert (Forall (λ x, 0 ≤ x < n_states self) w) as Hwb.
  { unfold _neighborhood_to_index in Hix. apply bind_Ok in Hix as ([] & Hb & _).
    by apply states_in_bounds_Ok. }
  rewrite neighborhood_to_index_Ok in Hix by done.
  injection Hix as <-.
  pose proof (encode_bounds (n_states self) w ltac:(lia) Hwb) as He.
  rewrite Hlen in He.
  pose proof (Z.pow_gt_lin_r (n_states self) (in_size self) ltac:(lia) ltac:(lia))
    as Hlin.
  assert (n_states self ^ in_size self
          ≤ n_states self ^ n_states self ^ in_size self)
    as Hmono by (apply Z.pow_le_mono_r; lia).
  destruct (int_to_states_returns (n_states self) Hn depth (in_size self)
              (encode (n_states self) w)) as [t Ht]; [lia | lia | done |].
  rewrite Ht. f_equal.
  apply (int_to_states_inv (n_states self) Hn) in Ht as [Htlen Hnth]; [|lia | lia].
  apply (nth_ext _ _ 0 0).
  - unfold len in *. rewrite length_app, length_reverse.
    unfold zeros. rewrite length_replicate. lia.
  - intros i _. rewrite Hnth, nth_app_zeros. by apply digit_encode_reverse.
Qed.

Lemma int_to_states_of_window_index_witness :
  _int_to_states 9 (n_states ca90) (in_size ca90) 6
  = Ok (reverse [1;1;0] ++ zeros (len (rule ca90) - len [1;1;0])).
Proof.
  apply (int_to_states_of_window_index 9 9 (RuleInt 90) (1, 1) 2 ca90 [1;1;0] 6);
    try reflexivity. vm_compute. lia.
Defined.

(** X23. With input padding, output padding changes nothing: in every
    configuration a call with input padding gives the same result, history
    or exception, with and without output padding. *)
Theorem output_padding_idle_with_input_padding
  (depth : nat) (r : rule_arg) (nh : Z * Z) (state_count : Z) (self : CA)
  (seq : list Z) (steps : Z) :
  __init__ depth r nh state_count = Ok self →
  __call__ self seq steps true true = __call__ self seq steps true false.
Proof.
  intros (Hwf & _ & _)%init_wf.
  destruct (__call__ self seq steps true false) as [raw|e] eqn:Hraw.
  - pose proof (call_raw_bounds self Hwf _ _ _ _ Hraw) as Hb.
    pose proof (call_raw_rows self Hwf _ _ _ _ Hraw) as (_ & Hhd & _ & Hit).
    apply call_post_pad. exists raw. split; [done|].
    destruct (pad_output_returns self raw Hb) as [out Hout];
      [left; by destruct raw|].
    rewrite Hout. f_equal.
    assert (__call__ self seq steps true true = Ok out) as Hpad
      by (apply call_post_pad; eauto).
    apply (call_padded_rows self Hwf) in Hpad as (raw' & Hraw' & Hlen & Hrows).
    rewrite Hraw in Hraw'. injection Hraw' as <-.
    apply list_eq. intros i. destruct (raw !! i) as [row|] eqn:Hrow.
    + destruct (Hrows i row Hrow) as [_ ->]. f_equal.
      destruct (decide (1 < in_size self)); [|done]. apply pad_row_full.
      apply Hit, (iter_apply_row self Hwf) in Hrow as (-> & _). done.
    + apply lookup_ge_None. rewrite Hlen. by apply lookup_ge_None.
  - unfold __call__ in *. destruct (steps <? 1); [done|].
    destruct (call_loop self true (Z.to_nat steps) [seq]); [done | done].
Qed.

Lemma output_padding_idle_with_input_padding_witness :
  __call__ ca90 [0;1;0;0;0] 3 true true = __call__ ca90 [0;1;0;0;0] 3 true false.
Proof.
  apply (output_padding_idle_with_input_padding 9 (RuleInt 90) (1, 1) 2 ca90).
  reflexivity.
Defined.

(** ** The recursion allowance of the decoding

    [int_to_states_rcrs] makes one nested call for each base-[n_states]
    digit of [k], and one more that finds [k == 0]. *)

Section recursion.
Variable n : Z.
Hypothesis Hn : 2 ≤ n.

Lemma int_to_states_rcrs_overflow (depth : nat) :
  ∀ k acc, depth = 0%nat ∨ n ^ Z.of_nat (depth - 1) ≤ k →
    int_to_states_rcrs depth k n acc = Raise RecursionError.
Proof.
  induction depth as [|d IH]; intros k acc Hk; [done|]. simpl.
  destruct Hk as [|Hk]; [done|]. replace (S d - 1)%nat with d in Hk by lia.
  assert (0 < n ^ Z.of_nat d) by (apply Z.pow_pos_nonneg; lia).
  destruct (Z.eqb_spec k 0); [lia|].
  unfold divmod. destruct (Z.eqb_spec n 0) as [|_]; [lia|]. simpl.
  apply IH. destruct d as [|d]; [by left | right].
  replace (S d - 1)%nat with d by lia.
  rewrite Nat2Z.inj_succ, Z.pow_succ_r in Hk by lia.
  apply Z.div_le_lower_bound; lia.
Qed.

(** The three outcomes of construction from a rule number. *)
Lemma init_int_cases (depth : nat) (nh : Z * Z) (k : Z) :
  0 ≤ nh.1 → 0 ≤ nh.2 →
  (k < 0 ∨ k > n ^ table_length n nh - 1)
  ∧ __init__ depth (RuleInt k) nh n = Raise RuleNumberOutOfRange
  ∨ 0 ≤ k ≤ n ^ table_length n nh - 1
    ∧ (depth = 0%nat ∨ n ^ Z.of_nat (depth - 1) ≤ k)
    ∧ __init__ depth (RuleInt k) nh n = Raise RecursionError
  ∨ 0 ≤ k ≤ n ^ table_length n nh - 1
    ∧ (0 < depth)%nat ∧ k < n ^ Z.of_nat (depth - 1)
    ∧ ∃ t, _int_to_states depth n (window_size nh) k = Ok t
           ∧ __init__ depth (RuleInt k) nh n
             = Ok (mkCA t nh n (window_size nh) (table_length n nh)).
Proof.
  intros Hl Hr.
  destruct (decide (k < 0 ∨ k > n ^ table_length n nh - 1)) as [Hout|Hin].
  - left. split; [done|]. unfold __init__, table_length, window_size in *.
    destruct (Z.ltb_spec nh.1 0); [lia|]. destruct (Z.ltb_spec nh.2 0); [lia|].
    destruct (Z.ltb_spec n 2); [lia|]. simpl.
    destruct (Z.ltb_spec k 0); [done|].
    by destruct (Z.ltb_spec (n ^ n ^ (nh.1 + nh.2 + 1) - 1) k); [|lia].
  - right. assert (0 ≤ k ≤ n ^ table_length n nh - 1) as Hk by lia.
    destruct (decide (depth = 0%nat ∨ n ^ Z.of_nat (depth - 1) ≤ k)) as [Hover|Hfit].
    + left. split_and!; [lia | lia | done |].
      unfold __init__, table_length, window_size in *.
      destruct (Z.ltb_spec nh.1 0); [lia|]. destruct (Z.ltb_spec nh.2 0); [lia|].
      destruct (Z.ltb_spec n 2); [lia|]. simpl.
      destruct (Z.ltb_spec k 0); [lia|].
      destruct (Z.ltb_spec (n ^ n ^ (nh.1 + nh.2 + 1) - 1) k); [lia|]. simpl.
      unfold _int_to_states. by rewrite int_to_states_rcrs_overflow.
    + right. split_and!; [lia | lia | lia | lia |].
      destruct (int_to_states_rcrs_returns n Hn (depth - 1) depth k [])
        as [out Hout]; [lia | lia |].
      assert (∃ t, _int_to_states depth n (window_size nh) k = Ok t) as [t Ht]
        by (unfold _int_to_states; rewrite Hout; simpl; eauto).
      exists t. split; [done|]. by apply init_int_Ok.
Qed.
End recursion.

(** X25. The outcomes of construction from a rule number, for
    [state_count >= 2] and radii [>= 0], [depth] being the number of nested
    calls the interpreter allows: it fails with [RuleNumberOutOfRange]
    exactly when [k < 0] or [k > state_count ^ table_length - 1]; it fails
    with [RecursionError] exactly when [k] is in range and
    [k >= state_count ^ (depth - 1)] (or no call is allowed at all); it
    returns exactly when [k] is in range and [k < state_count ^ (depth - 1)],
    and then the rule table has length [table_length] and holds the
    base-[state_count] digits of [k], least significant first. *)
Theorem init_rule_number_outcome
  (depth : nat) (nh : Z * Z) (state_count k : Z) :
  2 ≤ state_count → 0 ≤ nh.1 → 0 ≤ nh.2 →
  (__init__ depth (RuleInt k) nh state_count = Raise RuleNumberOutOfRange
   ↔ k < 0 ∨ k > state_count ^ table_length state_count nh - 1)
  ∧ (__init__ depth (RuleInt k) nh state_count = Raise RecursionError
     ↔ 0 ≤ k ≤ state_count ^ table_length state_count nh - 1
       ∧ (depth = 0%nat ∨ state_count ^ Z.of_nat (depth - 1) ≤ k))
  ∧ ((∃ ca, __init__ depth (RuleInt k) nh state_count = Ok ca)
     ↔ 0 ≤ k ≤ state_count ^ table_length state_count nh - 1
       ∧ (0 < depth)%nat ∧ k < state_count ^ Z.of_nat (depth - 1))
  ∧ (∀ ca, __init__ depth (RuleInt k) nh state_count = Ok ca →
       len (rule ca) = table_length state_count nh
       ∧ ∀ i : nat, Z.of_nat i < len (rule ca) →
           rule ca !! i = Some (digit state_count k i)).
Proof.
  intros Hn Hl Hr. split_and!.
  - destruct (init_int_cases state_count Hn depth nh k Hl Hr)
      as [(Hc & ->) | [(Hc & Hd & ->) | (Hc & Hd & Hk & t & _ & ->)]];
      (split; [intros [=] | intros]); try done; lia.
  - destruct (init_int_cases state_count Hn depth nh k Hl Hr)
      as [(Hc & ->) | [(Hc & Hd & ->) | (Hc & Hd & Hk & t & _ & ->)]];
      (split; [intros [=] | intros]); try done; lia.
  - destruct (init_int_cases state_count Hn depth nh k Hl Hr)
      as [(Hc & ->) | [(Hc & Hd & ->) | (Hc & Hd & Hk & t & _ & ->)]];
      (split; [intros [ca [=]] | intros]); eauto; lia.
  - intros ca (_ & _ & _ & t & -> & Hk & Ht)%init_Ok_inv. simpl.
    assert (0 ≤ window_size nh) as Hw by (unfold window_size; lia).
    apply (int_to_states_inv state_count Hn) in Ht as [Hlen Hnth];
      [| done | unfold table_length in Hk; lia].
    split; [done|]. intros i Hi. by rewrite lookup_nth_len, Hnth.
Qed.

Lemma init_rule_number_outcome_witness :
  (__init__ 9 (RuleInt 90) (1, 1) 2 = Raise RuleNumberOutOfRange
   ↔ 90 < 0 ∨ 90 > 2 ^ table_length 2 (1, 1) - 1)
  ∧ (__init__ 9 (RuleInt 90) (1, 1) 2 = Raise RecursionError
     ↔ 0 ≤ 90 ≤ 2 ^ table_length 2 (1, 1) - 1
       ∧ ((9 = 0)%nat ∨ 2 ^ Z.of_nat (9 - 1) ≤ 90))
  ∧ ((∃ ca, __init__ 9 (RuleInt 90) (1, 1) 2 = Ok ca)
     ↔ 0 ≤ 90 ≤ 2 ^ table_length 2 (1, 1) - 1
       ∧ (0 < 9)%nat ∧ 90 < 2 ^ Z.of_nat (9 - 1))
  ∧ (∀ ca, __init__ 9 (RuleInt 90) (1, 1) 2 = Ok ca →
       len (rule ca) = table_length 2 (1, 1)
       ∧ ∀ i : nat, Z.of_nat i < len (rule ca) →
           rule ca !! i = Some (digit 2 90 i)).
Proof. apply (init_rule_number_outcome 9 (1, 1) 2 90); simpl; lia. Defined.

(** C1. The decoding of a rule number in range can exhaust the recursion
    allowance: for two states and radii [(5, 4)] the rule number [2 ^ 1000]
    is in range (the largest is [2 ^ 1024 - 1]), and with at most 1000
    nested calls allowed construction raises [RecursionError]: it produces
    no rule table. *)
Theorem wolfram_decoding_recursion_limit (depth : nat) :
  (depth ≤ 1000)%nat →
  0 ≤ 2 ^ 1000 ≤ 2 ^ table_length 2 (5, 4) - 1
  ∧ __init__ depth (RuleInt (2 ^ 1000)) (5, 4) 2 = Raise RecursionError
  ∧ ¬ ∃ ca, __init__ depth (RuleInt (2 ^ 1000)) (5, 4) 2 = Ok ca.
Proof.
  intros Hd.
  assert (0 ≤ 2 ^ 1000 ≤ 2 ^ table_length 2 (5, 4) - 1) as Hk.
  { change (table_length 2 (5, 4)) with 1024.
    pose proof (Z.pow_lt_mono_r 2 1000 1024). lia. }
  assert (2 ^ Z.of_nat (depth - 1) ≤ 2 ^ 1000) as Hover
    by (apply Z.pow_le_mono_r; lia).
  destruct (init_int_cases 2 ltac:(lia) depth (5, 4) (2 ^ 1000))
    as [(Hc & _) | [(_ & _ & H) | (_ & _ & Hfit & _)]]; simpl; try lia.
  rewrite H. split_and!; [lia | lia | done | by intros [ca [=]]].
Qed.

Lemma wolfram_decoding_recursion_limit_witness :
  0 ≤ 2 ^ 1000 ≤ 2 ^ table_length 2 (5, 4) - 1
  ∧ __init__ 1000 (RuleInt (2 ^ 1000)) (5, 4) 2 = Raise RecursionError
  ∧ ¬ ∃ ca, __init__ 1000 (RuleInt (2 ^ 1000)) (5, 4) 2 = Ok ca.
Proof. apply (wolfram_decoding_recursion_limit 1000). lia. Defined.

(** C8. A rule number in range whose construction does not succeed: for
    three states and radii [(3, 3)] the rule number [3 ^ 1000] passes the
    range check (the largest is [3 ^ 2187 - 1]), so construction does not
    fail with [RuleNumberOutOfRange]; with at most 1000 nested calls allowed
    it does not return either: the decoding raises [RecursionError]. *)
Theorem rule_number_in_range_recursion_limit (depth : nat) :
  (depth ≤ 1000)%nat →
  ¬ (3 ^ 1000 < 0 ∨ 3 ^ 1000 > 3 ^ table_length 3 (3, 3) - 1)
  ∧ __init__ depth (RuleInt (3 ^ 1000)) (3, 3) 3 ≠ Raise RuleNumberOutOfRange
  ∧ (¬ ∃ ca, __init__ depth (RuleInt (3 ^ 1000)) (3, 3) 3 = Ok ca)
  ∧ __init__ depth (RuleInt (3 ^ 1000)) (3, 3) 3 = Raise RecursionError.
Proof.
  intros Hd.
  assert (0 ≤ 3 ^ 1000 ≤ 3 ^ table_length 3 (3, 3) - 1) as Hk.
  { change (table_length 3 (3, 3)) with 2187.
    pose proof (Z.pow_lt_mono_r 3 1000 2187). lia. }
  assert (3 ^ Z.of_nat (depth - 1) ≤ 3 ^ 1000) as Hover
    by (apply Z.pow_le_mono_r; lia).
  destruct (init_int_cases 3 ltac:(lia) depth (3, 3) (3 ^ 1000))
    as [(Hc & _) | [(_ & _ & H) | (_ & _ & Hfit & _)]]; simpl; try lia.
  rewrite H. split_and!; [lia | done | by intros [ca [=]] | done].
Qed.

Lemma rule_number_in_range_recursion_limit_witness :
  ¬ (3 ^ 1000 < 0 ∨ 3 ^ 1000 > 3 ^ table_length 3 (3, 3) - 1)
  ∧ __init__ 1000 (RuleInt (3 ^ 1000)) (3, 3) 3 ≠ Raise RuleNumberOutOfRange
  ∧ (¬ ∃ ca, __init__ 1000 (RuleInt (3 ^ 1000)) (3, 3) 3 = Ok ca)
  ∧ __init__ 1000 (RuleInt (3 ^ 1000)) (3, 3) 3 = Raise RecursionError.
Proof. apply (rule_number_in_range_recursion_limit 1000). lia. Defined.
